(** * bioptim: the integrators of [bioptim/dynamics/integrator.py]

    The module turns a continuous dynamics function into a discrete step
    function.  Each class ([RK1], [RK2], [RK4], [RK8], [TRAPEZOIDAL],
    [COLLOCATION], [IRK]) derives, in its [dxdt] method, the end state, the
    trajectory and possibly the defects of one interval; the constructor
    wraps what [dxdt] returns into a CasADi [Function].

    Conventions of the embedding.
    - A CasADi scalar is a real number; a column is a [list R]; a matrix is
      the list of its columns.  A symbol ([MX.sym]) is represented by the
      value it stands for, so a statement about [dxdt] that holds for all
      arguments describes the built function at every numeric input.
    - A Python exception is a [Raise]; every call that may raise returns a
      [result].  The constructor runs [dxdt] once, so an exception of
      [dxdt] is a failure of the construction.
    - Elementwise arithmetic is on columns of equal length (CasADi rejects
      operands of different shapes; that rejection is not modelled, the
      shorter operand bounds the result).
    - The arithmetic is that of the real numbers: the expression graph is
      modelled, not the rounding of its evaluation in floating point. *)

From Stdlib Require Import Reals Lra Lia String.
From stdpp Require Import base list.

(** ** Exceptions and results *)

Inductive exception :=
| RuntimeError (msg : string)
| NotImplementedError (msg : string)
| ValueError (msg : string)
| IndexError      (* a Python list indexed out of range *)
| CasadiError.    (* a CasADi matrix sliced out of range *)

Inductive result (A : Type) :=
| Ok (a : A)
| Raise (e : exception).
Arguments Ok {A} a.
Arguments Raise {A} e.

Definition bind {A B} (m : result A) (k : A -> result B) : result B :=
  match m with
  | Ok a => k a
  | Raise e => Raise e
  end.

Notation "x <- m ;; k" := (bind m (fun x => k))
  (at level 100, m at next level, right associativity).

(** [for x in range(lo, hi): acc = body(x, acc)], stopping at the first
    exception. *)
Fixpoint for_each {A S} (l : list A) (acc : S) (body : A -> S -> result S)
  : result S :=
  match l with
  | [] => Ok acc
  | i :: l' => acc' <- body i acc ;; for_each l' acc' body
  end.

Definition range (lo hi : nat) : list nat := seq lo (hi - lo).

(** ** Columns and matrices *)

Abbreviation vec := (list R).
Abbreviation matrix := (list (list R)).

Local Open Scope R_scope.

Definition vadd (x y : vec) : vec := zip_with Rplus x y.
Definition vsub (x y : vec) : vec := zip_with Rminus x y.
(** [c * x], [x * c] and [x / c] for a scalar [c]. *)
Definition vscale (c : R) (x : vec) : vec := map (fun r => c * r) x.
Definition vscale_r (x : vec) (c : R) : vec := map (fun r => r * c) x.
Definition vdiv (x : vec) (c : R) : vec := map (fun r => r / c) x.

Infix "+v" := vadd (at level 50, left associativity).
Infix "-v" := vsub (at level 50, left associativity).
Infix "*v" := vscale (at level 40, left associativity).
Infix "v*" := vscale_r (at level 40, left associativity).
Infix "v/" := vdiv (at level 40, left associativity).

(** [m[:, i]]: CasADi raises when the column does not exist. *)
Definition col (m : matrix) (i : nat) : result vec :=
  match m !! i with
  | Some c => Ok c
  | None => Raise CasadiError
  end.

(** [m[:, -1]], the last column. *)
Definition col_last (m : matrix) : result vec := col m (length m - 1).

(** [l[i]] on a Python list. *)
Definition py_index {A} (l : list A) (i : nat) : result A :=
  match l !! i with
  | Some c => Ok c
  | None => Raise IndexError
  end.

(** [cx(rows, cols)] and [cx.zeros(rows, cols)]: a matrix of zeros. *)
Definition cx_zeros (rows cols : nat) : matrix :=
  replicate cols (replicate rows 0).

(** [m.shape]: (rows, columns); the empty list is the 0 x 0 matrix. *)
Definition shape (m : matrix) : nat * nat :=
  (match m with [] => 0%nat | c :: _ => length c end, length m).

(** ** The collaborators *)

(** Modelled from the spec: [bioptim/misc/enums.py] is not among the
    sources.  The control policies are piecewise constant, constant held to
    the last node and linear between two nodes; [NONE] stands for any other
    value of the enumeration. *)
Inductive ControlType :=
| CONSTANT
| CONSTANT_WITH_LAST_NODE
| LINEAR_CONTINUOUS
| NONE.

(** Modelled from the spec: [bioptim/misc/enums.py] is not among the
    sources.  The defect formulation is explicit or implicit;
    [NOT_APPLICABLE] stands for any other value. *)
Inductive DefectType :=
| EXPLICIT
| IMPLICIT
| NOT_APPLICABLE.

(** What the integrators use of the [BioModel] protocol. *)
Record BioModel := {
  nb_quaternions : nat;
  normalize_state_quaternions : vec -> vec
}.

(** The symbolic engine the graph is built from. *)
Inductive casadi_type := MX | SX.

(** [ode["ode"]]: called as [fun(vertcat(t, h), x, u, p, a)], it returns a
    matrix of which the integrators read column [ode_idx]. *)
Definition dynamics := vec -> vec -> matrix -> vec -> matrix -> matrix.

(** [ode["implicit_ode"]]: called with the slope as a sixth argument, it
    returns the defects. *)
Definition implicit_dynamics :=
  vec -> vec -> matrix -> vec -> matrix -> vec -> vec.

(** The [ode] dictionary; [X] is the type of the state symbol: a column for
    the Runge-Kutta classes, a matrix of two columns for [TRAPEZOIDAL], the
    Python list of the node columns for [COLLOCATION] and [IRK]. *)
Module Ode.
Record t (X : Type) := {
  t_span : R * R;   (* ode["t"]: start and duration of the interval *)
  x : X;
  u : matrix;
  param : vec;
  a : matrix;
  ode : dynamics;
  implicit_ode : implicit_dynamics
}.
Arguments t_span {X}.
Arguments x {X}.
Arguments u {X}.
Arguments param {X}.
Arguments a {X}.
Arguments ode {X}.
Arguments implicit_ode {X}.
End Ode.

(** The [ode_opt] dictionary. *)
Module OdeOpt.
Record t := {
  model : BioModel;
  ode_index : nat;
  cx : casadi_type;
  defects_type : DefectType;
  control_type : ControlType;
  duplicate_starting_point : bool;
  number_of_finite_elements : nat;
  method : string;
  irk_polynomial_interpolation_degree : nat
}.
End OdeOpt.

(** ** class Integrator *)

(** The attributes [Integrator.__init__] reads from [ode] and [ode_opt]. *)
Record Integrator (X : Type) := {
  model : BioModel;
  ode_idx : nat;
  cx : casadi_type;
  t_span_sym : R * R;
  x_sym : X;
  u_sym : matrix;
  param_sym : vec;
  a_sym : matrix;
  fun_ : dynamics;
  implicit_fun : implicit_dynamics;
  defects_type : DefectType;
  control_type : ControlType;
  duplicate_starting_point : bool
}.
Arguments model {X}.
Arguments ode_idx {X}.
Arguments cx {X}.
Arguments t_span_sym {X}.
Arguments x_sym {X}.
Arguments u_sym {X}.
Arguments param_sym {X}.
Arguments a_sym {X}.
Arguments fun_ {X}.
Arguments implicit_fun {X}.
Arguments defects_type {X}.
Arguments control_type {X}.
Arguments duplicate_starting_point {X}.

Definition Integrator_attributes {X} (ode : Ode.t X) (ode_opt : OdeOpt.t)
  : Integrator X :=
  {| model := OdeOpt.model ode_opt;
     ode_idx := OdeOpt.ode_index ode_opt;
     cx := OdeOpt.cx ode_opt;
     t_span_sym := Ode.t_span ode;
     x_sym := Ode.x ode;
     u_sym := Ode.u ode;
     param_sym := Ode.param ode;
     a_sym := Ode.a ode;
     fun_ := Ode.ode ode;
     implicit_fun := Ode.implicit_ode ode;
     defects_type := OdeOpt.defects_type ode_opt;
     control_type := OdeOpt.control_type ode_opt;
     duplicate_starting_point := OdeOpt.duplicate_starting_point ode_opt |}.

(** [Integrator.get_u].  The message of the [RuntimeError] starts, in the
    source, with the control type as the enumeration prints it; the
    enumeration is not among the sources and the message here keeps the
    constant part. *)
Definition get_u {X} (self : Integrator X) (u : matrix) (t : R)
  : result matrix :=
  match control_type self with
  | CONSTANT | CONSTANT_WITH_LAST_NODE => Ok u
  | LINEAR_CONTINUOUS =>
      let dt_norm := (t - fst (t_span_sym self)) / snd (t_span_sym self) in
      u0 <- col u 0 ;;
      u1 <- col u 1 ;;
      u0' <- col u 0 ;;
      Ok [u0 +v (u1 -v u0') v* dt_norm]
  | NONE => Raise (RuntimeError "ControlType not implemented yet")
  end.

(** [self.fun(t, x, u, p, a)[:, self.ode_idx]] *)
Definition fun_col {X} (self : Integrator X)
    (t x : vec) (u : matrix) (p : vec) (a : matrix) : result vec :=
  col (fun_ self t x u p a) (ode_idx self).

(** An object that also has the attribute [_n_step]: the Runge-Kutta
    classes and [TRAPEZOIDAL] set it before they call [Integrator.__init__]. *)
Record with_n_step (X : Type) := {
  super :> Integrator X;
  _n_step : nat
}.
Arguments super {X}.
Arguments _n_step {X}.

(** ** class RK and its subclasses *)

Inductive RK_class := RK1 | RK2 | RK4 | RK8.

Record RK := {
  RK_class_of : RK_class;
  RK_super :> with_n_step vec
}.

Definition RK_integration_time (self : RK) : R :=
  snd (t_span_sym self) / INR (_n_step self).

Definition RK_shape_xf (self : RK) : list nat :=
  [length (x_sym self); 1%nat].

Definition RK_shape_xall (self : RK) : list nat :=
  [length (x_sym self); (_n_step self + 1)%nat].

Definition RK_h (self : RK) : R :=
  snd (t_span_sym self) / INR (_n_step self).

(** [RK1.next_x]: forward Euler. *)
Definition RK1_next_x (self : RK) (t0 : R) (x_prev : vec) (u : matrix)
    (p : vec) (a : matrix) : result vec :=
  u0 <- get_u self u t0 ;;
  k1 <- fun_col self [t0; RK_h self] x_prev u0 p a ;;
  Ok (x_prev +v RK_h self *v k1).

(** [RK2.next_x]: midpoint. *)
Definition RK2_next_x (self : RK) (t0 : R) (x_prev : vec) (u : matrix)
    (p : vec) (a : matrix) : result vec :=
  let h := RK_h self in
  u1 <- get_u self u t0 ;;
  k1 <- fun_col self [t0; h] x_prev u1 p a ;;
  u2 <- get_u self u (t0 + h / 2) ;;
  k2 <- fun_col self [t0 + h / 2; h] (x_prev +v h / 2 *v k1) u2 p a ;;
  Ok (x_prev +v h *v k2).

(** [RK4.next_x] *)
Definition RK4_next_x (self : RK) (t0 : R) (x_prev : vec) (u : matrix)
    (p : vec) (a : matrix) : result vec :=
  let h := RK_h self in
  u1 <- get_u self u t0 ;;
  k1 <- fun_col self [t0; h] x_prev u1 p a ;;
  u2 <- get_u self u (t0 + h / 2) ;;
  k2 <- fun_col self [t0 + h / 2; h] (x_prev +v h / 2 *v k1) u2 p a ;;
  u3 <- get_u self u (t0 + h / 2) ;;
  k3 <- fun_col self [t0 + h / 2; h] (x_prev +v h / 2 *v k2) u3 p a ;;
  u4 <- get_u self u (t0 + h) ;;
  k4 <- fun_col self [t0 + h; h] (x_prev +v h *v k3) u4 p a ;;
  Ok (x_prev +v h / 6 *v (k1 +v 2 *v k2 +v 2 *v k3 +v k4)).

(** [RK8.next_x] *)
Definition RK8_next_x (self : RK) (t0 : R) (x_prev : vec) (u : matrix)
    (p : vec) (a : matrix) : result vec :=
  let h := RK_h self in
  u1 <- get_u self u t0 ;;
  k1 <- fun_col self [t0; h] x_prev u1 p a ;;
  u2 <- get_u self u (t0 + h * (4 / 27)) ;;
  k2 <- fun_col self [t0 + h * 4 / 27; h]
          (x_prev +v (h * 4 / 27) *v k1) u2 p a ;;
  u3 <- get_u self u (t0 + h * (2 / 9)) ;;
  k3 <- fun_col self [t0 + h / 18; h]
          (x_prev +v (h / 18) *v (k1 +v 3 *v k2)) u3 p a ;;
  u4 <- get_u self u (t0 + h * (1 / 3)) ;;
  k4 <- fun_col self [t0 + h / 12; h]
          (x_prev +v (h / 12) *v (k1 +v 3 *v k3)) u4 p a ;;
  u5 <- get_u self u (t0 + h * (1 / 2)) ;;
  k5 <- fun_col self [t0 + h / 8; h]
          (x_prev +v (h / 8) *v (k1 +v 3 *v k4)) u5 p a ;;
  u6 <- get_u self u (t0 + h * (2 / 3)) ;;
  k6 <- fun_col self [t0 + h / 54; h]
          (x_prev +v (h / 54)
             *v (13 *v k1 -v 27 *v k3 +v 42 *v k4 +v 8 *v k5)) u6 p a ;;
  u7 <- get_u self u (t0 + h * (1 / 6)) ;;
  k7 <- fun_col self [t0 + h / 4320; h]
          (x_prev +v (h / 4320)
             *v (389 *v k1 -v 54 *v k3 +v 966 *v k4 -v 824 *v k5
                 +v 243 *v k6)) u7 p a ;;
  u8 <- get_u self u (t0 + h) ;;
  k8 <- fun_col self [t0 + h / 20; h]
          (x_prev +v (h / 20)
             *v (-234 *v k1 +v 81 *v k3 -v 1164 *v k4 +v 656 *v k5
                 -v 122 *v k6 +v 800 *v k7)) u8 p a ;;
  u9 <- get_u self u (t0 + h * (5 / 6)) ;;
  k9 <- fun_col self [t0 + h / 288; h]
          (x_prev +v (h / 288)
             *v (-127 *v k1 +v 18 *v k3 -v 678 *v k4 +v 456 *v k5
                 -v 9 *v k6 +v 576 *v k7 +v 4 *v k8)) u9 p a ;;
  u10 <- get_u self u (t0 + h) ;;
  k10 <- fun_col self [t0 + h / 820; h]
          (x_prev +v (h / 820)
             *v (1481 *v k1 -v 81 *v k3 +v 7104 *v k4 -v 3376 *v k5
                 +v 72 *v k6 -v 5040 *v k7 -v 60 *v k8 +v 720 *v k9))
          u10 p a ;;
  Ok (x_prev +v h / 840
        *v (41 *v k1 +v 27 *v k4 +v 272 *v k5 +v 27 *v k6 +v 216 *v k7
            +v 216 *v k9 +v 41 *v k10)).

(** The method [next_x] the object's class provides. *)
Definition RK_next_x (self : RK) : R -> vec -> matrix -> vec -> matrix
                                   -> result vec :=
  match RK_class_of self with
  | RK1 => RK1_next_x self
  | RK2 => RK2_next_x self
  | RK4 => RK4_next_x self
  | RK8 => RK8_next_x self
  end.

(** One turn of the loop of [RK.dxdt]. *)
Definition RK_dxdt_body (self : RK) (u : matrix) (p : vec) (a : matrix)
    (i : nat) (x : matrix) : result matrix :=
  let t := fst (t_span_sym self) + RK_integration_time self * INR (i - 1) in
  x_prev <- col x (i - 1) ;;
  x_next <- RK_next_x self t x_prev u p a ;;
  let x := <[i := x_next]> x in
  if (0 <? nb_quaternions (model self))%nat then
    x_i <- col x i ;;
    Ok (<[i := normalize_state_quaternions (model self) x_i]> x)
  else Ok x.

(** [RK.dxdt] *)
Definition RK_dxdt (self : RK) (states : vec) (controls : matrix)
    (params : vec) (algebraic_states : matrix) : result (vec * matrix) :=
  let u := controls in
  let x := cx_zeros (length states) (_n_step self + 1) in
  let p := params in
  let x := <[0%nat := states]> x in
  let a := algebraic_states in
  x <- for_each (range 1 (_n_step self + 1)) x (RK_dxdt_body self u p a) ;;
  x_last <- col_last x ;;
  Ok (x_last, x).

(** What the constructor keeps of an object of class [C]: the object and
    the outputs its [dxdt] gave for the symbols, which [Function] wraps.
    (The attribute [step_times_from_dt], a CasADi function of the time span
    alone, is left out.) *)
Record built (C O : Type) := {
  object : C;
  function : O
}.
Arguments object {C O}.
Arguments function {C O}.

(** [RK.__init__], for each of the classes [RK1], [RK2], [RK4], [RK8]. *)
Definition RK_init (c : RK_class) (ode : Ode.t vec) (ode_opt : OdeOpt.t)
  : result (built RK (vec * matrix)) :=
  let _n_step := OdeOpt.number_of_finite_elements ode_opt in
  let self := {| RK_class_of := c;
                 RK_super := {| super := Integrator_attributes ode ode_opt;
                                _n_step := _n_step |} |} in
  outputs <- RK_dxdt self (x_sym self) (u_sym self) (param_sym self)
               (a_sym self) ;;
  Ok {| object := self; function := outputs |}.

(** ** class TRAPEZOIDAL *)

Definition TRAPEZOIDAL := with_n_step matrix.

Definition TRAPEZOIDAL_h (self : TRAPEZOIDAL) : R := snd (t_span_sym self).

(** [TRAPEZOIDAL.next_x] *)
Definition TRAPEZOIDAL_next_x (self : TRAPEZOIDAL) (t0 : R)
    (x_prev x_next : vec) (u_prev u_next : matrix) (p : vec)
    (a_prev a_next : matrix) : result vec :=
  let h := TRAPEZOIDAL_h self in
  dx <- fun_col self [t0; h] x_prev u_prev p a_prev ;;
  dx_next <- fun_col self [t0 + h; h] x_next u_next p a_next ;;
  Ok (x_prev +v (dx +v dx_next) v* h v/ 2).

Definition TRAPEZOIDAL_shape_xf (self : TRAPEZOIDAL) : list nat :=
  [fst (shape (x_sym self)); 1%nat].

Definition TRAPEZOIDAL_shape_xall (self : TRAPEZOIDAL) : list nat :=
  [fst (shape (x_sym self)); (_n_step self + 1)%nat].

(** [TRAPEZOIDAL.dxdt] *)
Definition TRAPEZOIDAL_dxdt (self : TRAPEZOIDAL) (states controls : matrix)
    (params : vec) (algebraic_states : matrix) : result (vec * matrix) :=
  let x_prev := cx_zeros (fst (shape states)) 2 in
  states_next <- col states 1 ;;
  controls_prev <- col controls 0 ;;
  controls_next <- col controls 1 ;;
  a_prev_next <-
    (if decide (shape algebraic_states <> (0%nat, 0%nat)) then
       a0 <- col algebraic_states 0 ;;
       a1 <- col algebraic_states 1 ;;
       Ok ([a0], [a1])
     else Ok (algebraic_states, algebraic_states)) ;;
  let algebraic_states_prev := fst a_prev_next in
  let algebraic_states_next := snd a_prev_next in
  states_0 <- col states 0 ;;
  let x_prev := <[0%nat := states_0]> x_prev in
  x_0 <- col x_prev 0 ;;
  x_1 <- TRAPEZOIDAL_next_x self (fst (t_span_sym self)) x_0 states_next
           [controls_prev] [controls_next] params
           algebraic_states_prev algebraic_states_next ;;
  let x_prev := <[1%nat := x_1]> x_prev in
  x_prev <-
    (if (0 <? nb_quaternions (model self))%nat then
       x_1 <- col x_prev 1 ;;
       Ok (<[1%nat := normalize_state_quaternions (model self) x_1]> x_prev)
     else Ok x_prev) ;;
  x_end <- col x_prev 1 ;;
  Ok (x_end, x_prev).

(** [TRAPEZOIDAL.__init__]: [ode_opt["number_of_finite_elements"]] is not
    read. *)
Definition TRAPEZOIDAL_init (ode : Ode.t matrix) (ode_opt : OdeOpt.t)
  : result (built TRAPEZOIDAL (vec * matrix)) :=
  let self := {| super := Integrator_attributes ode ode_opt;
                 _n_step := 1 |} in
  outputs <- TRAPEZOIDAL_dxdt self (x_sym self) (u_sym self)
               (param_sym self) (a_sym self) ;;
  Ok {| object := self; function := outputs |}.

(** ** class COLLOCATION *)

Record COLLOCATION := {
  COLLOCATION_super :> Integrator (list vec);
  method : string;
  degree : nat;
  _c : list (list R);   (* the rows of the (degree+1) x (degree+1) table *)
  _d : list R
}.

(** [v[i]] and [m[i, j]] on CasADi tables. *)
Definition entry (v : list R) (i : nat) : result R :=
  match v !! i with
  | Some c => Ok c
  | None => Raise CasadiError
  end.

Definition entry2 (m : list (list R)) (i j : nat) : result R :=
  match m !! i with
  | Some row => entry row j
  | None => Raise CasadiError
  end.

(** [m[i, j] = c]; [_initialize] only writes inside the table. *)
Definition set_entry2 (m : list (list R)) (i j : nat) (c : R)
  : list (list R) :=
  match m !! i with
  | Some row => <[i := <[j := c]> row]> m
  | None => m
  end.

(** A value and its derivative with respect to [time_control_interval]:
    what [Function(..., [_l])] and [Function(..., [tangent(_l, ...)])]
    evaluate to at a point. *)
Definition dual := (R * R)%type.

Definition dual_mul (p q : dual) : dual :=
  (fst p * fst q, snd p * fst q + fst p * snd q).

(** [(time_control_interval - t_r) / den] at the point [tau]. *)
Definition lagrange_factor (tau t_r den : R) : dual :=
  ((tau - t_r) / den, 1 / den).

(** The accumulator [xp_j] of [COLLOCATION.dxdt]: the Python number it
    starts from, or a CasADi column. *)
Inductive number_or_column :=
| Number (c : R)
| Column (v : vec).

(** [acc += v], [acc - v] and [acc / h]; a number is broadcast. *)
Definition iadd (acc : number_or_column) (v : vec) : number_or_column :=
  match acc with
  | Number c => Column (map (fun r => c + r) v)
  | Column w => Column (w +v v)
  end.

Definition minus (acc : number_or_column) (v : vec) : vec :=
  match acc with
  | Number c => map (fun r => c - r) v
  | Column w => w -v v
  end.

Definition over (acc : number_or_column) (h : R) : vec :=
  match acc with
  | Number c => [c / h]
  | Column w => w v/ h
  end.

(** [horzcat] and [vertcat] of a Python list of columns. *)
Definition horzcat (l : list vec) : matrix := l.
Definition vertcat (l : list vec) : vec := concat l.

Section CasADi.

(** CasADi's [collocation_points(degree, method)], which may raise. *)
Variable collocation_points : nat -> string -> result (list R).

(** The property [COLLOCATION._integration_time] for the given degree
    and method, and one of its elements. *)
Definition integration_time (degree : nat) (method : string)
  : result (list R) :=
  points <- collocation_points degree method ;;
  Ok (0 :: points).

Definition integration_time_at (degree : nat) (method : string) (r : nat)
  : result R :=
  times <- integration_time degree method ;;
  py_index times r.

Definition COLLOCATION_integration_time (self : COLLOCATION)
  : result (list R) :=
  integration_time (degree self) (method self).

(** The Lagrange polynomial [_l] of node [j], as the function of
    [time_control_interval] that gives its value and its derivative. *)
Definition lagrange (degree : nat) (method : string) (j : nat)
  : result (R -> dual) :=
  for_each (range 0 (degree + 1)) (fun _ : R => (1, 0))
    (fun r _l =>
       if negb (r =? j)%nat then
         t_r <- integration_time_at degree method r ;;
         t_j <- integration_time_at degree method j ;;
         t_r' <- integration_time_at degree method r ;;
         Ok (fun tau =>
               dual_mul (_l tau) (lagrange_factor tau t_r (t_j - t_r')))
       else Ok _l).

(** One turn of the outer loop of [COLLOCATION._initialize]. *)
Definition initialize_body (degree : nat) (method : string) (j : nat)
    (cd : list (list R) * list R) : result (list (list R) * list R) :=
  let _c := fst cd in
  let _d := snd cd in
  _l <- lagrange degree method j ;;
  let _d :=
    if String.eqb method "radau" then
      <[j := if (j =? degree)%nat then 1 else 0]> _d
    else <[j := fst (_l 1)]> _d in
  _l <- lagrange degree method j ;;
  _c <- for_each (range 0 (degree + 1)) _c
          (fun r _c =>
             t_r <- integration_time_at degree method r ;;
             Ok (set_entry2 _c j r (snd (_l t_r)))) ;;
  Ok (_c, _d).

(** [COLLOCATION._initialize] *)
Definition COLLOCATION_initialize (self : Integrator (list vec))
    (ode_opt : OdeOpt.t) : result COLLOCATION :=
  let method := OdeOpt.method ode_opt in
  let degree := OdeOpt.irk_polynomial_interpolation_degree ode_opt in
  let _c := replicate (degree + 1) (replicate (degree + 1) 0) in
  let _d := replicate (degree + 1) 0 in
  cd <- for_each (range 0 (degree + 1)) (_c, _d)
          (initialize_body degree method) ;;
  Ok {| COLLOCATION_super := self;
        method := method;
        degree := degree;
        _c := fst cd;
        _d := snd cd |}.

(** [COLLOCATION._x_sym_modified] *)
Definition COLLOCATION_x_sym_modified (self : COLLOCATION) : matrix :=
  if duplicate_starting_point self then horzcat (x_sym self)
  else horzcat (drop 1 (x_sym self)).

Definition COLLOCATION_h (self : COLLOCATION) : R := snd (t_span_sym self).

Definition COLLOCATION_shape_xf (self : COLLOCATION) : list nat :=
  [fst (shape (COLLOCATION_x_sym_modified self)); (degree self + 1)%nat].

Definition COLLOCATION_shape_xall (self : COLLOCATION) : list nat :=
  [fst (shape (COLLOCATION_x_sym_modified self)); (degree self + 2)%nat].

(** [COLLOCATION.get_u].  As for [Integrator.get_u], the message keeps
    the constant part of the one the source builds. *)
Definition COLLOCATION_get_u (self : COLLOCATION) (u : matrix) (t : R)
  : result matrix :=
  match control_type self with
  | CONSTANT | CONSTANT_WITH_LAST_NODE => get_u self u t
  | _ => Raise (NotImplementedError
                  "ControlType not implemented yet with COLLOCATION")
  end.

(** The inner loop of [COLLOCATION.dxdt]: the slope [xp_j] of the
    polynomial at node [j]. *)
Definition COLLOCATION_xp (self : COLLOCATION) (states : list vec)
    (j : nat) : result number_or_column :=
  for_each (range 0 (degree self + 2)) (Number 0)
    (fun r xp_j =>
       if (r =? 1)%nat then Ok xp_j
       else
         c_rj <- entry2 (_c self)
                   (if (0 <? r)%nat then (r - 1)%nat else r) j ;;
         states_r <- py_index states r ;;
         Ok (iadd xp_j (c_rj *v states_r))).

(** One turn of the outer loop of [COLLOCATION.dxdt]. *)
Definition COLLOCATION_dxdt_body (self : COLLOCATION) (states : list vec)
    (controls : matrix) (params : vec) (algebraic_states : matrix)
    (j : nat) (acc : vec * list vec) : result (vec * list vec) :=
  let states_end := fst acc in
  let defects := snd acc in
  let h := COLLOCATION_h self in
  t_j <- integration_time_at (degree self) (method self) j ;;
  let t := [fst (t_span_sym self) + t_j * h; h] in
  xp_j <- COLLOCATION_xp self states j ;;
  defects <-
    match defects_type self with
    | EXPLICIT =>
        states_j <- py_index states (j + 1) ;;
        t_j' <- integration_time_at (degree self) (method self) j ;;
        u_j <- COLLOCATION_get_u self controls t_j' ;;
        f_j <- fun_col self t states_j u_j params algebraic_states ;;
        Ok (defects ++ [minus xp_j (f_j v* h)])
    | IMPLICIT =>
        states_j <- py_index states (j + 1) ;;
        t_j' <- integration_time_at (degree self) (method self) j ;;
        u_j <- COLLOCATION_get_u self controls t_j' ;;
        Ok (defects ++ [implicit_fun self t states_j u_j params
                          algebraic_states (over xp_j h)])
    | NOT_APPLICABLE =>
        Raise (ValueError "Unknown defects type. Please use 'explicit' or 'implicit'")
    end ;;
  d_j <- entry (_d self) j ;;
  states_j <- py_index states (j + 1) ;;
  Ok (states_end +v d_j *v states_j, defects).

(** [COLLOCATION.dxdt] *)
Definition COLLOCATION_dxdt (self : COLLOCATION) (states : list vec)
    (controls : matrix) (params : vec) (algebraic_states : matrix)
  : result (vec * matrix * vec) :=
  d_0 <- entry (_d self) 0 ;;
  states_1 <- py_index states 1 ;;
  let states_end := d_0 *v states_1 in
  let defects := [] in
  acc <- for_each (range 1 (degree self + 1)) (states_end, defects)
           (COLLOCATION_dxdt_body self states controls params
              algebraic_states) ;;
  let states_end := fst acc in
  let defects := vertcat (snd acc) in
  let collocation_states :=
    if duplicate_starting_point self then horzcat states
    else horzcat (drop 1 states) in
  Ok (states_end, collocation_states, defects).

(** [Integrator.__init__] for the class [COLLOCATION]. *)
Definition COLLOCATION_init (ode : Ode.t (list vec)) (ode_opt : OdeOpt.t)
  : result (built COLLOCATION (vec * matrix * vec)) :=
  self <- COLLOCATION_initialize (Integrator_attributes ode ode_opt)
            ode_opt ;;
  outputs <- COLLOCATION_dxdt self (x_sym self) (u_sym self)
               (param_sym self) (a_sym self) ;;
  Ok {| object := self; function := outputs |}.

(** ** class IRK *)

(** The options dictionary given to CasADi's [rootfinder]. *)
Record rootfinder_options := {
  error_on_fail : bool
}.

(** A CasADi function of the six inputs
    (unknowns or guess, time span, start state, controls, parameters,
    algebraic states). *)
Definition function6 :=
  vec -> R * R -> vec -> matrix -> vec -> matrix -> vec.

(** CasADi's [rootfinder(name, solver, f, options)]: the function that
    returns, for the given inputs, the unknowns the solver ends on. *)
Variable rootfinder :
  string -> string -> function6 -> rootfinder_options -> function6.

(** An object of class [IRK] has the attributes of a [COLLOCATION]. *)
Definition IRK := COLLOCATION.

Definition IRK_x_sym_modified (self : IRK) : result vec :=
  py_index (x_sym self) 0.

Definition IRK_shape_xf (self : IRK) : result (list nat) :=
  x0 <- IRK_x_sym_modified self ;;
  Ok [length x0; 1%nat].

Definition IRK_shape_xall (self : IRK) : result (list nat) :=
  x0 <- IRK_x_sym_modified self ;;
  Ok [length x0; 2%nat].

(** [v[a:b]] on a CasADi column. *)
Definition slice (v : vec) (a b : nat) : result vec :=
  if (b <=? length v)%nat then Ok (take (b - a) (drop a v))
  else Raise CasadiError.

(** The columns of which [z] is the [vertcat], given columns of the same
    lengths. *)
Fixpoint split_like (like : list vec) (z : vec) : list vec :=
  match like with
  | [] => []
  | c :: like' => take (length c) z :: split_like like' (drop (length c) z)
  end.

Definition with_t_span (self : COLLOCATION) (t : R * R) : COLLOCATION :=
  {| COLLOCATION_super :=
       {| model := model self; ode_idx := ode_idx self; cx := cx self;
          t_span_sym := t;
          x_sym := x_sym self; u_sym := u_sym self;
          param_sym := param_sym self; a_sym := a_sym self;
          fun_ := fun_ self; implicit_fun := implicit_fun self;
          defects_type := defects_type self;
          control_type := control_type self;
          duplicate_starting_point := duplicate_starting_point self |};
     method := method self; degree := degree self;
     _c := _c self; _d := _d self |}.

(** [Function("vfcn", [collocation_states, t_span_sym, states[0],
    controls, params, algebraic_states], [defect])]: the defects of
    [COLLOCATION.dxdt] as a function of the values given to these
    symbols; the states of which [collocation_states] is made are the
    pieces of the first input. *)
Definition vfcn (self : IRK) (states : list vec) : function6 :=
  fun z t x0 u p a =>
    let states' :=
      if duplicate_starting_point self then
        x0 :: split_like (drop 1 states) z
      else x0 :: take 1 (drop 1 states) ++ split_like (drop 2 states) z in
    match COLLOCATION_dxdt (with_t_span self t) states' u p a with
    | Ok out => snd out
    | Raise _ => []
    end.

(** One turn of the last loop of [IRK.dxdt]; column [r - 1] is the last
    column when [r] is 0. *)
Definition IRK_dxdt_body (self : IRK) (x : list vec) (r : nat)
    (xf : matrix) : result matrix :=
  xf_prev <- col xf (if (r =? 0)%nat then (length xf - 1)%nat
                     else (r - 1)%nat) ;;
  d_r <- entry (_d self) r ;;
  x_r <- py_index x r ;;
  Ok (<[r := xf_prev +v d_r *v x_r]> xf).

(** [IRK.dxdt] *)
Definition IRK_dxdt (self : IRK) (states : list vec) (controls : matrix)
    (params : vec) (algebraic_states : matrix) : result (vec * matrix) :=
  states_0 <- py_index states 0 ;;
  let nx := length states_0 in
  out <- COLLOCATION_dxdt self states controls params algebraic_states ;;
  let ifcn := rootfinder "ifcn" "newton" (vfcn self states)
                {| error_on_fail := false |} in
  let t := t_span_sym self in
  let x_irk_points :=
    ifcn [] t states_0 controls params algebraic_states in
  x <- for_each (range 0 (degree self + 1)) []
         (fun r x =>
            if (r =? 0)%nat then Ok (x ++ [states_0])
            else
              x_r <- slice x_irk_points ((r - 1) * nx) (r * nx) ;;
              Ok (x ++ [x_r])) ;;
  let xf := cx_zeros nx (degree self + 1) in
  xf <- for_each (range 0 (degree self + 1)) xf (IRK_dxdt_body self x) ;;
  xf_last <- col_last xf ;;
  Ok (xf_last, horzcat [states_0; xf_last]).

(** [Integrator.__init__] for the class [IRK]. *)
Definition IRK_init (ode : Ode.t (list vec)) (ode_opt : OdeOpt.t)
  : result (built IRK (vec * matrix)) :=
  self <- COLLOCATION_initialize (Integrator_attributes ode ode_opt)
            ode_opt ;;
  _ <- IRK_x_sym_modified self ;;
  outputs <- IRK_dxdt self (x_sym self) (u_sym self) (param_sym self)
               (a_sym self) ;;
  Ok {| object := self; function := outputs |}.

End CasADi.

(** ** Notions the statements use *)

(** What [RK.dxdt] does to a column after [next_x] computed it. *)
Definition RK_renormalize (self : RK) (y : vec) : vec :=
  if (0 <? nb_quaternions (model self))%nat
  then normalize_state_quaternions (model self) y
  else y.

(** The time at which sub-step [i] starts. *)
Definition RK_step_time (self : RK) (i : nat) : R :=
  fst (t_span_sym self) + RK_integration_time self * INR (i - 1).

Definition RK_inv (self : RK) (states : vec) (u : matrix) (p : vec)
    (a : matrix) (k : nat) (x : matrix) : Prop :=
  length x = (_n_step self + 1)%nat /\
  x !! 0%nat = Some states /\
  forall i, (1 <= i < k)%nat ->
    exists x_prev y,
      x !! (i - 1)%nat = Some x_prev /\
      RK_next_x self (RK_step_time self i) x_prev u p a = Ok y /\
      x !! i = Some (RK_renormalize self y).

(** The classical four-stage step as the specification words it: the
    slopes [k1 .. k4] are taken at [t0], [t0 + h/2], [t0 + h/2] and
    [t0 + h], and the state advances by [h/6 (k1 + 2 k2 + 2 k3 + k4)]. *)
Definition butcher_rk4 (f : R -> vec -> result vec) (h t0 : R) (x : vec)
  : result vec :=
  k1 <- f t0 x ;;
  k2 <- f (t0 + h / 2) (x +v h / 2 *v k1) ;;
  k3 <- f (t0 + h / 2) (x +v h / 2 *v k2) ;;
  k4 <- f (t0 + h) (x +v h *v k3) ;;
  Ok (x +v h / 6 *v (k1 +v 2 *v k2 +v 2 *v k3 +v k4)).

(** The slope a Runge-Kutta stage reads at time [t] and state [x]: the
    dynamics with the control that [get_u] gives for [t]. *)
Definition RK_stage (self : RK) (u : matrix) (p : vec) (a : matrix)
    (h t : R) (x : vec) : result vec :=
  u_t <- get_u self u t ;;
  fun_col self [t; h] x u_t p a.

(** The control policies [get_u] answers with [u]. *)
Definition constant_control (c : ControlType) : Prop :=
  c = CONSTANT \/ c = CONSTANT_WITH_LAST_NODE.

(** The dynamics function has the column the integrator reads. *)
Definition has_ode_column {X} (self : Integrator X) : Prop :=
  forall (t x : vec) (u : matrix) (p : vec) (a : matrix),
    (ode_idx self < length (fun_ self t x u p a))%nat.

(** What [TRAPEZOIDAL.dxdt] does to the end state [next_x] computed. *)
Definition TRAPEZOIDAL_renormalize (self : TRAPEZOIDAL) (y : vec) : vec :=
  if (0 <? nb_quaternions (model self))%nat
  then normalize_state_quaternions (model self) y
  else y.

(** The trapezoidal rule as the specification words it:
    [x_start + duration/2 (dx_start + dx_end)]. *)
Definition trapezoidal_rule (x_start : vec) (duration : R)
    (dx_start dx_end : vec) : vec :=
  x_start +v duration / 2 *v (dx_start +v dx_end).

(** ** Examples *)

(** A model without quaternion. *)
Definition no_quaternion : BioModel :=
  {| nb_quaternions := 0; normalize_state_quaternions := fun q => q |}.

(** A model whose state is one quaternion, renormalized by dividing it by
    its norm. *)
Definition norm (q : vec) : R := sqrt (foldr (fun r s => r * r + s) 0 q).

Definition one_quaternion : BioModel :=
  {| nb_quaternions := 1;
     normalize_state_quaternions := fun q => q v/ norm q |}.

(** The dynamics [dx/dt = -x] and [dx/dt = 0], and the implicit form of the
    first. *)
Definition decay : dynamics := fun t x u p a => [-1 *v x].
Definition still : dynamics := fun t x u p a => [0 *v x].
Definition decay_defects : implicit_dynamics :=
  fun t x u p a dx => dx -v -1 *v x.

Definition example_ode {X} (f : dynamics) (x : X) (u : matrix) : Ode.t X :=
  {| Ode.t_span := (0, 1); Ode.x := x; Ode.u := u; Ode.param := [];
     Ode.a := []; Ode.ode := f; Ode.implicit_ode := decay_defects |}.

Definition example_opt (m : BioModel) (c : ControlType) (dup : bool)
    (n_elements degree : nat) : OdeOpt.t :=
  {| OdeOpt.model := m; OdeOpt.ode_index := 0; OdeOpt.cx := MX;
     OdeOpt.defects_type := EXPLICIT; OdeOpt.control_type := c;
     OdeOpt.duplicate_starting_point := dup;
     OdeOpt.number_of_finite_elements := n_elements;
     OdeOpt.method := "radau";
     OdeOpt.irk_polynomial_interpolation_degree := degree |}.

(** A Runge-Kutta object of class [c] with two finite elements, for the
    model [m] and a state of four components. *)
Definition example_RK (c : RK_class) (m : BioModel) : RK :=
  {| RK_class_of := c;
     RK_super :=
       {| super := Integrator_attributes
                     (example_ode decay [1; 0; 0; 0] [[0]])
                     (example_opt m CONSTANT false 2 1);
          _n_step := 2 |} |}.

(** The options [ode_opt] with another value under
    ["number_of_finite_elements"]. *)
Definition with_number_of_finite_elements (ode_opt : OdeOpt.t) (n : nat)
  : OdeOpt.t :=
  {| OdeOpt.model := OdeOpt.model ode_opt;
     OdeOpt.ode_index := OdeOpt.ode_index ode_opt;
     OdeOpt.cx := OdeOpt.cx ode_opt;
     OdeOpt.defects_type := OdeOpt.defects_type ode_opt;
     OdeOpt.control_type := OdeOpt.control_type ode_opt;
     OdeOpt.duplicate_starting_point :=
       OdeOpt.duplicate_starting_point ode_opt;
     OdeOpt.number_of_finite_elements := n;
     OdeOpt.method := OdeOpt.method ode_opt;
     OdeOpt.irk_polynomial_interpolation_degree :=
       OdeOpt.irk_polynomial_interpolation_degree ode_opt |}.

(** The description of a trapezoidal interval: a state of four components
    at rest, given at both ends, and one control at each end. *)
Definition example_TRAPEZOIDAL_ode : Ode.t matrix :=
  example_ode still [[2; 0; 0; 0]; [2; 0; 0; 0]] [[0]; [0]].

Definition example_TRAPEZOIDAL (m : BioModel) : TRAPEZOIDAL :=
  {| super := Integrator_attributes example_TRAPEZOIDAL_ode
                (example_opt m CONSTANT false 5 1);
     _n_step := 1 |}.

(** The sum of the node states weighted by the coefficients, as columns of
    [n] components. *)
Definition weighted_sum (n : nat) (weights : list R) (nodes : list vec)
  : vec :=
  fold_left vadd (zip_with vscale weights nodes) (replicate n 0).

(** The points CasADi gives for the Radau family up to degree 3.  (CasADi
    serves the degrees 1 to 9; what the examples do not ask for is refused
    here, as CasADi refuses the degree 0 and an unknown method.) *)
Definition radau_points (degree : nat) (method : string)
  : result (list R) :=
  if String.eqb method "radau" then
    match degree with
    | 1%nat => Ok [1]
    | 2%nat => Ok [1 / 3; 1]
    | 3%nat => Ok [(4 - sqrt 6) / 10; (4 + sqrt 6) / 10; 1]
    | _ => Raise CasadiError
    end
  else Raise CasadiError.

(** The description of a collocation interval of degree [degree]: the start
    state, its copy and one state per collocation point, of four
    components each. *)
Definition example_COLLOCATION_ode (degree : nat) : Ode.t (list vec) :=
  example_ode decay (replicate (degree + 2) [1; 0; 0; 0]) [[0]].

(** CasADi gives [degree] points for the degree and method asked. *)
Definition supplies_points
    (collocation_points : nat -> string -> result (list R))
    (degree : nat) (method : string) : Prop :=
  exists points,
    collocation_points degree method = Ok points /\ length points = degree.

(** The tables [_c] and [_d] have the sizes [_initialize] gives them. *)
Definition well_formed_tables (self : COLLOCATION) : Prop :=
  length (_d self) = (degree self + 1)%nat /\
  length (_c self) = (degree self + 1)%nat /\
  Forall (fun row => length row = (degree self + 1)%nat) (_c self).

(** The turn of the inner loop of [COLLOCATION.dxdt] for [r >= 2]. *)
Definition COLLOCATION_xp_body (self : COLLOCATION) (states : list vec)
    (j r : nat) (xp_j : number_or_column) : result number_or_column :=
  c_rj <- entry2 (_c self) (r - 1) j ;;
  states_r <- py_index states r ;;
  Ok (iadd xp_j (c_rj *v states_r)).

(** The message of the exception [COLLOCATION.get_u] raises. *)
Definition not_with_COLLOCATION : exception :=
  NotImplementedError "ControlType not implemented yet with COLLOCATION".

(** The defect of node [j] in the explicit mode, as [COLLOCATION.dxdt]
    computes it from the table [_c] the object holds: the sum of the node
    states weighted by column [j] of [_c], minus the duration times the
    dynamics at the time, state and control of node [j]. *)
Definition explicit_defect_at
    (collocation_points : nat -> string -> result (list R))
    (self : COLLOCATION) (states : list vec) (controls : matrix)
    (params : vec) (algebraic_states : matrix) (n j : nat) (defect : vec)
  : Prop :=
  exists (t_j : R) (x_j : vec) (u_j : matrix) (f_j : vec)
         (weights : list R) (nodes : list vec),
    integration_time_at collocation_points (degree self) (method self) j
    = Ok t_j /\
    py_index states (j + 1) = Ok x_j /\
    COLLOCATION_get_u self controls t_j = Ok u_j /\
    fun_col self
      [fst (t_span_sym self) + t_j * snd (t_span_sym self);
       snd (t_span_sym self)]
      x_j u_j params algebraic_states = Ok f_j /\
    Forall2 (fun k w => entry2 (_c self) k j = Ok w)
      (seq 0 (degree self + 1)) weights /\
    Forall2 (fun r s => py_index states r = Ok s)
      (0%nat :: seq 2 (degree self)) nodes /\
    defect = weighted_sum n weights nodes -v snd (t_span_sym self) *v f_j.

(** For a state of [n] components, the dynamics function returns a slope
    of [n] components. *)
Definition dynamics_dimension {X} (self : Integrator X) (n : nat) : Prop :=
  forall (t x : vec) (u : matrix) (p : vec) (a : matrix) (c : vec),
    length x = n -> fun_col self t x u p a = Ok c -> length c = n.

(** The defects appended before turn [k] of the loop of [COLLOCATION.dxdt]
    in the explicit mode. *)
Definition defects_inv
    (collocation_points : nat -> string -> result (list R))
    (self : COLLOCATION) (states : list vec)
    (controls : matrix) (params : vec) (algebraic_states : matrix)
    (n k : nat) (acc : vec * list vec) : Prop :=
  length (snd acc) = (k - 1)%nat /\
  forall j, (1 <= j < k)%nat ->
    exists defect,
      snd acc !! (j - 1)%nat = Some defect /\
      length defect = n /\
      explicit_defect_at collocation_points self states controls params
        algebraic_states n j defect.

(** A [COLLOCATION] object of degree 1 on the Radau point 1: the Lagrange
    polynomials on the nodes 0 and 1 are [1 - t] and [t], of slopes -1
    and 1. *)
Definition example_COLLOCATION (c : ControlType) : COLLOCATION :=
  {| COLLOCATION_super :=
       Integrator_attributes (example_COLLOCATION_ode 1)
         (example_opt no_quaternion c false 1 1);
     method := "radau";
     degree := 1;
     _c := [[-1; -1]; [1; 1]];
     _d := [0; 1] |}.

(** A Runge-Kutta object with five finite elements and a state of four
    components. *)
Definition example_RK5 : RK :=
  {| RK_class_of := RK4;
     RK_super :=
       {| super := Integrator_attributes
                     (example_ode decay [1; 0; 0; 0] [[0]])
                     (example_opt no_quaternion CONSTANT false 5 1);
          _n_step := 5 |} |}.

(** A root-finder that returns its guess, to stand for CasADi's. *)
Definition no_solver (name solver : string) (f : function6)
    (options : rootfinder_options) : function6 :=
  fun guess t x0 u p a => guess.

(** ** Dynamics and objects to read the schemes on *)

(** The linear dynamics [dx/dt = lam x] and the dynamics [dx/dt = t], which
    reads the time from the first entry of what [vertcat(t, h)] gives. *)
Definition linear (lam : R) : dynamics := fun t x u p a => [lam *v x].
Definition clock : dynamics := fun t x u p a => [map (fun _ => hd 0 t) x].

(** What one step of each Runge-Kutta class, as coded, multiplies the state
    by on the dynamics [linear lam], as a function of [z = lam h]. *)
Definition amplification (c : RK_class) (z : R) : R :=
  match c with
  | RK1 => 1 + z
  | RK2 => 1 + z + z ^ 2 / 2
  | RK4 => 1 + z + z ^ 2 / 2 + z ^ 3 / 6 + z ^ 4 / 24
  | RK8 =>
      1 + z + z ^ 2 / 2 + z ^ 3 / 6 + 1397 / 33600 * z ^ 4 + z ^ 5 / 120
      + z ^ 6 / 720 + z ^ 7 / 5040 + z ^ 8 / 40320 + z ^ 9 / 2177280
      + z ^ 10 / 2177280
  end.

(** What one step of each class, as coded, adds to the state on the
    dynamics [clock], from time [t0] with the step [h]. *)
Definition clock_increment (c : RK_class) (t0 h : R) : R :=
  match c with
  | RK1 => h * t0
  | RK2 => h * t0 + h ^ 2 / 2
  | RK4 => h * t0 + h ^ 2 / 2
  | RK8 => h * t0 + 47 / 1050 * h ^ 2
  end.

(** A Runge-Kutta object of class [c] with [n] finite elements on the
    interval from 0 to 1, for the dynamics [f], the control policy [policy]
    and a model without quaternion. *)
Definition example_RK_with (c : RK_class) (f : dynamics)
    (policy : ControlType) (n : nat) : RK :=
  {| RK_class_of := c;
     RK_super :=
       {| super := Integrator_attributes (example_ode f [1; 0; 0; 0] [[0]])
                     (example_opt no_quaternion policy false n 1);
          _n_step := n |} |}.

(** The continuity weight the Radau branch of [_initialize] writes at
    index [j]: 1 at the last node, 0 elsewhere. *)
Definition last_node_weight (degree j : nat) : R :=
  if (j =? degree)%nat then 1 else 0.

(** The value at [tau] of the Lagrange polynomial of node [j] on the node
    times [times]: the product, over the nodes [r] of [indices] other than
    [j], of [(tau - t_r) / (t_j - t_r)]. *)
Definition lagrange_value (times : list R) (j : nat) (tau : R)
    (indices : list nat) : R :=
  foldr (fun r acc =>
           if (r =? j)%nat then acc
           else acc * ((tau - nth r times 0)
                       / (nth j times 0 - nth r times 0)))
    1 indices.

(** Options for the implicit defects with the given method and degree. *)
Definition example_opt_method (method : string) (degree : nat) : OdeOpt.t :=
  {| OdeOpt.model := no_quaternion; OdeOpt.ode_index := 0;
     OdeOpt.cx := SX; OdeOpt.defects_type := IMPLICIT;
     OdeOpt.control_type := CONSTANT;
     OdeOpt.duplicate_starting_point := true;
     OdeOpt.number_of_finite_elements := 1;
     OdeOpt.method := method;
     OdeOpt.irk_polynomial_interpolation_degree := degree |}.

(** The exception [COLLOCATION.dxdt] raises on a defects type that is
    neither explicit nor implicit. *)
Definition unknown_defects_type : exception :=
  ValueError "Unknown defects type. Please use 'explicit' or 'implicit'".

(** Radau options with the defects type [d] and the control policy [c]. *)
Definition example_opt_defects (d : DefectType) (c : ControlType)
    (degree : nat) : OdeOpt.t :=
  {| OdeOpt.model := no_quaternion; OdeOpt.ode_index := 0;
     OdeOpt.cx := MX; OdeOpt.defects_type := d;
     OdeOpt.control_type := c;
     OdeOpt.duplicate_starting_point := false;
     OdeOpt.number_of_finite_elements := 1;
     OdeOpt.method := "radau";
     OdeOpt.irk_polynomial_interpolation_degree := degree |}.

(** The defect of node [j] in the implicit mode: the implicit dynamics at
    the time, state and control of node [j] and at the slope of the
    polynomial there, the sum of the node states weighted by column [j] of
    [_c], divided by the duration. *)
Definition implicit_defect_at
    (collocation_points : nat -> string -> result (list R))
    (self : COLLOCATION) (states : list vec) (controls : matrix)
    (params : vec) (algebraic_states : matrix) (n j : nat) (defect : vec)
  : Prop :=
  exists (t_j : R) (x_j : vec) (u_j : matrix)
         (weights : list R) (nodes : list vec),
    integration_time_at collocation_points (degree self) (method self) j
    = Ok t_j /\
    py_index states (j + 1) = Ok x_j /\
    COLLOCATION_get_u self controls t_j = Ok u_j /\
    Forall2 (fun k w => entry2 (_c self) k j = Ok w)
      (seq 0 (degree self + 1)) weights /\
    Forall2 (fun r s => py_index states r = Ok s)
      (0%nat :: seq 2 (degree self)) nodes /\
    defect
    = implicit_fun self
        [fst (t_span_sym self) + t_j * snd (t_span_sym self);
         snd (t_span_sym self)]
        x_j u_j params algebraic_states
        (weighted_sum n weights nodes v/ snd (t_span_sym self)).

(** The object [example_COLLOCATION] with the defects type [d]. *)
Definition example_COLLOCATION_defects (d : DefectType) : COLLOCATION :=
  {| COLLOCATION_super :=
       Integrator_attributes (example_COLLOCATION_ode 1)
         (example_opt_defects d CONSTANT 1);
     method := "radau";
     degree := 1;
     _c := [[-1; -1]; [1; 1]];
     _d := [0; 1] |}.

(** ** Notions for [IRK.dxdt] *)

Section IRKNotions.

Variable collocation_points : nat -> string -> result (list R).

Variable rootfinder :
  string -> string -> function6 -> rootfinder_options -> function6.

(** [x_irk_points]: what the root-finder built in [IRK.dxdt] returns for the
    symbols of the object. *)
Definition IRK_x_irk_points (self : IRK) (states : list vec)
    (states_0 : vec) (controls : matrix) (params : vec)
    (algebraic_states : matrix) : vec :=
  rootfinder "ifcn" "newton" (vfcn collocation_points self states)
    {| error_on_fail := false |}
    [] (t_span_sym self) states_0 controls params algebraic_states.

End IRKNotions.

(** Element [r] of the list [x] of [IRK.dxdt]: the start state for [r = 0],
    block [r - 1] of [z], of the size of the start state, otherwise. *)
Definition IRK_node (z states_0 : vec) (r : nat) (x_r : vec) : Prop :=
  if (r =? 0)%nat then x_r = states_0
  else slice z ((r - 1) * length states_0) (r * length states_0) = Ok x_r.

(** The sum of the first [k] nodes weighted by the first [k] entries of
    [_d], from a column of zeros. *)
Definition IRK_partial_sum (n : nat) (d : list R) (x : list vec) (k : nat)
  : vec :=
  weighted_sum n (take k d) (take k x).

(** A root-finder that returns three copies of the start state: the
    solution on which every collocation point keeps the start state. *)
Definition constant_solver (name solver : string) (f : function6)
    (options : rootfinder_options) : function6 :=
  fun guess t x0 u p a => x0 ++ x0 ++ x0.

(** ** The time grids and the abstract class *)

Section TimeGrids.

Variable collocation_points : nat -> string -> result (list R).

(** [COLLOCATION._time_xall_from_dt_func], as the function of the value
    given to [t_span_sym]: the list [_integration_time + [1]] times the
    duration, plus the start time. *)
Definition COLLOCATION_time_xall_from_dt_func (self : COLLOCATION)
  : result (R * R -> vec) :=
  times <- COLLOCATION_integration_time collocation_points self ;;
  Ok (fun t_span =>
        map (fun c => fst t_span + c) ((times ++ [1]) v* snd t_span)).

End TimeGrids.

(** [IRK._time_xall_from_dt_func] *)
Definition IRK_time_xall_from_dt_func (self : IRK) : R * R -> vec :=
  fun t_span => [fst t_span; fst t_span + snd t_span].

(** What the class [Integrator] itself defines, as a class that overrides
    nothing inherits it: [_initialize] passes, the property
    [_time_xall_from_dt_func] and the method [dxdt] raise. *)
Definition not_implemented : exception :=
  NotImplementedError
    "This method should be implemented for a given integrator".

Definition is_abstract : exception :=
  RuntimeError "Integrator is abstract, please specify a proper one".

Definition Integrator_initialize {X} (self : Integrator X) : result unit :=
  Ok tt.

Definition Integrator_time_xall_from_dt_func {X} (self : Integrator X)
  : result (R * R -> vec) :=
  Raise not_implemented.

Definition Integrator_dxdt {X} (self : Integrator X) (states : X)
    (controls : matrix) (params : vec) (algebraic_states : matrix)
  : result (vec * matrix) :=
  Raise is_abstract.

(** [Integrator.__init__] for the class [CVODES], which has no member of
    its own: the attributes, [_initialize], the time grid, then the graph
    of [dxdt]. *)
Definition CVODES := Integrator vec.

Definition CVODES_init (ode : Ode.t vec) (ode_opt : OdeOpt.t)
  : result (built CVODES (vec * matrix)) :=
  let self := Integrator_attributes ode ode_opt in
  _ <- Integrator_initialize self ;;
  step_times_from_dt <- Integrator_time_xall_from_dt_func self ;;
  outputs <- Integrator_dxdt self (x_sym self) (u_sym self)
               (param_sym self) (a_sym self) ;;
  Ok {| object := self; function := outputs |}.

(** A trapezoidal object on the interval from 0 to 1 for the dynamics
    [dx/dt = lam x] and a model without quaternion. *)
Definition example_TRAPEZOIDAL_linear (lam : R) : TRAPEZOIDAL :=
  {| super := Integrator_attributes
                (example_ode (linear lam)
                   [[3; 0; 0; 0]; [1; 0; 0; 0]] [[0]; [0]])
                (example_opt no_quaternion CONSTANT false 1 1);
     _n_step := 1 |}.

(** What the trapezoidal rule multiplies the state by on the dynamics
    [dx/dt = lam x], as a function of [z = lam h]. *)
Definition trapezoidal_amplification (z : R) : R := (1 + z / 2) / (1 - z / 2).

(** ** The Lagrange polynomials, as the specification names them *)

(** The Lagrange polynomial of node [k] on the node times [times]: the
    polynomial that is 1 at the time of node [k] and 0 at the times of the
    other nodes. *)
Definition lagrange_polynomial (times : list R) (k : nat) : R -> R :=
  fun tau => lagrange_value times k tau (seq 0 (length times)).

(** The defect of node [j] in the explicit mode, as the specification words
    it: the derivative, at the time of node [j], of the polynomial that
    interpolates the node states, that is the sum of the node states
    weighted by the derivatives of the Lagrange polynomials at that time,
    which are the entries of column [j] of [_c], minus the duration times
    the dynamics at the time, state and control of node [j]. *)
Definition lagrange_defect_at (self : COLLOCATION) (times : list R)
    (states : list vec) (controls : matrix) (params : vec)
    (algebraic_states : matrix) (n j : nat) (defect : vec) : Prop :=
  exists (x_j : vec) (u_j : matrix) (f_j : vec)
         (weights : list R) (nodes : list vec),
    py_index states (j + 1) = Ok x_j /\
    COLLOCATION_get_u self controls (nth j times 0) = Ok u_j /\
    fun_col self
      [fst (t_span_sym self) + nth j times 0 * snd (t_span_sym self);
       snd (t_span_sym self)]
      x_j u_j params algebraic_states = Ok f_j /\
    Forall2 (fun k w =>
               entry2 (_c self) k j = Ok w /\
               derivable_pt_lim (lagrange_polynomial times k)
                 (nth j times 0) w)
      (seq 0 (degree self + 1)) weights /\
    Forall2 (fun r s => py_index states r = Ok s)
      (0%nat :: seq 2 (degree self)) nodes /\
    defect = weighted_sum n weights nodes -v snd (t_span_sym self) *v f_j.

(** The point CasADi gives for the Legendre family at degree 1.  (CasADi
    serves both families up to degree 9; what the examples do not ask for
    is refused here.) *)
Definition legendre_points (degree : nat) (method : string)
  : result (list R) :=
  if String.eqb method "legendre" then
    match degree with
    | 1%nat => Ok [1 / 2]
    | _ => Raise CasadiError
    end
  else Raise CasadiError.

(** The description of a collocation interval of degree 2 with distinct
    node states of two components: the start state, its copy and the
    states of the two collocation points. *)
Definition example_nodes_ode : Ode.t (list vec) :=
  example_ode decay [[1; 0]; [1; 0]; [2; 1]; [3; 5]] [[0]].

(** ** The root-finder at evaluation time *)

(** Modelled from the spec: the embedded Newton root-finder either
    converges on the unknowns or stops on an iterate that is no solution;
    configured not to raise, it signals the failure through the values it
    returns being numerically invalid.  [valid] is the validity flag that
    stands for these values being numerically valid (no NaN). *)
Inductive outcome :=
| Converged (z : vec)
| Not_converged (z : vec).

Definition values (o : outcome) : vec :=
  match o with
  | Converged z | Not_converged z => z
  end.

Definition valid (o : outcome) : bool :=
  match o with
  | Converged _ => true
  | Not_converged _ => false
  end.

(** What an iteration ends on, for the function to cancel and the six
    inputs. *)
Definition iteration :=
  function6 -> vec -> R * R -> vec -> matrix -> vec -> matrix -> outcome.

(** Modelled from the spec: a call of the function that
    [rootfinder(name, solver, f, options)] returns, for the plug-ins
    [plugin] that CasADi has under each solver name: on non-convergence it
    raises when the option [error_on_fail] is set, and otherwise returns
    the values flagged invalid. *)
Definition rootfinder_call (plugin : string -> iteration)
    (name solver : string) (f : function6) (options : rootfinder_options)
    (guess : vec) (t : R * R) (x0 : vec) (u : matrix) (p : vec)
    (a : matrix) : result (vec * bool) :=
  let o := plugin solver f guess t x0 u p a in
  if negb (valid o) && error_on_fail options then Raise CasadiError
  else Ok (values o, valid o).

(** The values alone, as the parameter [rootfinder] of [IRK_dxdt] takes
    them. *)
Definition rootfinder_values (plugin : string -> iteration)
    (name solver : string) (f : function6) (options : rootfinder_options)
  : function6 :=
  fun guess t x0 u p a => values (plugin solver f guess t x0 u p a).

Section Evaluation.

Variable collocation_points : nat -> string -> result (list R).

Variable plugin : string -> iteration.

(** [IRK.dxdt] with the root-finder of the specification: the same
    statements, the call of [ifcn] being one that may raise and that
    returns the validity flag, which the outputs carry. *)
Definition IRK_dxdt_checked (self : IRK) (states : list vec)
    (controls : matrix) (params : vec) (algebraic_states : matrix)
  : result (vec * matrix * bool) :=
  states_0 <- py_index states 0 ;;
  let nx := length states_0 in
  out <- COLLOCATION_dxdt collocation_points self states controls params
           algebraic_states ;;
  let ifcn := rootfinder_call plugin "ifcn" "newton"
                (vfcn collocation_points self states)
                {| error_on_fail := false |} in
  let t := t_span_sym self in
  x_irk_points <- ifcn [] t states_0 controls params algebraic_states ;;
  x <- for_each (range 0 (degree self + 1)) []
         (fun r x =>
            if (r =? 0)%nat then Ok (x ++ [states_0])
            else
              x_r <- slice (fst x_irk_points) ((r - 1) * nx) (r * nx) ;;
              Ok (x ++ [x_r])) ;;
  let xf := cx_zeros nx (degree self + 1) in
  xf <- for_each (range 0 (degree self + 1)) xf (IRK_dxdt_body self x) ;;
  xf_last <- col_last xf ;;
  Ok (xf_last, horzcat [states_0; xf_last], snd x_irk_points).

End Evaluation.

(** An iteration that never converges and stops on the zero iterate of a
    problem of four unknowns. *)
Definition stalled (solver : string) : iteration :=
  fun f guess t x0 u p a => Not_converged [0; 0; 0; 0].

(** * Properties *)

(** ** Results and loops *)

Lemma bind_Ok {A B} (m : result A) (k : A -> result B) (b : B) :
  bind m k = Ok b -> exists a, m = Ok a /\ k a = Ok b.
Proof. destruct m as [a|e]; simpl; [eauto | discriminate]. Qed.

Lemma bind_Raise {A B} (m : result A) (k : A -> result B) (e : exception) :
  m = Raise e -> bind m k = Raise e.
Proof. intros ->. reflexivity. Qed.

Lemma bind_step {A B} (m : result A) (k : A -> result B) (a : A) :
  m = Ok a -> bind m k = k a.
Proof. intros ->. reflexivity. Qed.

Ltac inv_bind H :=
  repeat match type of H with
    | bind _ _ = Ok _ =>
        let a := fresh "v" in
        let Ha := fresh "E" in
        apply bind_Ok in H as (a & Ha & H)
    end.

Lemma col_Ok (m : matrix) (i : nat) (c : vec) :
  col m i = Ok c <-> m !! i = Some c.
Proof.
  unfold col. destruct (m !! i); split; intros H; inversion H; reflexivity.
Qed.

Lemma py_index_Ok {A} (l : list A) (i : nat) (c : A) :
  py_index l i = Ok c <-> l !! i = Some c.
Proof.
  unfold py_index. destruct (l !! i); split; intros H; inversion H; reflexivity.
Qed.

(** A loop over [range(a, a + len)] carries an invariant indexed by the
    number of the next turn. *)
Lemma for_each_seq_inv {S} (P : nat -> S -> Prop)
    (body : nat -> S -> result S) :
  forall (len a : nat) (acc res : S),
    P a acc ->
    (forall i s s', (a <= i < a + len)%nat -> P i s -> body i s = Ok s' ->
                    P (Datatypes.S i) s') ->
    for_each (seq a len) acc body = Ok res ->
    P (a + len)%nat res.
Proof.
  induction len as [|len IH]; intros a acc res Hacc Hstep Hrun; simpl in Hrun.
  - inversion Hrun; subst. now rewrite Nat.add_0_r.
  - apply bind_Ok in Hrun as (acc' & Hbody & Hrun).
    replace (a + Datatypes.S len)%nat with (Datatypes.S a + len)%nat by lia.
    apply (IH (Datatypes.S a) acc' res); [| | exact Hrun].
    + apply (Hstep a acc acc'); [lia | exact Hacc | exact Hbody].
    + intros i s s' Hi. apply Hstep. lia.
Qed.

(** A loop whose every turn succeeds succeeds. *)
Lemma for_each_seq_total {S} (P : nat -> S -> Prop)
    (body : nat -> S -> result S) :
  forall (len a : nat) (acc : S),
    P a acc ->
    (forall i s, (a <= i < a + len)%nat -> P i s ->
                 exists s', body i s = Ok s' /\ P (Datatypes.S i) s') ->
    exists res, for_each (seq a len) acc body = Ok res /\ P (a + len)%nat res.
Proof.
  induction len as [|len IH]; intros a acc Hacc Hstep; simpl.
  - exists acc. now rewrite Nat.add_0_r.
  - destruct (Hstep a acc) as (acc' & Hbody & Hacc'); [lia | exact Hacc |].
    rewrite Hbody. simpl.
    replace (a + Datatypes.S len)%nat with (Datatypes.S a + len)%nat by lia.
    apply IH; [exact Hacc' |]. intros i s Hi. apply Hstep. lia.
Qed.

(** ** The loop of [RK.dxdt] *)

Lemma RK_dxdt_body_inv (self : RK) (states : vec) (u : matrix) (p : vec)
    (a : matrix) (i : nat) (x x' : matrix) :
  (1 <= i < 1 + _n_step self)%nat ->
  RK_inv self states u p a i x ->
  RK_dxdt_body self u p a i x = Ok x' ->
  RK_inv self states u p a (S i) x'.
Proof.
  intros Hi (Hlen & H0 & Hcols) Hbody.
  unfold RK_dxdt_body in Hbody.
  apply bind_Ok in Hbody as (x_prev & Hprev & Hbody).
  apply bind_Ok in Hbody as (y & Hy & Hbody).
  apply col_Ok in Hprev. cbv zeta in Hbody.
  assert (Hx' : x' = <[i := RK_renormalize self y]> x).
  { unfold RK_renormalize.
    destruct (0 <? nb_quaternions (model self))%nat.
    - apply bind_Ok in Hbody as (x_i & Hx_i & Hbody).
      apply col_Ok in Hx_i.
      rewrite list_lookup_insert_eq in Hx_i by lia.
      inversion Hx_i; subst x_i. inversion Hbody.
      now rewrite list_insert_insert_eq.
    - now inversion Hbody. }
  subst x'. repeat split.
  - now rewrite length_insert.
  - rewrite list_lookup_insert_ne by lia. exact H0.
  - intros i' Hi'. destruct (decide (i' = i)) as [->|Hne].
    + exists x_prev, y. repeat split.
      * rewrite list_lookup_insert_ne by lia. exact Hprev.
      * exact Hy.
      * apply list_lookup_insert_eq. lia.
    + destruct (Hcols i') as (xp & y' & Hxp & Hy' & Hxi); [lia |].
      exists xp, y'. repeat split; [| exact Hy' |].
      * rewrite list_lookup_insert_ne by lia. exact Hxp.
      * rewrite list_lookup_insert_ne by lia. exact Hxi.
Qed.

(** The trajectory of [RK.dxdt]: its columns, one by one. *)
Lemma RK_dxdt_columns (self : RK) (states : vec) (u : matrix) (p : vec)
    (a : matrix) (xf : vec) (xall : matrix) :
  RK_dxdt self states u p a = Ok (xf, xall) ->
  RK_inv self states u p a (1 + _n_step self) xall /\
  xall !! _n_step self = Some xf.
Proof.
  intros H. unfold RK_dxdt in H.
  apply bind_Ok in H as (x & Hloop & H).
  apply bind_Ok in H as (x_last & Hlast & H).
  inversion H; subst x_last x; clear H.
  unfold range in Hloop.
  replace (_n_step self + 1 - 1)%nat with (_n_step self) in Hloop by lia.
  assert (Hinv : RK_inv self states u p a (1 + _n_step self) xall).
  { eapply (for_each_seq_inv (RK_inv self states u p a)); [| | exact Hloop].
    - repeat split.
      + rewrite length_insert. unfold cx_zeros. now rewrite length_replicate.
      + apply list_lookup_insert_eq. unfold cx_zeros.
        rewrite length_replicate. lia.
      + intros i Hi. lia.
    - intros i s s' Hi. now apply RK_dxdt_body_inv. }
  split; [exact Hinv |].
  destruct Hinv as (Hlen & _ & _).
  unfold col_last in Hlast. apply col_Ok in Hlast.
  now replace (length xall - 1)%nat with (_n_step self) in Hlast by lia.
Qed.

(** ** [next_x] returns when the control policy is a constant one *)

Lemma get_u_constant {X} (self : Integrator X) (u : matrix) (t : R) :
  constant_control (control_type self) -> get_u self u t = Ok u.
Proof. intros [H|H]; unfold get_u; now rewrite H. Qed.

Lemma fun_col_returns {X} (self : Integrator X) (t x : vec) (u : matrix)
    (p : vec) (a : matrix) :
  has_ode_column self -> exists k, fun_col self t x u p a = Ok k.
Proof.
  intros H. unfold fun_col, col.
  destruct (lookup_lt_is_Some_2 _ _ (H t x u p a)) as [k ->]. now exists k.
Qed.

Ltac next_stage Hf :=
  match goal with
  | |- exists _, bind (fun_col ?s ?t ?x ?u ?p ?a) _ = _ =>
      let k := fresh "k" in
      let Hk := fresh "Hk" in
      destruct (fun_col_returns s t x u p a Hf) as [k Hk];
      rewrite Hk; cbn [bind]
  end.

Lemma RK_next_x_returns (self : RK) (t0 : R) (x_prev : vec) (u : matrix)
    (p : vec) (a : matrix) :
  constant_control (control_type self) -> has_ode_column self ->
  exists y, RK_next_x self t0 x_prev u p a = Ok y.
Proof.
  intros Hu Hf. unfold RK_next_x.
  destruct (RK_class_of self);
    unfold RK1_next_x, RK2_next_x, RK4_next_x, RK8_next_x; cbv zeta;
    rewrite !(get_u_constant self u _ Hu); cbn [bind];
    repeat next_stage Hf; eauto.
Qed.

Lemma RK_dxdt_returns (self : RK) (states : vec) (u : matrix) (p : vec)
    (a : matrix) :
  constant_control (control_type self) -> has_ode_column self ->
  exists xf xall, RK_dxdt self states u p a = Ok (xf, xall).
Proof.
  intros Hu Hf. unfold RK_dxdt. cbv zeta.
  unfold range. replace (_n_step self + 1 - 1)%nat with (_n_step self) by lia.
  destruct (for_each_seq_total
              (fun (_ : nat) (x : matrix) => length x = (_n_step self + 1)%nat)
              (RK_dxdt_body self u p a) (_n_step self) 1
              (<[0%nat := states]> (cx_zeros (length states) (_n_step self + 1))))
    as (x & Hx & Hlen).
  - rewrite length_insert. unfold cx_zeros. now rewrite length_replicate.
  - intros i s Hi Hs. unfold RK_dxdt_body. cbv zeta.
    destruct (lookup_lt_is_Some_2 s (i - 1)) as [x_prev Hprev]; [lia |].
    apply col_Ok in Hprev. rewrite Hprev. cbn [bind].
    destruct (RK_next_x_returns self
                (fst (t_span_sym self) + RK_integration_time self * INR (i - 1))
                x_prev u p a Hu Hf) as [y Hy].
    rewrite Hy. cbn [bind].
    destruct (0 <? nb_quaternions (model self))%nat.
    + assert (Hi' : <[i := y]> s !! i = Some y)
        by (apply list_lookup_insert_eq; lia).
      apply col_Ok in Hi'. rewrite Hi'. cbn [bind].
      eexists. split; [reflexivity |]. now rewrite !length_insert.
    + eexists. split; [reflexivity |]. now rewrite length_insert.
  - rewrite Hx. cbn [bind].
    destruct (lookup_lt_is_Some_2 x (length x - 1)) as [x_last Hlast]; [lia |].
    unfold col_last. apply col_Ok in Hlast. rewrite Hlast. cbn [bind]. eauto.
Qed.

(** ** The explicit fixed-step family *)

(** C10: for each of the classes [RK1], [RK2], [RK4], [RK8] and every
    model, with or without quaternions, column 0 of the trajectory that
    [RK.dxdt] returns is the initial state it was given, unchanged, and the
    end state it returns is the last of the [_n_step + 1] columns of the
    trajectory; [RK.dxdt] does return when the control policy is a constant
    one and the dynamics function has the column read. *)
Theorem RK_trajectory_frame (self : RK) (states : vec) (u : matrix)
    (p : vec) (a : matrix) :
  (forall xf xall,
      RK_dxdt self states u p a = Ok (xf, xall) ->
      col xall 0 = Ok states /\
      length xall = (_n_step self + 1)%nat /\
      col_last xall = Ok xf) /\
  (constant_control (control_type self) -> has_ode_column self ->
   exists xf xall, RK_dxdt self states u p a = Ok (xf, xall)).
Proof.
  split.
  - intros xf xall H.
    destruct (RK_dxdt_columns _ _ _ _ _ _ _ H) as ((Hlen & H0 & _) & Hlast).
    repeat split.
    + now apply col_Ok.
    + exact Hlen.
    + unfold col_last. apply col_Ok.
      now replace (length xall - 1)%nat with (_n_step self) by lia.
  - apply RK_dxdt_returns.
Qed.

Lemma example_RK_constant (c : RK_class) (m : BioModel) :
  constant_control (control_type (example_RK c m)).
Proof. now left. Qed.

Lemma example_RK_column (c : RK_class) (m : BioModel) :
  has_ode_column (example_RK c m).
Proof. intros t x u p a. simpl. lia. Qed.

Lemma RK_trajectory_frame_witness :
  exists xf xall,
    RK_dxdt (example_RK RK4 one_quaternion) [1; 0; 0; 0] [[0]] [] []
    = Ok (xf, xall) /\
    col xall 0 = Ok [1; 0; 0; 0] /\
    length xall = 3%nat /\
    col_last xall = Ok xf.
Proof.
  destruct (proj2 (RK_trajectory_frame (example_RK RK4 one_quaternion)
                     [1; 0; 0; 0] [[0]] [] [])
              (example_RK_constant _ _) (example_RK_column _ _))
    as (xf & xall & H).
  exists xf, xall. split; [exact H |].
  exact (proj1 (RK_trajectory_frame (example_RK RK4 one_quaternion)
                  [1; 0; 0; 0] [[0]] [] []) xf xall H).
Defined.

Ltac same_head :=
  match goal with
  | |- bind ?m _ = bind (bind ?m _) _ =>
      destruct m; cbn [bind]; [| reflexivity]
  | |- bind ?m _ = bind ?m _ =>
      destruct m; cbn [bind]; [| reflexivity]
  end.

Lemma RK4_next_x_butcher (self : RK) (t0 : R) (x : vec) (u : matrix)
    (p : vec) (a : matrix) :
  RK4_next_x self t0 x u p a
  = butcher_rk4
      (RK_stage self u p a (snd (t_span_sym self) / INR (_n_step self)))
      (snd (t_span_sym self) / INR (_n_step self)) t0 x.
Proof.
  unfold RK4_next_x, butcher_rk4, RK_stage, RK_h. cbv zeta.
  repeat same_head. reflexivity.
Qed.

(** C7: [RK4.next_x] is the classical four-stage step of size
    [h = duration / _n_step], with its stages at [t0], [t0 + h/2],
    [t0 + h/2] and [t0 + h] and the weights 1, 2, 2, 1 over 6; and every
    sub-step [i = 1 .. _n_step] of [RK.dxdt] for the class [RK4] advances
    column [i - 1] of the trajectory by that step, started at
    [t_start + h (i - 1)] (the model's renormalization follows when it
    declares quaternions). *)
Theorem RK4_classical_step :
  (forall (self : RK) (t0 : R) (x : vec) (u : matrix) (p : vec) (a : matrix),
      let h := snd (t_span_sym self) / INR (_n_step self) in
      RK4_next_x self t0 x u p a
      = butcher_rk4 (RK_stage self u p a h) h t0 x) /\
  (forall (self : RK) (states : vec) (u : matrix) (p : vec) (a : matrix)
          (xf : vec) (xall : matrix),
      RK_class_of self = RK4 ->
      RK_dxdt self states u p a = Ok (xf, xall) ->
      let h := snd (t_span_sym self) / INR (_n_step self) in
      forall i, (1 <= i <= _n_step self)%nat ->
        exists x_prev y,
          col xall (i - 1) = Ok x_prev /\
          butcher_rk4 (RK_stage self u p a h) h
            (fst (t_span_sym self) + h * INR (i - 1)) x_prev = Ok y /\
          col xall i = Ok (RK_renormalize self y)).
Proof.
  split.
  - intros. apply RK4_next_x_butcher.
  - intros self states u p a xf xall Hclass H h i Hi.
    destruct (RK_dxdt_columns _ _ _ _ _ _ _ H) as ((_ & _ & Hcols) & _).
    destruct (Hcols i) as (x_prev & y & Hprev & Hy & Hcol); [lia |].
    exists x_prev, y. repeat split.
    + now apply col_Ok.
    + unfold RK_next_x in Hy. rewrite Hclass in Hy.
      rewrite RK4_next_x_butcher in Hy. exact Hy.
    + now apply col_Ok.
Qed.

Lemma RK4_classical_step_witness :
  exists xf xall,
    RK_dxdt (example_RK RK4 no_quaternion) [1; 0; 0; 0] [[0]] [] []
    = Ok (xf, xall) /\
    exists x_prev y,
      col xall 1 = Ok x_prev /\
      butcher_rk4 (RK_stage (example_RK RK4 no_quaternion) [[0]] [] []
                     (1 / INR 2))
        (1 / INR 2) (0 + 1 / INR 2 * INR (2 - 1)) x_prev = Ok y /\
      col xall 2 = Ok y.
Proof.
  destruct (RK_dxdt_returns (example_RK RK4 no_quaternion)
              [1; 0; 0; 0] [[0]] [] []
              (example_RK_constant _ _) (example_RK_column _ _))
    as (xf & xall & H).
  exists xf, xall. split; [exact H |].
  exact (proj2 RK4_classical_step (example_RK RK4 no_quaternion)
           [1; 0; 0; 0] [[0]] [] [] xf xall eq_refl H 2%nat
           ltac:(simpl; lia)).
Defined.

(** ** The trapezoidal scheme *)

Lemma trapezoidal_rule_eq (x dx dx_next : vec) (h : R) :
  x +v (dx +v dx_next) v* h v/ 2 = trapezoidal_rule x h dx dx_next.
Proof.
  unfold trapezoidal_rule, vdiv, vscale_r, vscale. f_equal.
  rewrite map_map. apply map_ext. intros r. lra.
Qed.

(** What [TRAPEZOIDAL.dxdt] returns, read off its code. *)
Lemma TRAPEZOIDAL_dxdt_inv (self : TRAPEZOIDAL) (states controls : matrix)
    (params : vec) (algebraic_states : matrix) (xf : vec) (xall : matrix) :
  TRAPEZOIDAL_dxdt self states controls params algebraic_states
  = Ok (xf, xall) ->
  exists x_start x_end u_start u_end a_start a_end dx_start dx_end,
    col states 0 = Ok x_start /\ col states 1 = Ok x_end /\
    col controls 0 = Ok u_start /\ col controls 1 = Ok u_end /\
    ((algebraic_states = [] /\ a_start = [] /\ a_end = []) \/
     (exists a0 a1, col algebraic_states 0 = Ok a0 /\
                    col algebraic_states 1 = Ok a1 /\
                    a_start = [a0] /\ a_end = [a1])) /\
    fun_col self [fst (t_span_sym self); snd (t_span_sym self)]
      x_start [u_start] params a_start = Ok dx_start /\
    fun_col self [fst (t_span_sym self) + snd (t_span_sym self);
                  snd (t_span_sym self)]
      x_end [u_end] params a_end = Ok dx_end /\
    xf = TRAPEZOIDAL_renormalize self
           (trapezoidal_rule x_start (snd (t_span_sym self))
              dx_start dx_end) /\
    xall = [x_start; xf].
Proof.
  intros H. unfold TRAPEZOIDAL_dxdt in H. cbv zeta in H.
  apply bind_Ok in H as (x_end & Hx_end & H).
  apply bind_Ok in H as (u_start & Hu_start & H).
  apply bind_Ok in H as (u_end & Hu_end & H).
  apply bind_Ok in H as (a_pair & Ha & H).
  apply bind_Ok in H as (x_start & Hx_start & H).
  apply bind_Ok in H as (x_0 & Hx_0 & H).
  apply bind_Ok in H as (y & Hy & H).
  apply bind_Ok in H as (x_prev & Hnorm & H).
  apply bind_Ok in H as (x_1 & Hx_1 & H).
  inversion H; subst x_1 x_prev; clear H.
  unfold cx_zeros in *. simpl in Hx_0. inversion Hx_0; subst x_0; clear Hx_0.
  unfold TRAPEZOIDAL_next_x, TRAPEZOIDAL_h in Hy. cbv zeta in Hy.
  apply bind_Ok in Hy as (dx & Hdx & Hy).
  apply bind_Ok in Hy as (dx_next & Hdx_next & Hy).
  inversion Hy; subst y; clear Hy.
  rewrite trapezoidal_rule_eq in Hnorm.
  assert (Hxall : xall = [x_start; xf] /\
                  xf = TRAPEZOIDAL_renormalize self
                         (trapezoidal_rule x_start (snd (t_span_sym self))
                            dx dx_next)).
  { unfold TRAPEZOIDAL_renormalize.
    destruct (0 <? nb_quaternions (model self))%nat.
    - apply bind_Ok in Hnorm as (y' & Hy' & Hnorm).
      simpl in Hy'. inversion Hy'; subst y'; clear Hy'.
      inversion Hnorm; subst xall; clear Hnorm.
      simpl in Hx_1. inversion Hx_1. split; reflexivity.
    - inversion Hnorm; subst xall; clear Hnorm.
      simpl in Hx_1. inversion Hx_1. split; reflexivity. }
  destruct Hxall as (Hxall & Hxf).
  exists x_start, x_end, u_start, u_end, (fst a_pair), (snd a_pair),
    dx, dx_next.
  repeat split; try assumption.
  destruct (decide (shape algebraic_states <> (0%nat, 0%nat))) as [Hs|Hs].
  - right.
    apply bind_Ok in Ha as (a0 & Ha0 & Ha).
    apply bind_Ok in Ha as (a1 & Ha1 & Ha).
    inversion Ha; subst a_pair. exists a0, a1. repeat split; assumption.
  - left. inversion Ha; subst a_pair. simpl.
    destruct algebraic_states as [|c m]; [repeat split |].
    exfalso. apply Hs. unfold shape. simpl. intros Habs. inversion Habs.
Qed.

Lemma example_TRAPEZOIDAL_dxdt (m : BioModel) :
  TRAPEZOIDAL_dxdt (example_TRAPEZOIDAL m)
    [[2; 0; 0; 0]; [2; 0; 0; 0]] [[0]; [0]] [] []
  = Ok (TRAPEZOIDAL_renormalize (example_TRAPEZOIDAL m)
          (trapezoidal_rule [2; 0; 0; 0] 1
             (0 *v [2; 0; 0; 0]) (0 *v [2; 0; 0; 0])),
        [[2; 0; 0; 0];
         TRAPEZOIDAL_renormalize (example_TRAPEZOIDAL m)
           (trapezoidal_rule [2; 0; 0; 0] 1
              (0 *v [2; 0; 0; 0]) (0 *v [2; 0; 0; 0]))]).
Proof.
  destruct (TRAPEZOIDAL_dxdt (example_TRAPEZOIDAL m)
              [[2; 0; 0; 0]; [2; 0; 0; 0]] [[0]; [0]] [] [])
    as [[xf xall]|e] eqn:H.
  - destruct (TRAPEZOIDAL_dxdt_inv _ _ _ _ _ _ _ H)
      as (x_start & x_end & u_start & u_end & a_start & a_end & dx_start
          & dx_end & Hs & He & Hus & Hue & Ha & Hdx & Hdxn & Hxf & Hxall).
    inversion Hs; subst x_start. inversion He; subst x_end.
    inversion Hus; subst u_start. inversion Hue; subst u_end.
    inversion Hdx; subst dx_start. inversion Hdxn; subst dx_end.
    now subst xall xf.
  - exfalso. unfold TRAPEZOIDAL_dxdt in H. simpl in H.
    destruct (0 <? nb_quaternions m)%nat; discriminate H.
Qed.

(** C4 (Runge-Kutta part and trapezoidal part): for a model that declares
    at least one quaternion, every column [i = 1 .. _n_step] of the
    trajectory of [RK.dxdt] is the model's renormalization of what
    [next_x] computed from column [i - 1], so that whatever the
    renormalization guarantees of its results (unit quaternions) holds of
    each of these columns; and the end state of [TRAPEZOIDAL.dxdt] is the
    renormalization of what its [next_x] computed. *)
Theorem quaternions_renormalized :
  (forall (self : RK) (states : vec) (u : matrix) (p : vec) (a : matrix)
          (xf : vec) (xall : matrix),
      (0 < nb_quaternions (model self))%nat ->
      RK_dxdt self states u p a = Ok (xf, xall) ->
      forall i, (1 <= i <= _n_step self)%nat ->
        exists x_prev y,
          col xall (i - 1) = Ok x_prev /\
          RK_next_x self (RK_step_time self i) x_prev u p a = Ok y /\
          col xall i = Ok (normalize_state_quaternions (model self) y) /\
          forall unit : vec -> Prop,
            (forall q, unit (normalize_state_quaternions (model self) q)) ->
            forall c, col xall i = Ok c -> unit c) /\
  (forall (self : TRAPEZOIDAL) (states controls : matrix) (params : vec)
          (algebraic_states : matrix) (xf : vec) (xall : matrix),
      (0 < nb_quaternions (model self))%nat ->
      TRAPEZOIDAL_dxdt self states controls params algebraic_states
      = Ok (xf, xall) ->
      exists x_start x_end u_start u_end a_start a_end y,
        col states 0 = Ok x_start /\ col states 1 = Ok x_end /\
        col controls 0 = Ok u_start /\ col controls 1 = Ok u_end /\
        TRAPEZOIDAL_next_x self (fst (t_span_sym self)) x_start x_end
          [u_start] [u_end] params a_start a_end = Ok y /\
        xf = normalize_state_quaternions (model self) y /\
        col xall 1 = Ok xf).
Proof.
  split.
  - intros self states u p a xf xall Hq H i Hi.
    destruct (RK_dxdt_columns _ _ _ _ _ _ _ H) as ((_ & _ & Hcols) & _).
    destruct (Hcols i) as (x_prev & y & Hprev & Hy & Hcol); [lia |].
    unfold RK_renormalize in Hcol.
    apply Nat.ltb_lt in Hq. rewrite Hq in Hcol.
    exists x_prev, y. repeat split.
    + now apply col_Ok.
    + exact Hy.
    + now apply col_Ok.
    + intros unit Hunit c Hc. apply col_Ok in Hc.
      rewrite Hcol in Hc. inversion Hc. apply Hunit.
  - intros self states controls params algebraic_states xf xall Hq H.
    apply Nat.ltb_lt in Hq.
    unfold TRAPEZOIDAL_dxdt in H. cbv zeta in H.
    apply bind_Ok in H as (x_end & Hx_end & H).
    apply bind_Ok in H as (u_start & Hu_start & H).
    apply bind_Ok in H as (u_end & Hu_end & H).
    apply bind_Ok in H as (a_pair & _ & H).
    apply bind_Ok in H as (x_start & Hx_start & H).
    apply bind_Ok in H as (x_0 & Hx_0 & H).
    apply bind_Ok in H as (y & Hy & H).
    rewrite Hq in H.
    apply bind_Ok in H as (x_prev & Hnorm & H).
    apply bind_Ok in H as (x_1 & Hx_1 & H).
    inversion H; subst x_1 x_prev; clear H.
    apply bind_Ok in Hnorm as (y' & Hy' & Hnorm).
    inversion Hnorm; subst xall; clear Hnorm.
    unfold cx_zeros in *. simpl in Hx_0, Hy', Hx_1 |- *.
    inversion Hx_0; subst x_0. inversion Hy'; subst y'.
    inversion Hx_1; subst xf.
    exists x_start, x_end, u_start, u_end, (fst a_pair), (snd a_pair), y.
    repeat split; assumption || reflexivity.
Qed.

Lemma quaternions_renormalized_witness :
  (exists xf xall,
      RK_dxdt (example_RK RK4 one_quaternion) [1; 0; 0; 0] [[0]] [] []
      = Ok (xf, xall) /\
      exists x_prev y,
        col xall 1 = Ok x_prev /\
        RK_next_x (example_RK RK4 one_quaternion)
          (RK_step_time (example_RK RK4 one_quaternion) 2) x_prev [[0]] [] []
        = Ok y /\
        col xall 2 = Ok (y v/ norm y)) /\
  (exists xf xall y,
      TRAPEZOIDAL_dxdt (example_TRAPEZOIDAL one_quaternion)
        [[2; 0; 0; 0]; [2; 0; 0; 0]] [[0]; [0]] [] [] = Ok (xf, xall) /\
      xf = y v/ norm y /\ col xall 1 = Ok xf).
Proof.
  split.
  - destruct (RK_dxdt_returns (example_RK RK4 one_quaternion)
                [1; 0; 0; 0] [[0]] [] []
                (example_RK_constant _ _) (example_RK_column _ _))
      as (xf & xall & H).
    exists xf, xall. split; [exact H |].
    destruct (proj1 quaternions_renormalized (example_RK RK4 one_quaternion)
                [1; 0; 0; 0] [[0]] [] [] xf xall
                ltac:(simpl; lia) H 2%nat ltac:(simpl; lia))
      as (x_prev & y & Hprev & Hy & Hcol & _).
    exists x_prev, y. repeat split; assumption.
  - destruct (proj2 quaternions_renormalized
                (example_TRAPEZOIDAL one_quaternion)
                [[2; 0; 0; 0]; [2; 0; 0; 0]] [[0]; [0]] [] [] _ _
                ltac:(simpl; lia) (example_TRAPEZOIDAL_dxdt one_quaternion))
      as (x_start & x_end & u_start & u_end & a_start & a_end & y
          & _ & _ & _ & _ & _ & Hxf & Hcol).
    eexists _, _, y. split; [apply example_TRAPEZOIDAL_dxdt |].
    split; [exact Hxf | exact Hcol].
Defined.

(** C5 (amended): the end state [TRAPEZOIDAL.dxdt] returns is computed, not
    the end state it was given: with the slopes taken from the dynamics at
    the start state, control and algebraic state and at the given end
    state, control and algebraic state, it is
    [x_start + duration/2 (dx_start + dx_end)] for a model without
    quaternion and the model's renormalization of that value for a model
    that declares quaternions; it is also the second column of the
    trajectory. *)
Theorem trapezoidal_end_state (self : TRAPEZOIDAL) (states controls : matrix)
    (params : vec) (algebraic_states : matrix) (xf : vec) (xall : matrix) :
  TRAPEZOIDAL_dxdt self states controls params algebraic_states
  = Ok (xf, xall) ->
  exists x_start x_end u_start u_end a_start a_end dx_start dx_end,
    col states 0 = Ok x_start /\ col states 1 = Ok x_end /\
    col controls 0 = Ok u_start /\ col controls 1 = Ok u_end /\
    ((algebraic_states = [] /\ a_start = [] /\ a_end = []) \/
     (exists a0 a1, col algebraic_states 0 = Ok a0 /\
                    col algebraic_states 1 = Ok a1 /\
                    a_start = [a0] /\ a_end = [a1])) /\
    fun_col self [fst (t_span_sym self); snd (t_span_sym self)]
      x_start [u_start] params a_start = Ok dx_start /\
    fun_col self [fst (t_span_sym self) + snd (t_span_sym self);
                  snd (t_span_sym self)]
      x_end [u_end] params a_end = Ok dx_end /\
    (nb_quaternions (model self) = 0%nat ->
     xf = trapezoidal_rule x_start (snd (t_span_sym self))
            dx_start dx_end) /\
    ((0 < nb_quaternions (model self))%nat ->
     xf = normalize_state_quaternions (model self)
            (trapezoidal_rule x_start (snd (t_span_sym self))
               dx_start dx_end)) /\
    col xall 1 = Ok xf.
Proof.
  intros H.
  destruct (TRAPEZOIDAL_dxdt_inv _ _ _ _ _ _ _ H)
    as (x_start & x_end & u_start & u_end & a_start & a_end & dx_start
        & dx_end & Hs & He & Hus & Hue & Ha & Hdx & Hdxn & Hxf & Hxall).
  exists x_start, x_end, u_start, u_end, a_start, a_end, dx_start, dx_end.
  repeat split; try assumption.
  - intros Hq. rewrite Hxf. unfold TRAPEZOIDAL_renormalize. now rewrite Hq.
  - intros Hq. rewrite Hxf. unfold TRAPEZOIDAL_renormalize.
    apply Nat.ltb_lt in Hq. now rewrite Hq.
  - now rewrite Hxall.
Qed.

Lemma trapezoidal_end_state_witness :
  exists xf xall,
    TRAPEZOIDAL_dxdt (example_TRAPEZOIDAL no_quaternion)
      [[2; 0; 0; 0]; [2; 0; 0; 0]] [[0]; [0]] [] [] = Ok (xf, xall) /\
    xf = trapezoidal_rule [2; 0; 0; 0] 1
           (0 *v [2; 0; 0; 0]) (0 *v [2; 0; 0; 0]).
Proof.
  eexists _, _. split; [apply example_TRAPEZOIDAL_dxdt |].
  destruct (trapezoidal_end_state _ _ _ _ _ _ _
              (example_TRAPEZOIDAL_dxdt no_quaternion))
    as (x_start & x_end & u_start & u_end & a_start & a_end & dx_start
        & dx_end & Hs & He & Hus & Hue & Ha & Hdx & Hdxn & Hxf & _).
  inversion Hs; subst x_start. inversion He; subst x_end.
  inversion Hdx; subst dx_start. inversion Hdxn; subst dx_end.
  exact (Hxf eq_refl).
Defined.

Lemma example_rule_value :
  trapezoidal_rule [2; 0; 0; 0] 1 (0 *v [2; 0; 0; 0]) (0 *v [2; 0; 0; 0])
  = [2; 0; 0; 0].
Proof.
  unfold trapezoidal_rule, vadd, vscale. simpl.
  repeat f_equal; lra.
Qed.

Lemma example_norm : norm [2; 0; 0; 0] = 2.
Proof.
  unfold norm. simpl.
  replace (2 * 2 + (0 * 0 + (0 * 0 + (0 * 0 + 0)))) with (2 * 2) by lra.
  apply sqrt_square. lra.
Qed.

(** C5, as stated, fails for a model with a quaternion: the state
    [(2, 0, 0, 0)] at rest is given at both ends of the interval; the
    trapezoidal rule gives [(2, 0, 0, 0)], the end state returned is its
    renormalization, [(1, 0, 0, 0)]. *)
Lemma trapezoidal_end_state_renormalized :
  exists xf xall dx_start dx_end,
    TRAPEZOIDAL_dxdt (example_TRAPEZOIDAL one_quaternion)
      [[2; 0; 0; 0]; [2; 0; 0; 0]] [[0]; [0]] [] [] = Ok (xf, xall) /\
    fun_col (example_TRAPEZOIDAL one_quaternion) [0; 1]
      [2; 0; 0; 0] [[0]] [] [] = Ok dx_start /\
    fun_col (example_TRAPEZOIDAL one_quaternion) [0 + 1; 1]
      [2; 0; 0; 0] [[0]] [] [] = Ok dx_end /\
    xf <> trapezoidal_rule [2; 0; 0; 0] 1 dx_start dx_end.
Proof.
  eexists _, _, _, _.
  split; [apply example_TRAPEZOIDAL_dxdt |].
  split; [reflexivity |]. split; [reflexivity |].
  change (trapezoidal_rule [2; 0; 0; 0] 1
            (0 *v [2; 0; 0; 0]) (0 *v [2; 0; 0; 0])
          v/ norm (trapezoidal_rule [2; 0; 0; 0] 1
                     (0 *v [2; 0; 0; 0]) (0 *v [2; 0; 0; 0]))
          <> trapezoidal_rule [2; 0; 0; 0] 1
               (0 *v [2; 0; 0; 0]) (0 *v [2; 0; 0; 0])).
  rewrite example_rule_value, example_norm.
  unfold vdiv. simpl. intros Heq. inversion Heq as [Hfirst]. lra.
Qed.

(** C1 (amended): [TRAPEZOIDAL.__init__] does not read the number of
    finite elements that the options request: whatever number is
    requested, the construction gives the same result, and an object it
    constructs has [_n_step = 1] and a trajectory of two columns. *)
Theorem TRAPEZOIDAL_single_element (ode : Ode.t matrix)
    (ode_opt : OdeOpt.t) :
  (forall n : nat,
      TRAPEZOIDAL_init ode (with_number_of_finite_elements ode_opt n)
      = TRAPEZOIDAL_init ode ode_opt) /\
  (forall b : built TRAPEZOIDAL (vec * matrix),
      TRAPEZOIDAL_init ode ode_opt = Ok b ->
      _n_step (object b) = 1%nat /\
      TRAPEZOIDAL_shape_xall (object b)
      = [fst (shape (Ode.x ode)); 2%nat] /\
      length (snd (function b)) = 2%nat).
Proof.
  split.
  - intros n. reflexivity.
  - intros b H. unfold TRAPEZOIDAL_init in H. cbv zeta in H.
    apply bind_Ok in H as ([xf xall] & Hdxdt & H).
    inversion H; subst b; clear H. simpl.
    destruct (TRAPEZOIDAL_dxdt_inv _ _ _ _ _ _ _ Hdxdt)
      as (x_start & x_end & u_start & u_end & a_start & a_end & dx_start
          & dx_end & _ & _ & _ & _ & _ & _ & _ & _ & Hxall).
    rewrite Hxall. repeat split.
Qed.

Lemma example_TRAPEZOIDAL_init :
  TRAPEZOIDAL_init example_TRAPEZOIDAL_ode
    (example_opt no_quaternion CONSTANT false 5 1)
  = Ok {| object := example_TRAPEZOIDAL no_quaternion;
          function :=
            (trapezoidal_rule [2; 0; 0; 0] 1
               (0 *v [2; 0; 0; 0]) (0 *v [2; 0; 0; 0]),
             [[2; 0; 0; 0];
              trapezoidal_rule [2; 0; 0; 0] 1
                (0 *v [2; 0; 0; 0]) (0 *v [2; 0; 0; 0])]) |}.
Proof.
  unfold TRAPEZOIDAL_init. cbv zeta.
  change (TRAPEZOIDAL_dxdt _ _ _ _ _)
    with (TRAPEZOIDAL_dxdt (example_TRAPEZOIDAL no_quaternion)
            [[2; 0; 0; 0]; [2; 0; 0; 0]] [[0]; [0]] [] []).
  rewrite example_TRAPEZOIDAL_dxdt. reflexivity.
Qed.

Lemma TRAPEZOIDAL_single_element_witness :
  exists b,
    TRAPEZOIDAL_init example_TRAPEZOIDAL_ode
      (example_opt no_quaternion CONSTANT false 5 1) = Ok b /\
    _n_step (object b) = 1%nat /\
    TRAPEZOIDAL_shape_xall (object b) = [4%nat; 2%nat] /\
    length (snd (function b)) = 2%nat.
Proof.
  eexists. split; [apply example_TRAPEZOIDAL_init |].
  exact (proj2 (TRAPEZOIDAL_single_element example_TRAPEZOIDAL_ode
                  (example_opt no_quaternion CONSTANT false 5 1))
           _ example_TRAPEZOIDAL_init).
Defined.

(** C1, as stated, fails: the options request five finite elements with
    the trapezoidal scheme; the construction succeeds, with one finite
    element. *)
Lemma TRAPEZOIDAL_five_elements_accepted :
  OdeOpt.number_of_finite_elements
    (example_opt no_quaternion CONSTANT false 5 1) = 5%nat /\
  exists b,
    TRAPEZOIDAL_init example_TRAPEZOIDAL_ode
      (example_opt no_quaternion CONSTANT false 5 1) = Ok b /\
    _n_step (object b) = 1%nat.
Proof.
  split; [reflexivity |].
  eexists. split; [apply example_TRAPEZOIDAL_init | reflexivity].
Qed.

(** ** The control policies *)

(** C3 (amended): under the constant and the constant-with-last-node
    policies, [get_u(u, t)] returns [u] itself, whatever the time [t]; that
    is column 0 of [u] when [u] has exactly one column. *)
Theorem get_u_constant_policies {X} (self : Integrator X) (u : matrix)
    (t : R) :
  control_type self = CONSTANT \/
  control_type self = CONSTANT_WITH_LAST_NODE ->
  get_u self u t = Ok u /\
  (forall t', get_u self u t' = get_u self u t) /\
  (length u = 1%nat ->
   exists u0, col u 0 = Ok u0 /\ get_u self u t = Ok [u0]).
Proof.
  intros H.
  assert (Hu : forall t', get_u self u t' = Ok u)
    by (intros t'; now apply get_u_constant).
  repeat split.
  - apply Hu.
  - intros t'. now rewrite !Hu.
  - intros Hlen. destruct u as [|u0 [|u1 u]]; try discriminate Hlen.
    exists u0. split; [reflexivity | apply Hu].
Qed.

Lemma get_u_constant_policies_witness :
  get_u (example_RK RK4 no_quaternion) [[0]] (1 / 2) = Ok [[0]] /\
  (forall t', get_u (example_RK RK4 no_quaternion) [[0]] t'
              = get_u (example_RK RK4 no_quaternion) [[0]] (1 / 2)) /\
  (length [[0]] = 1%nat ->
   exists u0, col [[0]] 0 = Ok u0 /\
              get_u (example_RK RK4 no_quaternion) [[0]] (1 / 2) = Ok [u0]).
Proof.
  apply (get_u_constant_policies (example_RK RK4 no_quaternion)).
  left. reflexivity.
Defined.

(** C3, as stated, fails for a control matrix of two columns: under the
    constant policy [get_u] returns both columns, not column 0. *)
Lemma get_u_returns_all_columns :
  control_type (example_RK RK4 no_quaternion) = CONSTANT /\
  col [[1]; [2]] 0 = Ok [1] /\
  get_u (example_RK RK4 no_quaternion) [[1]; [2]] 0 = Ok [[1]; [2]] /\
  get_u (example_RK RK4 no_quaternion) [[1]; [2]] 0 <> Ok [[1]].
Proof.
  repeat split. intros H. inversion H.
Qed.

(** ** The collocation family *)

Section Collocation.

Variable collocation_points : nat -> string -> result (list R).

(** The trajectory [COLLOCATION.dxdt] returns is made of the states it was
    given, without the first when the start is not duplicated. *)
Lemma COLLOCATION_dxdt_trajectory (self : COLLOCATION) (states : list vec)
    (controls : matrix) (params : vec) (algebraic_states : matrix)
    (states_end : vec) (xall : matrix) (defects : vec) :
  COLLOCATION_dxdt collocation_points self states controls params
    algebraic_states = Ok (states_end, xall, defects) ->
  xall = if duplicate_starting_point self then states else drop 1 states.
Proof.
  intros H. unfold COLLOCATION_dxdt in H. cbv zeta in H.
  apply bind_Ok in H as (d_0 & _ & H).
  apply bind_Ok in H as (states_1 & _ & H).
  apply bind_Ok in H as (acc & _ & H).
  inversion H. reflexivity.
Qed.

Lemma shape_rows (m : matrix) (n : nat) :
  Forall (fun c => length c = n) m -> (0 < length m)%nat ->
  fst (shape m) = n.
Proof.
  intros Hall Hlen. destruct m as [|c m]; [simpl in Hlen; lia |].
  simpl. now inversion Hall.
Qed.

(** C2 (amended): for a Runge-Kutta object with [_n_step = 5] and a state
    of 4 components, [shape_xf] is [4, 1], [shape_xall] is [4, 6] and the
    trajectory has 6 columns; for a [COLLOCATION] object of degree 3 whose
    state symbol is made of 5 columns of 4 components, [shape_xf] is [4, 4]
    and [shape_xall] is [4, 5] for both values of the flag
    [duplicate_starting_point], and the trajectory computed from 5 states
    has 5 columns when the flag is set and 4 columns when it is not. *)
Theorem shape_contracts :
  (forall self : RK,
      _n_step self = 5%nat -> length (x_sym self) = 4%nat ->
      RK_shape_xf self = [4%nat; 1%nat] /\
      RK_shape_xall self = [4%nat; 6%nat] /\
      forall states u p a xf xall,
        RK_dxdt self states u p a = Ok (xf, xall) -> length xall = 6%nat) /\
  (forall self : COLLOCATION,
      degree self = 3%nat -> length (x_sym self) = 5%nat ->
      Forall (fun c => length c = 4%nat) (x_sym self) ->
      COLLOCATION_shape_xf self = [4%nat; 4%nat] /\
      COLLOCATION_shape_xall self = [4%nat; 5%nat] /\
      forall states controls params algebraic_states states_end xall defects,
        length states = 5%nat ->
        COLLOCATION_dxdt collocation_points self states controls params
          algebraic_states = Ok (states_end, xall, defects) ->
        length xall
        = if duplicate_starting_point self then 5%nat else 4%nat).
Proof.
  split.
  - intros self Hn Hx. unfold RK_shape_xf, RK_shape_xall.
    rewrite Hn, Hx. repeat split.
    intros states u p a xf xall H.
    destruct (RK_dxdt_columns _ _ _ _ _ _ _ H) as ((Hlen & _) & _).
    rewrite Hlen, Hn. reflexivity.
  - intros self Hd Hx Hall.
    assert (Hrows : fst (shape (COLLOCATION_x_sym_modified self)) = 4%nat).
    { unfold COLLOCATION_x_sym_modified, horzcat.
      destruct (duplicate_starting_point self).
      - apply shape_rows; [exact Hall | lia].
      - apply shape_rows.
        + now apply Forall_drop.
        + rewrite length_drop. lia. }
    unfold COLLOCATION_shape_xf, COLLOCATION_shape_xall.
    rewrite Hrows, Hd. repeat split.
    intros states controls params algebraic_states states_end xall defects
      Hlen H.
    rewrite (COLLOCATION_dxdt_trajectory _ _ _ _ _ _ _ _ H).
    destruct (duplicate_starting_point self);
      [exact Hlen | rewrite length_drop; lia].
Qed.

(** *** The node times and the tables *)

Lemma integration_time_at_returns (d : nat) (m : string) (r : nat) :
  supplies_points collocation_points d m -> (r <= d)%nat ->
  exists t, integration_time_at collocation_points d m r = Ok t.
Proof.
  intros (points & Hp & Hlen) Hr.
  unfold integration_time_at, integration_time. rewrite Hp. cbn [bind].
  destruct (lookup_lt_is_Some_2 (0 :: points) r) as [t Ht];
    [simpl; lia |].
  exists t. now apply py_index_Ok.
Qed.

Lemma for_each_ext {A S} (l : list A) (acc : S)
    (body body' : A -> S -> result S) :
  (forall i s, i ∈ l -> body i s = body' i s) ->
  for_each l acc body = for_each l acc body'.
Proof.
  revert acc. induction l as [|i l IH]; intros acc H; [reflexivity |].
  simpl. rewrite (H i acc) by left.
  destruct (body' i acc); [| reflexivity]. cbn [bind].
  apply IH. intros i' s Hi'. apply H. now right.
Qed.

Lemma lagrange_returns (d : nat) (m : string) (j : nat) :
  supplies_points collocation_points d m -> (j <= d)%nat ->
  exists _l, lagrange collocation_points d m j = Ok _l.
Proof.
  intros Hp Hj. unfold lagrange, range.
  replace (d + 1 - 0)%nat with (d + 1)%nat by lia.
  destruct (for_each_seq_total (fun _ (_ : R -> dual) => True)
              (fun r _l =>
                 if negb (r =? j)%nat then
                   t_r <- integration_time_at collocation_points d m r ;;
                   t_j <- integration_time_at collocation_points d m j ;;
                   t_r' <- integration_time_at collocation_points d m r ;;
                   Ok (fun tau =>
                         dual_mul (_l tau)
                           (lagrange_factor tau t_r (t_j - t_r')))
                 else Ok _l)
              (d + 1) 0 (fun _ : R => (1, 0))) as (res & Hres & _).
  - exact I.
  - intros r _l Hr _. destruct (negb (r =? j)%nat); [| eauto].
    destruct (integration_time_at_returns d m r Hp) as [t_r Ht_r]; [lia |].
    destruct (integration_time_at_returns d m j Hp Hj) as [t_j Ht_j].
    rewrite Ht_r. cbn [bind]. rewrite Ht_j. cbn [bind]. eauto.
  - eauto.
Qed.

Lemma set_entry2_length (m : list (list R)) (i j : nat) (c : R) :
  length (set_entry2 m i j c) = length m.
Proof.
  unfold set_entry2. destruct (m !! i); [apply length_insert | reflexivity].
Qed.

Lemma set_entry2_rows (m : list (list R)) (i j : nat) (c : R) (n : nat) :
  Forall (fun row => length row = n) m ->
  Forall (fun row => length row = n) (set_entry2 m i j c).
Proof.
  intros H. unfold set_entry2.
  destruct (m !! i) as [row|] eqn:Hrow; [| exact H].
  apply Forall_insert; [exact H |].
  rewrite length_insert.
  exact (proj1 (Forall_lookup _ _) H i row Hrow).
Qed.

Lemma initialize_body_returns (d : nat) (m : string) (j : nat)
    (cd : list (list R) * list R) :
  supplies_points collocation_points d m -> (j <= d)%nat ->
  exists cd',
    initialize_body collocation_points d m j cd = Ok cd' /\
    length (snd cd') = length (snd cd) /\
    length (fst cd') = length (fst cd) /\
    forall n, Forall (fun row => length row = n) (fst cd) ->
              Forall (fun row => length row = n) (fst cd').
Proof.
  intros Hp Hj. unfold initialize_body. cbv zeta.
  destruct (lagrange_returns d m j Hp Hj) as [_l H_l].
  rewrite H_l. cbn [bind]. unfold range.
  replace (d + 1 - 0)%nat with (d + 1)%nat by lia.
  destruct (for_each_seq_total
              (fun _ (c : list (list R)) =>
                 length c = length (fst cd) /\
                 forall n, Forall (fun row => length row = n) (fst cd) ->
                           Forall (fun row => length row = n) c)
              (fun r _c =>
                 t_r <- integration_time_at collocation_points d m r ;;
                 Ok (set_entry2 _c j r (snd (_l t_r))))
              (d + 1) 0 (fst cd)) as (c' & Hc' & Hlen & Hrows).
  - split; [reflexivity | auto].
  - intros r c Hr (Hlen & Hrows).
    destruct (integration_time_at_returns d m r Hp) as [t_r Ht_r]; [lia |].
    rewrite Ht_r. cbn [bind]. eexists. split; [reflexivity |]. split.
    + now rewrite set_entry2_length.
    + intros n Hn. apply set_entry2_rows. now apply Hrows.
  - rewrite Hc'. cbn [bind]. eexists. split; [reflexivity |].
    cbn [fst snd]. repeat split; [| exact Hlen | exact Hrows].
    destruct (String.eqb m "radau"); apply length_insert.
Qed.

Lemma COLLOCATION_initialize_returns (base : Integrator (list vec))
    (ode_opt : OdeOpt.t) :
  supplies_points collocation_points
    (OdeOpt.irk_polynomial_interpolation_degree ode_opt)
    (OdeOpt.method ode_opt) ->
  exists self,
    COLLOCATION_initialize collocation_points base ode_opt = Ok self /\
    COLLOCATION_super self = base /\
    degree self = OdeOpt.irk_polynomial_interpolation_degree ode_opt /\
    method self = OdeOpt.method ode_opt /\
    well_formed_tables self.
Proof.
  intros Hp. unfold COLLOCATION_initialize. cbv zeta. unfold range.
  set (d := OdeOpt.irk_polynomial_interpolation_degree ode_opt) in *.
  set (m := OdeOpt.method ode_opt) in *.
  replace (d + 1 - 0)%nat with (d + 1)%nat by lia.
  destruct (for_each_seq_total
              (fun _ (cd : list (list R) * list R) =>
                 length (snd cd) = (d + 1)%nat /\
                 length (fst cd) = (d + 1)%nat /\
                 Forall (fun row => length row = (d + 1)%nat) (fst cd))
              (initialize_body collocation_points d m)
              (d + 1) 0
              (replicate (d + 1) (replicate (d + 1) 0), replicate (d + 1) 0))
    as (cd & Hcd & Hd & Hc & Hrows).
  - cbn [fst snd]. rewrite !length_replicate. repeat split.
    apply Forall_replicate. apply length_replicate.
  - intros j cd Hj (Hd & Hc & Hrows).
    destruct (initialize_body_returns d m j cd Hp)
      as (cd' & H & Hd' & Hc' & Hr'); [lia |].
    exists cd'. split; [exact H |]. repeat split.
    + now rewrite Hd'.
    + now rewrite Hc'.
    + now apply Hr'.
  - rewrite Hcd. cbn [bind]. eexists. split; [reflexivity |].
    repeat split; assumption.
Qed.

(** *** The slope of the polynomial at a node *)

Lemma COLLOCATION_xp_unroll (self : COLLOCATION) (states : list vec)
    (j : nat) :
  COLLOCATION_xp self states j
  = (c_0j <- entry2 (_c self) 0 j ;;
     states_0 <- py_index states 0 ;;
     for_each (seq 2 (degree self))
       (Column (map (fun r => 0 + r) (c_0j *v states_0)))
       (COLLOCATION_xp_body self states j)).
Proof.
  unfold COLLOCATION_xp, range.
  replace (degree self + 2 - 0)%nat with (S (S (degree self))) by lia.
  cbn [seq for_each Nat.eqb Nat.ltb Nat.leb bind iadd].
  destruct (entry2 (_c self) 0 j) as [c_0j|e]; [| reflexivity]. cbn [bind].
  destruct (py_index states 0) as [states_0|e]; [| reflexivity]. cbn [bind].
  apply for_each_ext. intros r s Hr. apply elem_of_seq in Hr.
  unfold COLLOCATION_xp_body.
  destruct r as [|[|r]]; [lia | lia | reflexivity].
Qed.

Lemma fold_xp (self : COLLOCATION) (states : list vec) (j : nat) :
  forall (len a : nat) (init : vec) (res : number_or_column),
    for_each (seq a len) (Column init) (COLLOCATION_xp_body self states j)
    = Ok res ->
    exists weights nodes,
      Forall2 (fun r w => entry2 (_c self) (r - 1) j = Ok w)
        (seq a len) weights /\
      Forall2 (fun r s => py_index states r = Ok s) (seq a len) nodes /\
      res = Column (fold_left vadd (zip_with vscale weights nodes) init).
Proof.
  induction len as [|len IH]; intros a init res H; simpl in H.
  - inversion H. exists [], []. repeat split; constructor.
  - apply bind_Ok in H as (acc & Hbody & H).
    unfold COLLOCATION_xp_body in Hbody.
    apply bind_Ok in Hbody as (c & Hc & Hbody).
    apply bind_Ok in Hbody as (s & Hs & Hbody).
    inversion Hbody; subst acc; clear Hbody. cbn [iadd] in H.
    destruct (IH _ _ _ H) as (weights & nodes & Hw & Hn & Hres).
    exists (c :: weights), (s :: nodes). repeat split.
    + constructor; assumption.
    + constructor; assumption.
    + exact Hres.
Qed.

Lemma zeros_vadd (n : nat) (v : vec) :
  length v = n -> replicate n 0 +v v = map (fun r => 0 + r) v.
Proof.
  intros <-. unfold vadd. induction v as [|r v IH]; [reflexivity |].
  simpl. now rewrite IH.
Qed.

Lemma Forall2_seq_pred {A} (P : nat -> A -> Prop) :
  forall (len a : nat) (l : list A),
    Forall2 (fun r => P (r - 1)%nat) (seq (S a) len) l ->
    Forall2 P (seq a len) l.
Proof.
  induction len as [|len IH]; intros a l H; simpl in *.
  - inversion H. constructor.
  - inversion H as [|r x rs l' Hx Hrest]; subst. constructor.
    + now replace (S a - 1)%nat with a in Hx by lia.
    + apply IH. exact Hrest.
Qed.

(** The slope [xp_j] is the sum of the node states, the start state and the
    states of the collocation points, weighted by column [j] of [_c]. *)
Lemma COLLOCATION_xp_inv (self : COLLOCATION) (states : list vec)
    (j n : nat) (xp_j : number_or_column) :
  Forall (fun s => length s = n) states ->
  COLLOCATION_xp self states j = Ok xp_j ->
  exists weights nodes,
    Forall2 (fun k w => entry2 (_c self) k j = Ok w)
      (seq 0 (degree self + 1)) weights /\
    Forall2 (fun r s => py_index states r = Ok s)
      (0%nat :: seq 2 (degree self)) nodes /\
    xp_j = Column (weighted_sum n weights nodes).
Proof.
  intros Hall H. rewrite COLLOCATION_xp_unroll in H.
  apply bind_Ok in H as (c_0j & Hc0 & H).
  apply bind_Ok in H as (states_0 & Hs0 & H).
  destruct (fold_xp _ _ _ _ _ _ _ H) as (weights & nodes & Hw & Hn & Hres).
  exists (c_0j :: weights), (states_0 :: nodes). repeat split.
  - replace (degree self + 1)%nat with (S (degree self)) by lia.
    simpl. constructor; [exact Hc0 |].
    now apply Forall2_seq_pred.
  - constructor; assumption.
  - rewrite Hres. unfold weighted_sum. simpl. rewrite zeros_vadd; [reflexivity |].
    unfold vscale. rewrite length_map.
    apply py_index_Ok in Hs0.
    exact (proj1 (Forall_lookup _ _) Hall _ _ Hs0).
Qed.

Lemma entry2_returns (m : list (list R)) (n i j : nat) :
  length m = n -> Forall (fun row => length row = n) m ->
  (i < n)%nat -> (j < n)%nat -> exists c, entry2 m i j = Ok c.
Proof.
  intros Hlen Hrows Hi Hj. unfold entry2, entry.
  destruct (lookup_lt_is_Some_2 m i) as [row Hrow]; [lia |].
  rewrite Hrow.
  pose proof (proj1 (Forall_lookup _ _) Hrows _ _ Hrow) as Hr.
  cbv beta in Hr.
  destruct (lookup_lt_is_Some_2 row j) as [c Hc]; [lia |].
  rewrite Hc. eauto.
Qed.

Lemma COLLOCATION_xp_returns (self : COLLOCATION) (states : list vec)
    (j : nat) :
  well_formed_tables self -> (j <= degree self)%nat ->
  (degree self + 2 <= length states)%nat ->
  exists xp_j, COLLOCATION_xp self states j = Ok xp_j.
Proof.
  intros (_ & Hc & Hrows) Hj Hlen. rewrite COLLOCATION_xp_unroll.
  destruct (entry2_returns (_c self) _ 0 j Hc Hrows) as [c_0j Hc0];
    [lia | lia |].
  rewrite Hc0. cbn [bind].
  destruct (lookup_lt_is_Some_2 states 0) as [s0 Hs0]; [lia |].
  apply py_index_Ok in Hs0. rewrite Hs0. cbn [bind].
  destruct (for_each_seq_total (fun _ (_ : number_or_column) => True)
              (COLLOCATION_xp_body self states j) (degree self) 2
              (Column (map (fun r => 0 + r) (c_0j *v s0))))
    as (res & Hres & _).
  - exact I.
  - intros r acc Hr _. unfold COLLOCATION_xp_body.
    destruct (entry2_returns (_c self) _ (r - 1) j Hc Hrows) as [c Hcr];
      [lia | lia |].
    rewrite Hcr. cbn [bind].
    destruct (lookup_lt_is_Some_2 states r) as [s Hs]; [lia |].
    apply py_index_Ok in Hs. rewrite Hs. cbn [bind]. eauto.
  - eauto.
Qed.

(** *** The loop of [COLLOCATION.dxdt] *)

Lemma COLLOCATION_get_u_Ok (self : COLLOCATION) (u v : matrix) (t : R) :
  COLLOCATION_get_u self u t = Ok v ->
  constant_control (control_type self) /\ v = u.
Proof.
  unfold COLLOCATION_get_u, get_u, constant_control.
  destruct (control_type self); intros H; inversion H; auto.
Qed.

Lemma COLLOCATION_get_u_constant (self : COLLOCATION) (u : matrix) (t : R) :
  constant_control (control_type self) ->
  COLLOCATION_get_u self u t = Ok u.
Proof.
  unfold COLLOCATION_get_u, get_u. intros [H|H]; now rewrite H.
Qed.

Lemma COLLOCATION_get_u_Raise (self : COLLOCATION) (u : matrix) (t : R) :
  ~ constant_control (control_type self) ->
  COLLOCATION_get_u self u t = Raise not_with_COLLOCATION.
Proof.
  unfold COLLOCATION_get_u, constant_control. intros H.
  destruct (control_type self); try reflexivity; exfalso; apply H; auto.
Qed.

Lemma vscale_r_comm (x : vec) (c : R) : x v* c = c *v x.
Proof. unfold vscale_r, vscale. apply map_ext. intros r. lra. Qed.

Lemma COLLOCATION_dxdt_body_explicit (self : COLLOCATION)
    (states : list vec) (controls : matrix) (params : vec)
    (algebraic_states : matrix) (j : nat) (acc acc' : vec * list vec) :
  defects_type self = EXPLICIT ->
  COLLOCATION_dxdt_body collocation_points self states controls params
    algebraic_states j acc = Ok acc' ->
  exists t_j xp_j x_j u_j f_j,
    integration_time_at collocation_points (degree self) (method self) j
    = Ok t_j /\
    COLLOCATION_xp self states j = Ok xp_j /\
    py_index states (j + 1) = Ok x_j /\
    COLLOCATION_get_u self controls t_j = Ok u_j /\
    fun_col self
      [fst (t_span_sym self) + t_j * snd (t_span_sym self);
       snd (t_span_sym self)]
      x_j u_j params algebraic_states = Ok f_j /\
    snd acc' = snd acc ++ [minus xp_j (snd (t_span_sym self) *v f_j)].
Proof.
  intros Hmode H. unfold COLLOCATION_dxdt_body in H. cbv zeta in H.
  rewrite Hmode in H. unfold COLLOCATION_h in H.
  apply bind_Ok in H as (t_j & Ht_j & H).
  apply bind_Ok in H as (xp_j & Hxp & H).
  apply bind_Ok in H as (defects & Hdefects & H).
  apply bind_Ok in H as (d_j & _ & H).
  apply bind_Ok in H as (x_j' & _ & H).
  inversion H; subst acc'; clear H. cbn [snd].
  apply bind_Ok in Hdefects as (x_j & Hx_j & Hdefects).
  apply bind_Ok in Hdefects as (t_j' & Ht_j' & Hdefects).
  rewrite Ht_j in Ht_j'. inversion Ht_j'; subst t_j'; clear Ht_j'.
  apply bind_Ok in Hdefects as (u_j & Hu_j & Hdefects).
  apply bind_Ok in Hdefects as (f_j & Hf_j & Hdefects).
  inversion Hdefects; subst defects; clear Hdefects.
  exists t_j, xp_j, x_j, u_j, f_j. rewrite vscale_r_comm.
  repeat split; assumption.
Qed.

Lemma nodes_dimension (states : list vec) (n : nat) (indices : list nat)
    (nodes : list vec) :
  Forall (fun s => length s = n) states ->
  Forall2 (fun r s => py_index states r = Ok s) indices nodes ->
  Forall (fun s => length s = n) nodes.
Proof.
  intros Hall H. induction H as [|r s indices nodes Hrs _ IH]; constructor.
  - apply py_index_Ok in Hrs.
    exact (proj1 (Forall_lookup _ _) Hall _ _ Hrs).
  - exact IH.
Qed.

Lemma fold_left_vadd_length (n : nat) (terms : list vec) :
  Forall (fun s => length s = n) terms ->
  forall init, length init = n -> length (fold_left vadd terms init) = n.
Proof.
  induction 1 as [|s terms Hs _ IH]; intros init Hinit; [exact Hinit |].
  simpl. apply IH. unfold vadd. rewrite length_zip_with. lia.
Qed.

Lemma weighted_sum_length (n : nat) (weights : list R) (nodes : list vec) :
  Forall (fun s => length s = n) nodes ->
  length (weighted_sum n weights nodes) = n.
Proof.
  intros Hall. unfold weighted_sum.
  apply fold_left_vadd_length; [| apply length_replicate].
  revert weights. induction Hall as [|s nodes Hs _ IH]; intros [|w weights];
    simpl; constructor.
  - unfold vscale. now rewrite length_map.
  - apply IH.
Qed.

Lemma concat_length (n : nat) (l : list vec) :
  Forall (fun s => length s = n) l ->
  length (concat l) = (length l * n)%nat.
Proof.
  induction 1 as [|s l Hs _ IH]; [reflexivity |].
  simpl. rewrite length_app, IH, Hs. reflexivity.
Qed.

Lemma COLLOCATION_dxdt_defects (self : COLLOCATION) (states : list vec)
    (controls : matrix) (params : vec) (algebraic_states : matrix)
    (n : nat) (states_end : vec) (xall : matrix) (defects : vec) :
  defects_type self = EXPLICIT ->
  Forall (fun s => length s = n) states ->
  dynamics_dimension self n ->
  COLLOCATION_dxdt collocation_points self states controls params
    algebraic_states = Ok (states_end, xall, defects) ->
  exists per_node : list vec,
    defects = vertcat per_node /\
    defects_inv collocation_points self states controls params
      algebraic_states n
      (1 + degree self) (states_end, per_node).
Proof.
  intros Hmode Hall Hdim H. unfold COLLOCATION_dxdt in H. cbv zeta in H.
  apply bind_Ok in H as (d_0 & _ & H).
  apply bind_Ok in H as (states_1 & _ & H).
  apply bind_Ok in H as ([se per_node] & Hloop & H).
  inversion H; subst states_end xall defects; clear H.
  exists per_node. split; [reflexivity |].
  unfold range in Hloop.
  replace (degree self + 1 - 1)%nat with (degree self) in Hloop by lia.
  eapply (for_each_seq_inv
            (defects_inv collocation_points self states controls params
      algebraic_states n));
    [| | exact Hloop].
  - split; [reflexivity |]. intros j Hj. lia.
  - intros j acc acc' Hj (Hlen & Hprev) Hbody.
    destruct (COLLOCATION_dxdt_body_explicit _ _ _ _ _ _ _ _ Hmode Hbody)
      as (t_j & xp_j & x_j & u_j & f_j & Ht_j & Hxp & Hx_j & Hu_j & Hf_j
          & Hsnd).
    destruct (COLLOCATION_xp_inv _ _ _ n _ Hall Hxp)
      as (weights & nodes & Hw & Hn & ->).
    cbn [minus] in Hsnd.
    split; [rewrite Hsnd, length_app; simpl; lia |].
    intros j' Hj'. destruct (decide (j' = j)) as [->|Hne].
    + eexists. rewrite Hsnd. split; [| split].
      * rewrite lookup_app_r by lia.
        replace (j - 1 - length (snd acc))%nat with 0%nat by lia.
        reflexivity.
      * unfold vsub. rewrite length_zip_with.
        rewrite weighted_sum_length
          by (eapply nodes_dimension; [exact Hall | exact Hn]).
        unfold vscale. rewrite length_map.
        apply py_index_Ok in Hx_j.
        pose proof (proj1 (Forall_lookup _ _) Hall _ _ Hx_j) as Hlx.
        rewrite (Hdim _ _ _ _ _ _ Hlx Hf_j). lia.
      * exists t_j, x_j, u_j, f_j, weights, nodes.
        repeat split; assumption.
    + destruct (Hprev j') as (defect & Hd & Hdl & Hdef); [lia |].
      exists defect. rewrite Hsnd. repeat split; try assumption.
      rewrite lookup_app_l; [exact Hd | lia].
Qed.

(** *** When [COLLOCATION.dxdt] returns and when it raises *)

Lemma entry_returns (v : list R) (i : nat) :
  (i < length v)%nat -> exists c, entry v i = Ok c.
Proof.
  intros Hi. unfold entry.
  destruct (lookup_lt_is_Some_2 v i Hi) as [c ->]. eauto.
Qed.

Lemma py_index_returns {A} (l : list A) (i : nat) :
  (i < length l)%nat -> exists c, py_index l i = Ok c.
Proof.
  intros Hi. unfold py_index.
  destruct (lookup_lt_is_Some_2 l i Hi) as [c ->]. eauto.
Qed.

Lemma COLLOCATION_dxdt_body_returns (self : COLLOCATION)
    (states : list vec) (controls : matrix) (params : vec)
    (algebraic_states : matrix) (j : nat) (acc : vec * list vec) :
  well_formed_tables self ->
  supplies_points collocation_points (degree self) (method self) ->
  (j <= degree self)%nat ->
  (degree self + 2 <= length states)%nat ->
  constant_control (control_type self) ->
  has_ode_column self ->
  defects_type self <> NOT_APPLICABLE ->
  exists acc',
    COLLOCATION_dxdt_body collocation_points self states controls params
      algebraic_states j acc = Ok acc'.
Proof.
  intros Hwf Hp Hj Hlen Hu Hf Hmode.
  unfold COLLOCATION_dxdt_body. cbv zeta.
  destruct (integration_time_at_returns _ _ j Hp Hj) as [t_j Ht_j].
  rewrite Ht_j. cbn [bind].
  destruct (COLLOCATION_xp_returns self states j Hwf Hj Hlen) as [xp_j Hxp].
  rewrite Hxp. cbn [bind].
  destruct (py_index_returns states (j + 1)) as [x_j Hx_j]; [lia |].
  destruct (entry_returns (_d self) j) as [d_j Hd_j];
    [destruct Hwf as (Hd & _); lia |].
  destruct (defects_type self); [| | congruence].
  - rewrite ?Hx_j, ?Ht_j. cbn [bind].
    rewrite (COLLOCATION_get_u_constant _ _ _ Hu). cbn [bind].
    match goal with
    | |- context [fun_col ?s ?t ?x ?u ?p ?a] =>
        destruct (fun_col_returns s t x u p a Hf) as [f_j Hf_j]
    end.
    rewrite Hf_j. cbn [bind]. rewrite Hd_j. cbn [bind]. eauto.
  - rewrite ?Hx_j, ?Ht_j. cbn [bind].
    rewrite (COLLOCATION_get_u_constant _ _ _ Hu). cbn [bind].
    rewrite Hd_j. cbn [bind]. eauto.
Qed.

Lemma COLLOCATION_dxdt_returns (self : COLLOCATION) (states : list vec)
    (controls : matrix) (params : vec) (algebraic_states : matrix) :
  well_formed_tables self ->
  supplies_points collocation_points (degree self) (method self) ->
  (degree self + 2 <= length states)%nat ->
  constant_control (control_type self) ->
  has_ode_column self ->
  defects_type self <> NOT_APPLICABLE ->
  exists states_end xall defects,
    COLLOCATION_dxdt collocation_points self states controls params
      algebraic_states = Ok (states_end, xall, defects).
Proof.
  intros Hwf Hp Hlen Hu Hf Hmode. unfold COLLOCATION_dxdt. cbv zeta.
  destruct (entry_returns (_d self) 0) as [d_0 Hd_0];
    [destruct Hwf as (Hd & _); lia |].
  rewrite Hd_0. cbn [bind].
  destruct (py_index_returns states 1) as [s_1 Hs_1]; [lia |].
  rewrite Hs_1. cbn [bind]. unfold range.
  replace (degree self + 1 - 1)%nat with (degree self) by lia.
  destruct (for_each_seq_total (fun _ (_ : vec * list vec) => True)
              (COLLOCATION_dxdt_body collocation_points self states controls
                 params algebraic_states)
              (degree self) 1 (d_0 *v s_1, [])) as (acc & Hacc & _).
  - exact I.
  - intros j acc Hj _.
    destruct (COLLOCATION_dxdt_body_returns self states controls params
                algebraic_states j acc Hwf Hp) as [acc' Hacc'];
      try assumption; [lia |].
    eauto.
  - rewrite Hacc. cbn [bind]. eauto.
Qed.

Lemma COLLOCATION_dxdt_raises (self : COLLOCATION) (states : list vec)
    (controls : matrix) (params : vec) (algebraic_states : matrix) :
  well_formed_tables self ->
  supplies_points collocation_points (degree self) (method self) ->
  (1 <= degree self)%nat ->
  (degree self + 2 <= length states)%nat ->
  defects_type self <> NOT_APPLICABLE ->
  ~ constant_control (control_type self) ->
  COLLOCATION_dxdt collocation_points self states controls params
    algebraic_states = Raise not_with_COLLOCATION.
Proof.
  intros Hwf Hp Hdeg Hlen Hmode Hu. unfold COLLOCATION_dxdt. cbv zeta.
  destruct (entry_returns (_d self) 0) as [d_0 Hd_0];
    [destruct Hwf as (Hd & _); lia |].
  rewrite Hd_0. cbn [bind].
  destruct (py_index_returns states 1) as [s_1 Hs_1]; [lia |].
  rewrite Hs_1. cbn [bind]. unfold range.
  replace (degree self + 1 - 1)%nat with (S (degree self - 1)) by lia.
  cbn [seq for_each].
  apply bind_Raise. apply bind_Raise.
  unfold COLLOCATION_dxdt_body. cbv zeta.
  destruct (integration_time_at_returns _ _ 1 Hp Hdeg) as [t_j Ht_j].
  rewrite Ht_j. cbn [bind].
  destruct (COLLOCATION_xp_returns self states 1 Hwf Hdeg Hlen)
    as [xp_j Hxp].
  rewrite Hxp. cbn [bind].
  destruct (py_index_returns states (1 + 1)) as [x_j Hx_j]; [lia |].
  apply bind_Raise.
  destruct (defects_type self); [| | congruence];
    rewrite ?Hx_j, ?Ht_j; cbn [bind];
    now rewrite (COLLOCATION_get_u_Raise _ _ _ Hu).
Qed.

(** *** The construction *)

Variable rootfinder :
  string -> string -> function6 -> rootfinder_options -> function6.

Lemma COLLOCATION_init_returns (ode : Ode.t (list vec))
    (ode_opt : OdeOpt.t) :
  supplies_points collocation_points
    (OdeOpt.irk_polynomial_interpolation_degree ode_opt)
    (OdeOpt.method ode_opt) ->
  (OdeOpt.irk_polynomial_interpolation_degree ode_opt + 2
   <= length (Ode.x ode))%nat ->
  constant_control (OdeOpt.control_type ode_opt) ->
  (forall t x u p a, (OdeOpt.ode_index ode_opt
                      < length (Ode.ode ode t x u p a))%nat) ->
  OdeOpt.defects_type ode_opt <> NOT_APPLICABLE ->
  exists b states_end defects,
    COLLOCATION_init collocation_points ode ode_opt = Ok b /\
    degree (object b) = OdeOpt.irk_polynomial_interpolation_degree ode_opt /\
    x_sym (object b) = Ode.x ode /\
    duplicate_starting_point (object b)
    = OdeOpt.duplicate_starting_point ode_opt /\
    function b
    = (states_end,
       if OdeOpt.duplicate_starting_point ode_opt then Ode.x ode
       else drop 1 (Ode.x ode),
       defects).
Proof.
  intros Hp Hlen Hu Hf Hmode. unfold COLLOCATION_init.
  destruct (COLLOCATION_initialize_returns (Integrator_attributes ode ode_opt)
              ode_opt Hp) as (self & Hself & Hsuper & Hdeg & Hmeth & Hwf).
  rewrite Hself. cbn [bind].
  destruct (COLLOCATION_dxdt_returns self (x_sym self) (u_sym self)
              (param_sym self) (a_sym self) Hwf)
    as (states_end & xall & defects & H).
  - now rewrite Hdeg, Hmeth.
  - rewrite Hdeg, Hsuper. exact Hlen.
  - rewrite Hsuper. exact Hu.
  - rewrite Hsuper. exact Hf.
  - rewrite Hsuper. exact Hmode.
  - rewrite H. cbn [bind].
    rewrite (COLLOCATION_dxdt_trajectory _ _ _ _ _ _ _ _ H).
    eexists _, states_end, defects. split; [reflexivity |].
    cbn [object function]. rewrite Hsuper. repeat split. exact Hdeg.
Qed.

Lemma collocation_init_raises (ode : Ode.t (list vec))
    (ode_opt : OdeOpt.t) :
  supplies_points collocation_points
    (OdeOpt.irk_polynomial_interpolation_degree ode_opt)
    (OdeOpt.method ode_opt) ->
  (1 <= OdeOpt.irk_polynomial_interpolation_degree ode_opt)%nat ->
  (OdeOpt.irk_polynomial_interpolation_degree ode_opt + 2
   <= length (Ode.x ode))%nat ->
  OdeOpt.defects_type ode_opt <> NOT_APPLICABLE ->
  ~ constant_control (OdeOpt.control_type ode_opt) ->
  COLLOCATION_init collocation_points ode ode_opt
  = Raise not_with_COLLOCATION /\
  IRK_init collocation_points rootfinder ode ode_opt
  = Raise not_with_COLLOCATION.
Proof.
  intros Hp Hdeg Hlen Hmode Hu.
  destruct (COLLOCATION_initialize_returns (Integrator_attributes ode ode_opt)
              ode_opt Hp) as (self & Hself & Hsuper & Hd & Hmeth & Hwf).
  assert (H : COLLOCATION_dxdt collocation_points self (x_sym self)
                (u_sym self) (param_sym self) (a_sym self)
              = Raise not_with_COLLOCATION).
  { apply COLLOCATION_dxdt_raises; try exact Hwf.
    - now rewrite Hd, Hmeth.
    - now rewrite Hd.
    - rewrite Hd, Hsuper. exact Hlen.
    - rewrite Hsuper. exact Hmode.
    - rewrite Hsuper. exact Hu. }
  assert (Hx : (0 < length (x_sym self))%nat)
    by (rewrite Hsuper; simpl; lia).
  split.
  - unfold COLLOCATION_init. rewrite Hself. cbn [bind]. now rewrite H.
  - unfold IRK_init. rewrite Hself. cbn [bind].
    unfold IRK_x_sym_modified, IRK_dxdt.
    destruct (py_index_returns (x_sym self) 0 Hx) as [states_0 Hs0].
    rewrite Hs0. cbn [bind]. now rewrite H.
Qed.

Lemma constant_control_dec (c : ControlType) :
  constant_control c \/ ~ constant_control c.
Proof.
  unfold constant_control.
  destruct c; auto; right; intros [H|H]; discriminate H.
Qed.

(** C9: for [COLLOCATION] and for [IRK] alike, on options of degree at
    least 1 with a state symbol of at least [degree + 2] columns and the
    explicit or the implicit defects, the construction with the
    linear-continuous policy raises the [NotImplementedError] of
    [COLLOCATION.get_u] (the error the specification calls
    UnsupportedControlPolicy); a construction that succeeds has the
    constant or the constant-with-last-node policy, and with these
    [COLLOCATION.get_u] returns the controls. *)
Theorem collocation_family_control_policies (ode : Ode.t (list vec))
    (ode_opt : OdeOpt.t) :
  supplies_points collocation_points
    (OdeOpt.irk_polynomial_interpolation_degree ode_opt)
    (OdeOpt.method ode_opt) ->
  (1 <= OdeOpt.irk_polynomial_interpolation_degree ode_opt)%nat ->
  (OdeOpt.irk_polynomial_interpolation_degree ode_opt + 2
   <= length (Ode.x ode))%nat ->
  OdeOpt.defects_type ode_opt <> NOT_APPLICABLE ->
  (OdeOpt.control_type ode_opt = LINEAR_CONTINUOUS ->
   COLLOCATION_init collocation_points ode ode_opt
   = Raise not_with_COLLOCATION /\
   IRK_init collocation_points rootfinder ode ode_opt
   = Raise not_with_COLLOCATION) /\
  (forall b, COLLOCATION_init collocation_points ode ode_opt = Ok b ->
             constant_control (OdeOpt.control_type ode_opt)) /\
  (forall b, IRK_init collocation_points rootfinder ode ode_opt = Ok b ->
             constant_control (OdeOpt.control_type ode_opt)) /\
  (forall (self : COLLOCATION) (u : matrix) (t : R),
      constant_control (control_type self) ->
      COLLOCATION_get_u self u t = Ok u).
Proof.
  intros Hp Hdeg Hlen Hmode. split; [| split; [| split]].
  - intros Hlinear. apply collocation_init_raises; try assumption.
    rewrite Hlinear. intros [H|H]; discriminate H.
  - intros b Hb.
    destruct (constant_control_dec (OdeOpt.control_type ode_opt))
      as [Hc|Hc]; [exact Hc |].
    destruct (collocation_init_raises ode ode_opt Hp Hdeg Hlen Hmode Hc)
      as (H & _).
    rewrite H in Hb. discriminate Hb.
  - intros b Hb.
    destruct (constant_control_dec (OdeOpt.control_type ode_opt))
      as [Hc|Hc]; [exact Hc |].
    destruct (collocation_init_raises ode ode_opt Hp Hdeg Hlen Hmode Hc)
      as (_ & H).
    rewrite H in Hb. discriminate Hb.
  - intros self u t. apply COLLOCATION_get_u_constant.
Qed.

(** In the explicit mode, for states of [n] components, the defects
    [COLLOCATION.dxdt] returns are the [vertcat] of one defect per node
    [j = 1 .. degree]; the defect of node [j] is the sum of the node
    states weighted by column [j] of the table [_c] the object holds,
    minus the duration times the dynamics at the time, state and control
    of node [j]; their concatenation has [degree * n] components. *)
Lemma COLLOCATION_dxdt_explicit_defects (self : COLLOCATION)
    (states : list vec) (controls : matrix) (params : vec)
    (algebraic_states : matrix) (n : nat)
    (states_end : vec) (xall : matrix) (defects : vec) :
  defects_type self = EXPLICIT ->
  Forall (fun s => length s = n) states ->
  dynamics_dimension self n ->
  COLLOCATION_dxdt collocation_points self states controls params
    algebraic_states = Ok (states_end, xall, defects) ->
  exists per_node : list vec,
    defects = vertcat per_node /\
    length per_node = degree self /\
    length defects = (degree self * n)%nat /\
    forall j, (1 <= j <= degree self)%nat ->
      exists defect,
        per_node !! (j - 1)%nat = Some defect /\
        explicit_defect_at collocation_points self states controls params
          algebraic_states n j defect.
Proof.
  intros Hmode Hall Hdim H.
  destruct (COLLOCATION_dxdt_defects _ _ _ _ _ _ _ _ _ Hmode Hall Hdim H)
    as (per_node & Hdefects & Hlen & Hnodes).
  cbn [snd] in Hlen, Hnodes.
  assert (Hlen' : length per_node = degree self) by lia.
  exists per_node. repeat split; [exact Hdefects | exact Hlen' | |].
  - rewrite Hdefects. unfold vertcat. rewrite (concat_length n), Hlen'.
    + reflexivity.
    + apply Forall_lookup. intros i defect Hi.
      destruct (Hnodes (S i)) as (defect' & Hd' & Hl' & _).
      * apply lookup_lt_Some in Hi. lia.
      * replace (S i - 1)%nat with i in Hd' by lia.
        rewrite Hi in Hd'. inversion Hd'. exact Hl'.
  - intros j Hj. destruct (Hnodes j) as (defect & Hd & _ & Hdef); [lia |].
    exists defect. split; assumption.
Qed.

End Collocation.

(** ** The collocation family on examples *)

Lemma radau_supplies_1 : supplies_points radau_points 1 "radau".
Proof. exists [1]. split; reflexivity. Qed.

Lemma radau_supplies_3 : supplies_points radau_points 3 "radau".
Proof. eexists. split; reflexivity. Qed.

Lemma decay_column (t x : vec) (u : matrix) (p : vec) (a : matrix) :
  (0 < length (decay t x u p a))%nat.
Proof. simpl. lia. Qed.

Lemma example_COLLOCATION_init (dup : bool) :
  exists b states_end defects,
    COLLOCATION_init radau_points (example_COLLOCATION_ode 3)
      (example_opt no_quaternion CONSTANT dup 1 3) = Ok b /\
    degree (object b) = 3%nat /\
    x_sym (object b) = replicate 5 [1; 0; 0; 0] /\
    duplicate_starting_point (object b) = dup /\
    function b
    = (states_end,
       if dup then replicate 5 [1; 0; 0; 0]
       else drop 1 (replicate 5 [1; 0; 0; 0]),
       defects).
Proof.
  apply (COLLOCATION_init_returns radau_points (example_COLLOCATION_ode 3)
           (example_opt no_quaternion CONSTANT dup 1 3)).
  - exact radau_supplies_3.
  - simpl. lia.
  - now left.
  - intros. apply decay_column.
  - discriminate.
Qed.

Lemma shape_contracts_witness :
  (RK_shape_xf example_RK5 = [4%nat; 1%nat] /\
   RK_shape_xall example_RK5 = [4%nat; 6%nat]) /\
  exists b,
    COLLOCATION_init radau_points (example_COLLOCATION_ode 3)
      (example_opt no_quaternion CONSTANT true 1 3) = Ok b /\
    COLLOCATION_shape_xf (object b) = [4%nat; 4%nat] /\
    COLLOCATION_shape_xall (object b) = [4%nat; 5%nat].
Proof.
  split.
  - destruct (proj1 (shape_contracts radau_points) example_RK5
                eq_refl eq_refl) as (Hxf & Hxall & _).
    split; assumption.
  - destruct (example_COLLOCATION_init true)
      as (b & states_end & defects & Hb & Hdeg & Hx & _).
    exists b. split; [exact Hb |].
    destruct (proj2 (shape_contracts radau_points) (object b) Hdeg)
      as (Hxf & Hxall & _).
    + rewrite Hx. reflexivity.
    + rewrite Hx. repeat constructor.
    + split; assumption.
Defined.

(** C2, as stated, fails when the start is not duplicated: the
    [COLLOCATION] object of degree 3 built for five states of four
    components announces [shape_xall = [4, 5]] and returns a trajectory of
    four columns. *)
Lemma collocation_trajectory_four_columns :
  exists b states_end xall defects,
    COLLOCATION_init radau_points (example_COLLOCATION_ode 3)
      (example_opt no_quaternion CONSTANT false 1 3) = Ok b /\
    degree (object b) = 3%nat /\
    duplicate_starting_point (object b) = false /\
    COLLOCATION_shape_xall (object b) = [4%nat; 5%nat] /\
    function b = (states_end, xall, defects) /\
    length xall = 4%nat /\
    length xall <> 5%nat.
Proof.
  destruct (example_COLLOCATION_init false)
    as (b & states_end & defects & Hb & Hdeg & Hx & Hdup & Hf).
  exists b, states_end, (drop 1 (replicate 5 [1; 0; 0; 0])), defects.
  repeat split; try assumption.
  - unfold COLLOCATION_shape_xall, COLLOCATION_x_sym_modified.
    rewrite Hdup, Hx, Hdeg. reflexivity.
  - simpl. lia.
Qed.

Lemma collocation_family_control_policies_witness :
  COLLOCATION_init radau_points (example_COLLOCATION_ode 1)
    (example_opt no_quaternion LINEAR_CONTINUOUS false 1 1)
  = Raise not_with_COLLOCATION /\
  IRK_init radau_points no_solver (example_COLLOCATION_ode 1)
    (example_opt no_quaternion LINEAR_CONTINUOUS false 1 1)
  = Raise not_with_COLLOCATION.
Proof.
  refine (proj1 (collocation_family_control_policies radau_points no_solver
                   (example_COLLOCATION_ode 1)
                   (example_opt no_quaternion LINEAR_CONTINUOUS false 1 1)
                   radau_supplies_1 _ _ _) eq_refl).
  - simpl. lia.
  - simpl. lia.
  - discriminate.
Defined.

Lemma example_COLLOCATION_well_formed (c : ControlType) :
  well_formed_tables (example_COLLOCATION c).
Proof. repeat split. repeat constructor. Qed.

Lemma decay_dimension (c : ControlType) (n : nat) :
  dynamics_dimension (example_COLLOCATION c) n.
Proof.
  intros t x u p a k Hx H. inversion H. unfold vscale.
  now rewrite length_map.
Qed.

(** * Further properties of the module *)

(** ** The linear-continuous control policy *)

Lemma interpolation_at_0 (u0 u1 : vec) :
  length u0 = length u1 -> u0 +v (u1 -v u0) v* 0 = u0.
Proof.
  revert u1. induction u0 as [|r0 u0 IH]; intros [|r1 u1] Hlen;
    try discriminate Hlen; [reflexivity |].
  cbn [vadd vsub vscale_r zip_with map] in *. f_equal; [lra |].
  apply IH. now inversion Hlen.
Qed.

Lemma interpolation_at_1 (u0 u1 : vec) :
  length u0 = length u1 -> u0 +v (u1 -v u0) v* 1 = u1.
Proof.
  revert u1. induction u0 as [|r0 u0 IH]; intros [|r1 u1] Hlen;
    try discriminate Hlen; [reflexivity |].
  cbn [vadd vsub vscale_r zip_with map] in *. f_equal; [lra |].
  apply IH. now inversion Hlen.
Qed.

(** X1: under the linear-continuous policy, on an interval of non-zero
    duration and for two control columns of the same length, [get_u]
    returns the first column at the start of the interval and the second
    column at its end. *)
Theorem get_u_linear_endpoints {X} (self : Integrator X) (u0 u1 : vec)
    (rest : matrix) :
  control_type self = LINEAR_CONTINUOUS ->
  snd (t_span_sym self) <> 0 ->
  length u0 = length u1 ->
  get_u self (u0 :: u1 :: rest) (fst (t_span_sym self)) = Ok [u0] /\
  get_u self (u0 :: u1 :: rest)
    (fst (t_span_sym self) + snd (t_span_sym self)) = Ok [u1].
Proof.
  intros Hpolicy Hduration Hlen. unfold get_u. rewrite Hpolicy.
  cbn [col lookup list_lookup bind]. split; do 2 f_equal.
  - replace ((fst (t_span_sym self) - fst (t_span_sym self))
             / snd (t_span_sym self)) with 0 by (now field).
    now apply interpolation_at_0.
  - replace ((fst (t_span_sym self) + snd (t_span_sym self)
              - fst (t_span_sym self)) / snd (t_span_sym self))
      with 1 by (now field).
    now apply interpolation_at_1.
Qed.

Lemma get_u_linear_endpoints_witness :
  get_u (example_RK_with RK4 decay LINEAR_CONTINUOUS 2) [[3]; [5]] 0
  = Ok [[3]] /\
  get_u (example_RK_with RK4 decay LINEAR_CONTINUOUS 2) [[3]; [5]] (0 + 1)
  = Ok [[5]].
Proof.
  apply (get_u_linear_endpoints
           (example_RK_with RK4 decay LINEAR_CONTINUOUS 2) [3] [5] []).
  - reflexivity.
  - simpl. lra.
  - reflexivity.
Defined.

(** ** What the Runge-Kutta classes accept *)

Lemma get_u_linear_returns {X} (self : Integrator X) (u : matrix) (t : R) :
  control_type self = LINEAR_CONTINUOUS -> (2 <= length u)%nat ->
  exists v, get_u self u t = Ok v.
Proof.
  intros Hpolicy Hlen. unfold get_u. rewrite Hpolicy.
  destruct u as [|u0 [|u1 rest]]; try (simpl in Hlen; lia).
  cbn [col lookup list_lookup bind]. eauto.
Qed.

Lemma get_u_linear_raises {X} (self : Integrator X) (u : matrix) (t : R) :
  control_type self = LINEAR_CONTINUOUS -> (length u < 2)%nat ->
  get_u self u t = Raise CasadiError.
Proof.
  intros Hpolicy Hlen. unfold get_u. rewrite Hpolicy.
  destruct u as [|u0 [|u1 rest]]; try (simpl in Hlen; lia); reflexivity.
Qed.

Lemma get_u_none_raises {X} (self : Integrator X) (u : matrix) (t : R) :
  control_type self = NONE ->
  get_u self u t = Raise (RuntimeError "ControlType not implemented yet").
Proof. intros Hpolicy. unfold get_u. now rewrite Hpolicy. Qed.

(** Every [next_x] asks [get_u] for the control at the start of the step
    before anything else. *)
Lemma RK_next_x_raises (self : RK) (t0 : R) (x_prev : vec) (u : matrix)
    (p : vec) (a : matrix) (e : exception) :
  get_u self u t0 = Raise e -> RK_next_x self t0 x_prev u p a = Raise e.
Proof.
  intros H. unfold RK_next_x.
  destruct (RK_class_of self);
    unfold RK1_next_x, RK2_next_x, RK4_next_x, RK8_next_x; cbv zeta;
    now rewrite H.
Qed.

Lemma RK_dxdt_raises (self : RK) (states : vec) (u : matrix) (p : vec)
    (a : matrix) (e : exception) :
  (1 <= _n_step self)%nat ->
  (forall t, get_u self u t = Raise e) ->
  RK_dxdt self states u p a = Raise e.
Proof.
  intros Hn Hget. unfold RK_dxdt. cbv zeta. unfold range.
  replace (_n_step self + 1 - 1)%nat with (S (_n_step self - 1)) by lia.
  cbn [seq for_each]. apply bind_Raise. apply bind_Raise.
  unfold RK_dxdt_body. cbv zeta.
  unfold cx_zeros. replace (_n_step self + 1)%nat with (S (_n_step self)) by lia.
  cbn [replicate insert list_insert col lookup list_lookup Nat.sub bind].
  apply bind_Raise. apply RK_next_x_raises. apply Hget.
Qed.

(** X2: for each of the classes [RK1], [RK2], [RK4], [RK8] with at least
    one finite element, the construction fails with the [RuntimeError] of
    [get_u] when the control policy is none of the three known ones, and
    with CasADi's out-of-range error when the policy is linear-continuous
    and the control symbol has fewer than two columns. *)
Theorem RK_init_rejects (c : RK_class) (ode : Ode.t vec)
    (ode_opt : OdeOpt.t) :
  (1 <= OdeOpt.number_of_finite_elements ode_opt)%nat ->
  (OdeOpt.control_type ode_opt = NONE ->
   RK_init c ode ode_opt
   = Raise (RuntimeError "ControlType not implemented yet")) /\
  (OdeOpt.control_type ode_opt = LINEAR_CONTINUOUS ->
   (length (Ode.u ode) < 2)%nat ->
   RK_init c ode ode_opt = Raise CasadiError).
Proof.
  intros Hn. split.
  - intros Hpolicy. unfold RK_init. cbv zeta. apply bind_Raise.
    apply RK_dxdt_raises; [exact Hn |].
    intros t. now apply get_u_none_raises.
  - intros Hpolicy Hlen. unfold RK_init. cbv zeta. apply bind_Raise.
    apply RK_dxdt_raises; [exact Hn |].
    intros t. now apply get_u_linear_raises.
Qed.

Lemma RK_init_rejects_witness :
  RK_init RK4 (example_ode decay [1; 0; 0; 0] [[0]])
    (example_opt no_quaternion NONE false 2 1)
  = Raise (RuntimeError "ControlType not implemented yet") /\
  RK_init RK4 (example_ode decay [1; 0; 0; 0] [[0]])
    (example_opt no_quaternion LINEAR_CONTINUOUS false 2 1)
  = Raise CasadiError.
Proof.
  split.
  - apply (RK_init_rejects RK4 (example_ode decay [1; 0; 0; 0] [[0]])
             (example_opt no_quaternion NONE false 2 1));
      [simpl; lia | reflexivity].
  - apply (RK_init_rejects RK4 (example_ode decay [1; 0; 0; 0] [[0]])
             (example_opt no_quaternion LINEAR_CONTINUOUS false 2 1));
      [simpl; lia | reflexivity | simpl; lia].
Defined.

(** X3: with zero finite elements [RK.dxdt] returns the state it was given
    as the end state and as the only column of the trajectory; it calls
    neither the dynamics nor [get_u], so that no control policy makes it
    raise. *)
Theorem RK_no_finite_element (self : RK) (states : vec) (u : matrix)
    (p : vec) (a : matrix) :
  _n_step self = 0%nat ->
  RK_dxdt self states u p a = Ok (states, [states]).
Proof.
  intros Hn. unfold RK_dxdt. cbv zeta. rewrite Hn. reflexivity.
Qed.

Lemma RK_no_finite_element_witness :
  RK_dxdt (example_RK_with RK4 decay NONE 0) [1; 0; 0; 0] [] [] []
  = Ok ([1; 0; 0; 0], [[1; 0; 0; 0]]).
Proof.
  apply (RK_no_finite_element (example_RK_with RK4 decay NONE 0)).
  reflexivity.
Defined.

(** ** The Runge-Kutta classes on linear dynamics *)

Lemma vscale_1 (x : vec) : 1 *v x = x.
Proof.
  unfold vscale. induction x as [|r x IH]; [reflexivity |].
  cbn [map]. f_equal; [lra | exact IH].
Qed.

Lemma vscale_vscale (c d : R) (x : vec) : c *v (d *v x) = (c * d) *v x.
Proof.
  unfold vscale. rewrite map_map. apply map_ext. intros r. lra.
Qed.

Lemma fun_col_linear (self : RK) (lam : R) (t x : vec) (u : matrix)
    (p : vec) (a : matrix) :
  fun_ self = linear lam -> ode_idx self = 0%nat ->
  fun_col self t x u p a = Ok (lam *v x).
Proof. intros Hf Hidx. unfold fun_col. now rewrite Hf, Hidx. Qed.

Ltac linear_stages Hu Hf Hidx :=
  unfold RK_next_x, RK1_next_x, RK2_next_x, RK4_next_x, RK8_next_x;
  cbv zeta;
  rewrite ?(get_u_constant _ _ _ Hu); cbn [bind];
  repeat (rewrite (fun_col_linear _ _ _ _ _ _ _ Hf Hidx); cbn [bind]).

Lemma RK_next_x_linear (self : RK) (lam t0 : R) (x : vec) (u : matrix)
    (p : vec) (a : matrix) :
  fun_ self = linear lam -> ode_idx self = 0%nat ->
  constant_control (control_type self) ->
  RK_next_x self t0 x u p a
  = Ok (amplification (RK_class_of self) (lam * RK_h self) *v x).
Proof.
  intros Hf Hidx Hu. unfold RK_next_x.
  destruct (RK_class_of self); linear_stages Hu Hf Hidx; f_equal;
    unfold amplification; generalize (RK_h self); intros h;
    induction x as [|r x IH]; try reflexivity;
    cbn [vadd vsub vscale zip_with map] in *;
    (f_equal; [field | exact IH]).
Qed.

(** X4: on the dynamics [dx/dt = lam x], with a constant control policy,
    one step of [RK1], [RK2] and [RK4] multiplies the state by the Taylor
    polynomial of the exponential at [z = lam h], of degree 1, 2 and 4. *)
Theorem RK_linear_step (self : RK) (lam t0 : R) (x : vec) (u : matrix)
    (p : vec) (a : matrix) :
  fun_ self = linear lam -> ode_idx self = 0%nat ->
  constant_control (control_type self) ->
  RK_class_of self <> RK8 ->
  RK_next_x self t0 x u p a
  = Ok (amplification (RK_class_of self) (lam * RK_h self) *v x).
Proof.
  intros Hf Hidx Hu _. now apply RK_next_x_linear.
Qed.

Lemma RK_linear_step_witness :
  RK_next_x (example_RK_with RK4 (linear (-1)) CONSTANT 2) 0 [1; 0; 0; 0]
    [[0]] [] []
  = Ok (amplification RK4
          (-1 * RK_h (example_RK_with RK4 (linear (-1)) CONSTANT 2))
        *v [1; 0; 0; 0]).
Proof.
  apply (RK_linear_step (example_RK_with RK4 (linear (-1)) CONSTANT 2) (-1)).
  - reflexivity.
  - reflexivity.
  - now left.
  - discriminate.
Defined.

(** X5: on the dynamics [dx/dt = lam x], one step of [RK8] as coded
    multiplies the state by a polynomial in [z = lam h] whose coefficient
    of degree 4 is 1397/33600, not the 1/24 of the exponential: the step
    agrees with the exponential to the third order only. *)
Theorem RK8_linear_step (self : RK) (lam t0 : R) (x : vec) (u : matrix)
    (p : vec) (a : matrix) :
  fun_ self = linear lam -> ode_idx self = 0%nat ->
  constant_control (control_type self) ->
  RK_class_of self = RK8 ->
  RK_next_x self t0 x u p a
  = Ok (amplification RK8 (lam * RK_h self) *v x) /\
  forall z,
    amplification RK8 z - amplification RK4 z
    = - (z ^ 4) / 11200 + z ^ 5 / 120 + z ^ 6 / 720 + z ^ 7 / 5040
      + z ^ 8 / 40320 + z ^ 9 / 2177280 + z ^ 10 / 2177280.
Proof.
  intros Hf Hidx Hu Hclass. split.
  - rewrite <- Hclass. now apply RK_next_x_linear.
  - intros z. unfold amplification. field.
Qed.

Lemma RK8_linear_step_witness :
  RK_next_x (example_RK_with RK8 (linear (-1)) CONSTANT 2) 0 [1; 0; 0; 0]
    [[0]] [] []
  = Ok (amplification RK8
          (-1 * RK_h (example_RK_with RK8 (linear (-1)) CONSTANT 2))
        *v [1; 0; 0; 0]).
Proof.
  apply (RK8_linear_step (example_RK_with RK8 (linear (-1)) CONSTANT 2) (-1)).
  - reflexivity.
  - reflexivity.
  - now left.
  - reflexivity.
Defined.

Lemma linear_has_column (self : RK) (lam : R) :
  fun_ self = linear lam -> ode_idx self = 0%nat -> has_ode_column self.
Proof. intros Hf Hidx t x u p a. rewrite Hf, Hidx. simpl. lia. Qed.

(** X6: for a model without quaternion, on the dynamics [dx/dt = lam x]
    with a constant control policy, [RK.dxdt] returns the geometric
    trajectory: column [i] is the initial state times the [i]-th power of
    the amplification of one step of size [h = duration / _n_step], and the
    end state is the initial state times its [_n_step]-th power. *)
Theorem RK_linear_trajectory (self : RK) (lam : R) (states : vec)
    (u : matrix) (p : vec) (a : matrix) :
  fun_ self = linear lam -> ode_idx self = 0%nat ->
  constant_control (control_type self) ->
  nb_quaternions (model self) = 0%nat ->
  let g := amplification (RK_class_of self)
             (lam * (snd (t_span_sym self) / INR (_n_step self))) in
  RK_dxdt self states u p a
  = Ok (g ^ _n_step self *v states,
        map (fun i => g ^ i *v states) (seq 0 (_n_step self + 1))).
Proof.
  intros Hf Hidx Hu Hq g.
  destruct (RK_dxdt_returns self states u p a Hu
              (linear_has_column self lam Hf Hidx)) as (xf & xall & H).
  rewrite H.
  destruct (RK_dxdt_columns _ _ _ _ _ _ _ H) as ((Hlen & H0 & Hcols) & Hlast).
  assert (Hcol : forall i, (i <= _n_step self)%nat ->
                           xall !! i = Some (g ^ i *v states)).
  { induction i as [|i IH]; intros Hi.
    - rewrite H0. cbn [pow]. now rewrite vscale_1.
    - destruct (Hcols (S i)) as (x_prev & y & Hprev & Hy & Hxi); [lia |].
      replace (S i - 1)%nat with i in Hprev by lia.
      rewrite IH in Hprev by lia. inversion Hprev; subst x_prev.
      rewrite (RK_next_x_linear self lam _ _ _ _ _ Hf Hidx Hu) in Hy.
      inversion Hy; subst y.
      rewrite Hxi. unfold RK_renormalize. rewrite Hq. cbn [Nat.ltb Nat.leb].
      f_equal. rewrite vscale_vscale. reflexivity. }
  do 2 f_equal.
  - rewrite Hcol in Hlast by lia. now inversion Hlast.
  - apply list_eq. intros i.
    destruct (decide (i <= _n_step self)%nat) as [Hi|Hi].
    + rewrite (Hcol i Hi), list_lookup_fmap, lookup_seq_lt by lia.
      reflexivity.
    + rewrite !lookup_ge_None_2; [reflexivity | |].
      * rewrite length_map, length_seq. lia.
      * lia.
Qed.

Lemma RK_linear_trajectory_witness :
  RK_dxdt (example_RK_with RK4 (linear (-1)) CONSTANT 2) [1; 0; 0; 0]
    [[0]] [] []
  = Ok (amplification RK4 (-1 * (1 / INR 2)) ^ 2 *v [1; 0; 0; 0],
        map (fun i => amplification RK4 (-1 * (1 / INR 2)) ^ i
                      *v [1; 0; 0; 0])
          (seq 0 (2 + 1))).
Proof.
  apply (RK_linear_trajectory
           (example_RK_with RK4 (linear (-1)) CONSTANT 2) (-1)).
  - reflexivity.
  - reflexivity.
  - now left.
  - reflexivity.
Defined.

(** ** The time given to the dynamics *)

Lemma fun_col_clock (self : RK) (t0 h : R) (x : vec) (u : matrix)
    (p : vec) (a : matrix) :
  fun_ self = clock -> ode_idx self = 0%nat ->
  fun_col self [t0; h] x u p a = Ok (map (fun _ => t0) x).
Proof. intros Hf Hidx. unfold fun_col. now rewrite Hf, Hidx. Qed.

(** X7: on the dynamics [dx/dt = t], whose exact increment over a step is
    [h t0 + h^2/2], one step adds [h t0] to every component for [RK1],
    the exact increment for [RK2] and [RK4], and [h t0 + 47/1050 h^2] for
    [RK8] as coded: the times [RK8.next_x] gives to the dynamics are not
    the times at which it asks for the control. *)
Theorem RK_clock_step (self : RK) (t0 : R) (x : vec) (u : matrix)
    (p : vec) (a : matrix) :
  fun_ self = clock -> ode_idx self = 0%nat ->
  constant_control (control_type self) ->
  RK_next_x self t0 x u p a
  = Ok (map (fun r => r + clock_increment (RK_class_of self) t0 (RK_h self))
          x).
Proof.
  intros Hf Hidx Hu. unfold RK_next_x.
  destruct (RK_class_of self);
    unfold RK1_next_x, RK2_next_x, RK4_next_x, RK8_next_x; cbv zeta;
    rewrite ?(get_u_constant _ _ _ Hu); cbn [bind];
    repeat (rewrite (fun_col_clock _ _ _ _ _ _ _ Hf Hidx); cbn [bind]);
    f_equal; unfold clock_increment; generalize (RK_h self); intros h;
    induction x as [|r x IH]; try reflexivity;
    cbn [vadd vsub vscale zip_with map] in *;
    (f_equal; first [exact IH | field]).
Qed.

Lemma RK_clock_step_witness :
  RK_next_x (example_RK_with RK8 clock CONSTANT 2) 3 [1; 0; 0; 0]
    [[0]] [] []
  = Ok (map (fun r => r + clock_increment RK8 3
                        (RK_h (example_RK_with RK8 clock CONSTANT 2)))
          [1; 0; 0; 0]).
Proof.
  apply (RK_clock_step (example_RK_with RK8 clock CONSTANT 2) 3).
  - reflexivity.
  - reflexivity.
  - now left.
Defined.

(** ** The shape of the Runge-Kutta trajectory *)

Ltac vlen :=
  unfold vadd, vsub, vscale, vscale_r, vdiv;
  repeat (rewrite length_zip_with || rewrite length_map); lia.

Ltac stage_lengths Hdim H :=
  repeat match type of H with
    | bind (get_u _ _ _) _ = Ok _ =>
        let v := fresh "v" in
        apply bind_Ok in H as (v & _ & H)
    | bind (fun_col _ _ _ _ _ _) _ = Ok _ =>
        let k := fresh "k" in
        let Hk := fresh "Hk" in
        apply bind_Ok in H as (k & Hk & H);
        apply Hdim in Hk; [| vlen]
    end.

Lemma RK_next_x_length (self : RK) (n : nat) (t0 : R) (x y : vec)
    (u : matrix) (p : vec) (a : matrix) :
  dynamics_dimension self n -> length x = n ->
  RK_next_x self t0 x u p a = Ok y -> length y = n.
Proof.
  intros Hdim Hx H. unfold RK_next_x in H.
  destruct (RK_class_of self);
    unfold RK1_next_x, RK2_next_x, RK4_next_x, RK8_next_x in H;
    cbv zeta in H; stage_lengths Hdim H; inversion H; vlen.
Qed.

(** X8: when the dynamics function returns slopes of the dimension [n] of
    the state and the model's renormalization keeps that dimension, the
    trajectory [RK.dxdt] returns has [_n_step + 1] columns of [n]
    components, the shape [shape_xall] announces, and the end state has
    [n] components. *)
Theorem RK_trajectory_shape (self : RK) (n : nat) (states : vec)
    (u : matrix) (p : vec) (a : matrix) (xf : vec) (xall : matrix) :
  dynamics_dimension self n ->
  (forall q, length q = n ->
             length (normalize_state_quaternions (model self) q) = n) ->
  length states = n ->
  length (x_sym self) = n ->
  RK_dxdt self states u p a = Ok (xf, xall) ->
  length xf = n /\
  Forall (fun c => length c = n) xall /\
  [n; length xall] = RK_shape_xall self.
Proof.
  intros Hdim Hnorm Hstates Hsym H.
  destruct (RK_dxdt_columns _ _ _ _ _ _ _ H) as ((Hlen & H0 & Hcols) & Hlast).
  assert (Hcol : forall i c, (i <= _n_step self)%nat ->
                             xall !! i = Some c -> length c = n).
  { induction i as [|i IH]; intros c Hi Hc.
    - rewrite H0 in Hc. inversion Hc. now subst c.
    - destruct (Hcols (S i)) as (x_prev & y & Hprev & Hy & Hxi); [lia |].
      replace (S i - 1)%nat with i in Hprev by lia.
      rewrite Hxi in Hc. inversion Hc; subst c.
      assert (Hy' : length y = n).
      { eapply RK_next_x_length; [exact Hdim | | exact Hy].
        apply (IH x_prev); [lia | exact Hprev]. }
      unfold RK_renormalize.
      destruct (0 <? nb_quaternions (model self))%nat; auto. }
  repeat split.
  - apply (Hcol (_n_step self)); [lia | exact Hlast].
  - apply Forall_lookup. intros i c Hc. apply (Hcol i); [| exact Hc].
    apply lookup_lt_Some in Hc. lia.
  - unfold RK_shape_xall. now rewrite Hsym, Hlen.
Qed.

Lemma linear_dimension (c : RK_class) (lam : R) (policy : ControlType)
    (k n : nat) :
  dynamics_dimension (example_RK_with c (linear lam) policy k) n.
Proof.
  intros t x u p a y Hx H. inversion H. unfold vscale.
  now rewrite length_map.
Qed.

Lemma RK_trajectory_shape_witness :
  exists xf xall,
    RK_dxdt (example_RK_with RK8 (linear (-1)) CONSTANT 2) [1; 0; 0; 0]
      [[0]] [] [] = Ok (xf, xall) /\
    length xf = 4%nat /\
    Forall (fun c => length c = 4%nat) xall /\
    [4%nat; length xall]
    = RK_shape_xall (example_RK_with RK8 (linear (-1)) CONSTANT 2).
Proof.
  destruct (RK_dxdt_returns (example_RK_with RK8 (linear (-1)) CONSTANT 2)
              [1; 0; 0; 0] [[0]] [] []) as (xf & xall & H).
  - now left.
  - intros t x u p a. simpl. lia.
  - exists xf, xall. split; [exact H |].
    apply (RK_trajectory_shape
             (example_RK_with RK8 (linear (-1)) CONSTANT 2) 4 [1; 0; 0; 0]
             [[0]] [] [] xf xall); try reflexivity; try exact H.
    + apply linear_dimension.
    + intros q Hq. exact Hq.
Defined.

(** ** What the trapezoidal scheme needs *)

Lemma col_raises (m : matrix) (i : nat) :
  (length m <= i)%nat -> col m i = Raise CasadiError.
Proof. intros H. unfold col. now rewrite lookup_ge_None_2. Qed.

Lemma col_Raise (m : matrix) (i : nat) (e : exception) :
  col m i = Raise e -> e = CasadiError.
Proof. unfold col. destruct (m !! i); intros H; now inversion H. Qed.

Lemma col_returns (m : matrix) (i : nat) :
  (i < length m)%nat -> exists c, col m i = Ok c.
Proof.
  intros H. unfold col. destruct (lookup_lt_is_Some_2 m i H) as [c ->]. eauto.
Qed.

(** X9: [TRAPEZOIDAL.dxdt] reads two columns of the states, two columns of
    the controls and, unless the algebraic states are empty, two columns of
    the algebraic states: when the dynamics function has the column read,
    it returns exactly when they are there, and raises CasADi's
    out-of-range error when one of them is missing. *)
Theorem TRAPEZOIDAL_needs_both_ends (self : TRAPEZOIDAL)
    (states controls : matrix) (params : vec) (algebraic_states : matrix) :
  has_ode_column self ->
  ((2 <= length states)%nat /\ (2 <= length controls)%nat /\
   length algebraic_states <> 1%nat ->
   exists xf xall,
     TRAPEZOIDAL_dxdt self states controls params algebraic_states
     = Ok (xf, xall)) /\
  ((length states < 2)%nat \/ (length controls < 2)%nat \/
   length algebraic_states = 1%nat ->
   TRAPEZOIDAL_dxdt self states controls params algebraic_states
   = Raise CasadiError).
Proof.
  intros Hf. unfold TRAPEZOIDAL_dxdt. cbv zeta. split.
  - intros (Hs & Hc & Ha).
    destruct (col_returns states 1) as [x_end Hx_end]; [lia |].
    destruct (col_returns states 0) as [x_start Hx_start]; [lia |].
    destruct (col_returns controls 0) as [u_start Hu_start]; [lia |].
    destruct (col_returns controls 1) as [u_end Hu_end]; [lia |].
    rewrite Hx_end, Hu_start, Hu_end. cbn [bind].
    assert (Halg : exists pair,
               (if decide (shape algebraic_states <> (0%nat, 0%nat)) then
                  a0 <- col algebraic_states 0 ;;
                  a1 <- col algebraic_states 1 ;;
                  Ok ([a0], [a1])
                else Ok (algebraic_states, algebraic_states)) = Ok pair).
    { destruct (decide (shape algebraic_states <> (0%nat, 0%nat))) as [n|n];
        [| eauto].
      destruct algebraic_states as [|a0 [|a1 rest]];
        [exfalso; now apply n | simpl in Ha; lia | cbn; eauto]. }
    destruct Halg as [pair ->]. cbn [bind].
    rewrite Hx_start. cbn [bind].
    unfold cx_zeros. cbn [replicate insert list_insert col lookup list_lookup
                            bind].
    unfold TRAPEZOIDAL_next_x. cbv zeta.
    repeat match goal with
      | |- context [fun_col ?s ?t ?x ?u ?p ?a] =>
          let k := fresh "k" in
          let Hk := fresh "Hk" in
          destruct (fun_col_returns s t x u p a Hf) as [k Hk];
          rewrite Hk; cbn [bind]
      end.
    destruct (0 <? nb_quaternions (model self))%nat;
      cbn [insert list_insert col lookup list_lookup bind]; eauto.
  - intros [Hs | [Hc | Ha]].
    + now rewrite (col_raises states 1) by lia.
    + destruct (col states 1) as [x_end|e] eqn:Hx_end; cbn [bind];
        [| now rewrite (col_Raise _ _ _ Hx_end)].
      destruct (col controls 0) as [u_start|e] eqn:Hu_start; cbn [bind];
        [| now rewrite (col_Raise _ _ _ Hu_start)].
      now rewrite (col_raises controls 1) by lia.
    + destruct algebraic_states as [|a0 [|a1 rest]]; try discriminate Ha.
      destruct (col states 1) as [x_end|e] eqn:Hx_end; cbn [bind];
        [| now rewrite (col_Raise _ _ _ Hx_end)].
      destruct (col controls 0) as [u_start|e] eqn:Hu_start; cbn [bind];
        [| now rewrite (col_Raise _ _ _ Hu_start)].
      destruct (col controls 1) as [u_end|e] eqn:Hu_end; cbn [bind];
        [| now rewrite (col_Raise _ _ _ Hu_end)].
      destruct (decide (shape [a0] <> (0%nat, 0%nat))) as [_|Hn];
        [reflexivity |].
      exfalso. apply Hn. unfold shape. simpl. intros Habs. inversion Habs.
Qed.

Lemma TRAPEZOIDAL_needs_both_ends_witness :
  (exists xf xall,
      TRAPEZOIDAL_dxdt (example_TRAPEZOIDAL no_quaternion)
        [[2; 0; 0; 0]; [2; 0; 0; 0]] [[0]; [0]] [] [] = Ok (xf, xall)) /\
  TRAPEZOIDAL_dxdt (example_TRAPEZOIDAL no_quaternion)
    [[2; 0; 0; 0]] [[0]; [0]] [] [] = Raise CasadiError.
Proof.
  assert (Hf : has_ode_column (example_TRAPEZOIDAL no_quaternion))
    by (intros t x u p a; simpl; lia).
  split.
  - apply (proj1 (TRAPEZOIDAL_needs_both_ends _ _ _ _ _ Hf)).
    simpl. repeat split; lia.
  - apply (proj2 (TRAPEZOIDAL_needs_both_ends _ _ _ _ _ Hf)).
    left. simpl. lia.
Defined.

(** ** The tables of the collocation family *)

Section CollocationTables.

Variable collocation_points : nat -> string -> result (list R).

Lemma initialize_body_raises (d : nat) (m : string)
    (cd : list (list R) * list R) (e : exception) :
  collocation_points d m = Raise e ->
  initialize_body collocation_points d m 0 cd = Raise e.
Proof.
  intros Hp.
  assert (Ht : forall r, integration_time_at collocation_points d m r
                         = Raise e).
  { intros r. unfold integration_time_at, integration_time.
    now rewrite Hp. }
  unfold initialize_body. cbv zeta. destruct d as [|d].
  - cbn [lagrange range Nat.add Nat.sub seq for_each Nat.eqb negb bind].
    rewrite Ht. reflexivity.
  - apply bind_Raise. unfold lagrange, range.
    replace (S d + 1 - 0)%nat with (S (S d)) by lia.
    cbn [seq for_each Nat.eqb negb bind].
    rewrite !Ht. reflexivity.
Qed.

(** X10: [COLLOCATION._initialize] succeeds when CasADi supplies [degree]
    points, and then the object keeps the attributes it was given, has the
    degree and the method of the options, a table [_c] of
    [(degree + 1) x (degree + 1)] entries and a table [_d] of [degree + 1]
    entries; when CasADi refuses the degree or the method, it fails with
    CasADi's exception. *)
Theorem COLLOCATION_initialize_outcome (base : Integrator (list vec))
    (ode_opt : OdeOpt.t) :
  (supplies_points collocation_points
     (OdeOpt.irk_polynomial_interpolation_degree ode_opt)
     (OdeOpt.method ode_opt) ->
   exists self,
     COLLOCATION_initialize collocation_points base ode_opt = Ok self /\
     COLLOCATION_super self = base /\
     degree self = OdeOpt.irk_polynomial_interpolation_degree ode_opt /\
     method self = OdeOpt.method ode_opt /\
     length (_d self) = (degree self + 1)%nat /\
     length (_c self) = (degree self + 1)%nat /\
     Forall (fun row => length row = (degree self + 1)%nat) (_c self)) /\
  (forall e,
      collocation_points
        (OdeOpt.irk_polynomial_interpolation_degree ode_opt)
        (OdeOpt.method ode_opt) = Raise e ->
      COLLOCATION_initialize collocation_points base ode_opt = Raise e).
Proof.
  split.
  - intros Hp.
    destruct (COLLOCATION_initialize_returns collocation_points base ode_opt
                Hp) as (self & H & Hsuper & Hdeg & Hmeth & Hwf).
    exists self. repeat split; try assumption; apply Hwf.
  - intros e Hp. unfold COLLOCATION_initialize. cbv zeta. unfold range.
    replace (OdeOpt.irk_polynomial_interpolation_degree ode_opt + 1 - 0)%nat
      with (S (OdeOpt.irk_polynomial_interpolation_degree ode_opt)) by lia.
    cbn [seq for_each]. apply bind_Raise. apply bind_Raise.
    now apply initialize_body_raises.
Qed.

End CollocationTables.

Lemma COLLOCATION_initialize_outcome_witness :
  (exists self,
      COLLOCATION_initialize radau_points
        (Integrator_attributes (example_COLLOCATION_ode 3)
           (example_opt no_quaternion CONSTANT false 1 3))
        (example_opt no_quaternion CONSTANT false 1 3) = Ok self /\
      degree self = 3%nat /\ length (_d self) = 4%nat /\
      length (_c self) = 4%nat) /\
  COLLOCATION_initialize radau_points
    (Integrator_attributes (example_COLLOCATION_ode 0)
       (example_opt no_quaternion CONSTANT false 1 0))
    (example_opt no_quaternion CONSTANT false 1 0) = Raise CasadiError.
Proof.
  split.
  - destruct (proj1 (COLLOCATION_initialize_outcome radau_points
                       (Integrator_attributes (example_COLLOCATION_ode 3)
                          (example_opt no_quaternion CONSTANT false 1 3))
                       (example_opt no_quaternion CONSTANT false 1 3))
                radau_supplies_3)
      as (self & H & _ & Hdeg & _ & Hd & Hc & _).
    exists self. rewrite Hdeg in Hd, Hc. repeat split; assumption.
  - apply (proj2 (COLLOCATION_initialize_outcome radau_points
                    (Integrator_attributes (example_COLLOCATION_ode 0)
                       (example_opt no_quaternion CONSTANT false 1 0))
                    (example_opt no_quaternion CONSTANT false 1 0))).
    reflexivity.
Defined.

Section CollocationWeights.

Variable collocation_points : nat -> string -> result (list R).

Lemma integration_time_at_nth (d : nat) (m : string) (times : list R)
    (r : nat) (t_r : R) :
  integration_time collocation_points d m = Ok times ->
  integration_time_at collocation_points d m r = Ok t_r ->
  t_r = nth r times 0.
Proof.
  intros Htimes H. unfold integration_time_at in H. rewrite Htimes in H.
  cbn [bind] in H. apply py_index_Ok in H.
  symmetry. now apply nth_lookup_Some.
Qed.

(** The loop that builds [_l] multiplies the factors of the nodes other
    than [j]. *)
Lemma lagrange_loop_value (d : nat) (m : string) (times : list R) (j : nat) :
  integration_time collocation_points d m = Ok times ->
  forall (indices : list nat) (acc res : R -> dual),
    for_each indices acc
      (fun r _l =>
         if negb (r =? j)%nat then
           t_r <- integration_time_at collocation_points d m r ;;
           t_j <- integration_time_at collocation_points d m j ;;
           t_r' <- integration_time_at collocation_points d m r ;;
           Ok (fun tau =>
                 dual_mul (_l tau) (lagrange_factor tau t_r (t_j - t_r')))
         else Ok _l) = Ok res ->
    forall tau,
      fst (res tau) = fst (acc tau) * lagrange_value times j tau indices.
Proof.
  intros Htimes.
  induction indices as [|r indices IH]; intros acc res H tau.
  - inversion H. cbn [lagrange_value foldr]. lra.
  - cbn [for_each] in H. apply bind_Ok in H as (acc' & Hbody & H).
    rewrite (IH _ _ H tau). cbn [lagrange_value foldr].
    fold (lagrange_value times j tau indices).
    destruct (r =? j)%nat; cbn [negb] in Hbody.
    + inversion Hbody. reflexivity.
    + apply bind_Ok in Hbody as (t_r & Ht_r & Hbody).
      apply bind_Ok in Hbody as (t_j & Ht_j & Hbody).
      apply bind_Ok in Hbody as (t_r' & Ht_r' & Hbody).
      inversion Hbody; subst acc'; clear Hbody.
      rewrite (integration_time_at_nth _ _ _ _ _ Htimes Ht_r).
      rewrite (integration_time_at_nth _ _ _ _ _ Htimes Ht_j).
      rewrite (integration_time_at_nth _ _ _ _ _ Htimes Ht_r').
      unfold dual_mul, lagrange_factor. cbn [fst]. lra.
Qed.

Lemma lagrange_fst (d : nat) (m : string) (times : list R) (j : nat)
    (_l : R -> dual) :
  integration_time collocation_points d m = Ok times ->
  lagrange collocation_points d m j = Ok _l ->
  forall tau,
    fst (_l tau) = lagrange_value times j tau (seq 0 (d + 1)).
Proof.
  intros Htimes H tau. unfold lagrange, range in H.
  replace (d + 1 - 0)%nat with (d + 1)%nat in H by lia.
  rewrite (lagrange_loop_value d m times j Htimes _ _ _ H tau).
  cbn [fst]. lra.
Qed.

(** A Lagrange polynomial is 1 at its own node and 0 at the others, when
    the node times are distinct. *)
Lemma lagrange_value_own (times : list R) (j : nat) (indices : list nat) :
  (forall r, r ∈ indices -> r <> j -> nth r times 0 <> nth j times 0) ->
  lagrange_value times j (nth j times 0) indices = 1.
Proof.
  induction indices as [|r indices IH]; intros Hd; [reflexivity |].
  cbn [lagrange_value foldr]. fold (lagrange_value times j (nth j times 0) indices).
  rewrite IH by (intros r' Hr'; apply Hd; now right).
  destruct (r =? j)%nat eqn:E; [reflexivity |].
  apply Nat.eqb_neq in E.
  assert (nth r times 0 <> nth j times 0) by (apply Hd; [left | exact E]).
  field. lra.
Qed.

Lemma lagrange_value_other (times : list R) (j k : nat)
    (indices : list nat) :
  k ∈ indices -> k <> j ->
  lagrange_value times j (nth k times 0) indices = 0.
Proof.
  intros Hk Hkj. induction indices as [|r indices IH];
    [now apply elem_of_nil in Hk |].
  cbn [lagrange_value foldr].
  fold (lagrange_value times j (nth k times 0) indices).
  apply elem_of_cons in Hk as [<-|Hk].
  - apply Nat.eqb_neq in Hkj. rewrite Hkj. unfold Rdiv. lra.
  - rewrite (IH Hk). destruct (r =? j)%nat; lra.
Qed.

Lemma distinct_times (times : list R) (r j : nat) :
  NoDup times -> (r < length times)%nat -> (j < length times)%nat ->
  r <> j -> nth r times 0 <> nth j times 0.
Proof.
  intros Hnd Hr Hj Hrj Heq. apply Hrj.
  apply NoDup_ListNoDup in Hnd.
  exact (proj1 (List.NoDup_nth times 0) Hnd r j Hr Hj Heq).
Qed.

(** What [_initialize] writes in [_d] at index [j]. *)
Lemma initialize_body_d (d : nat) (m : string) (j : nat)
    (cd cd' : list (list R) * list R) :
  initialize_body collocation_points d m j cd = Ok cd' ->
  exists _l,
    lagrange collocation_points d m j = Ok _l /\
    snd cd' = <[j := if String.eqb m "radau" then last_node_weight d j
                     else fst (_l 1)]> (snd cd).
Proof.
  intros H. unfold initialize_body in H. cbv zeta in H.
  apply bind_Ok in H as (_l & H_l & H).
  apply bind_Ok in H as (_l' & _ & H).
  apply bind_Ok in H as (c & _ & H).
  inversion H; subst cd'; clear H. exists _l. split; [exact H_l |].
  cbn [snd]. unfold last_node_weight. now destruct (String.eqb m "radau").
Qed.

Lemma initialize_d_entries (base : Integrator (list vec))
    (ode_opt : OdeOpt.t) (w : nat -> R) (self : COLLOCATION) :
  (forall j _l,
      (j <= OdeOpt.irk_polynomial_interpolation_degree ode_opt)%nat ->
      lagrange collocation_points
        (OdeOpt.irk_polynomial_interpolation_degree ode_opt)
        (OdeOpt.method ode_opt) j = Ok _l ->
      (if String.eqb (OdeOpt.method ode_opt) "radau"
       then last_node_weight
              (OdeOpt.irk_polynomial_interpolation_degree ode_opt) j
       else fst (_l 1)) = w j) ->
  COLLOCATION_initialize collocation_points base ode_opt = Ok self ->
  _d self = map w (seq 0 (degree self + 1)).
Proof.
  intros Hw H. unfold COLLOCATION_initialize in H. cbv zeta in H.
  set (d := OdeOpt.irk_polynomial_interpolation_degree ode_opt) in *.
  set (m := OdeOpt.method ode_opt) in *.
  apply bind_Ok in H as (cd & Hloop & H).
  inversion H; subst self; clear H. cbn [_d degree].
  unfold range in Hloop. replace (d + 1 - 0)%nat with (d + 1)%nat in Hloop by lia.
  assert (Hinv : length (snd cd) = (d + 1)%nat /\
                 forall i, (i < 0 + (d + 1))%nat -> snd cd !! i = Some (w i)).
  { eapply (for_each_seq_inv
              (fun k (cd : list (list R) * list R) =>
                 length (snd cd) = (d + 1)%nat /\
                 forall i, (i < k)%nat -> snd cd !! i = Some (w i)));
      [| | exact Hloop].
    - cbn [snd]. rewrite length_replicate. split; [reflexivity |].
      intros i Hi. lia.
    - intros j s s' Hj (Hlen & Hentries) Hbody.
      destruct (initialize_body_d _ _ _ _ _ Hbody) as (_l & H_l & Hsnd).
      rewrite Hsnd, (Hw j _l) by (lia || exact H_l).
      split; [now rewrite length_insert |].
      intros i Hi. destruct (decide (i = j)) as [->|Hne].
      + apply list_lookup_insert_eq. lia.
      + rewrite list_lookup_insert_ne by lia. apply Hentries. lia. }
  destruct Hinv as (Hlen & Hentries).
  apply list_eq. intros i.
  destruct (decide (i < d + 1)%nat) as [Hi|Hi].
  - rewrite Hentries by lia.
    rewrite list_lookup_fmap, lookup_seq_lt by lia. reflexivity.
  - rewrite !lookup_ge_None_2; [reflexivity | |].
    + rewrite length_map, length_seq. lia.
    + lia.
Qed.

Lemma last_node_weights (d : nat) :
  map (last_node_weight d) (seq 0 (d + 1)) = replicate d 0 ++ [1].
Proof.
  rewrite seq_app, map_app. cbn [seq map Nat.add].
  unfold last_node_weight at 2. rewrite Nat.eqb_refl. f_equal.
  apply list_eq. intros i.
  destruct (decide (i < d)%nat) as [Hi|Hi].
  - rewrite list_lookup_fmap, lookup_seq_lt, lookup_replicate_2 by lia.
    cbn. unfold last_node_weight.
    destruct (i =? d)%nat eqn:E; [| reflexivity].
    apply Nat.eqb_eq in E. lia.
  - rewrite !lookup_ge_None_2; [reflexivity | |].
    + rewrite length_replicate. lia.
    + rewrite length_map, length_seq. lia.
Qed.

(** X11: with the method ["radau"], the table [_d] that [_initialize]
    builds is 0 at every node but the last, where it is 1, whatever points
    CasADi supplies. *)
Theorem radau_continuity_weights (base : Integrator (list vec))
    (ode_opt : OdeOpt.t) (self : COLLOCATION) :
  OdeOpt.method ode_opt = "radau"%string ->
  COLLOCATION_initialize collocation_points base ode_opt = Ok self ->
  _d self = replicate (degree self) 0 ++ [1].
Proof.
  intros Hm H.
  rewrite (initialize_d_entries base ode_opt
             (last_node_weight (degree self)) self); [| | exact H].
  - apply last_node_weights.
  - intros j _l Hj H_l. rewrite Hm. cbn.
    unfold COLLOCATION_initialize in H. cbv zeta in H.
    apply bind_Ok in H as (cd & _ & H). inversion H. reflexivity.
Qed.

End CollocationWeights.

Lemma radau_continuity_weights_witness :
  exists self,
    COLLOCATION_initialize radau_points
      (Integrator_attributes (example_COLLOCATION_ode 3)
         (example_opt no_quaternion CONSTANT false 1 3))
      (example_opt no_quaternion CONSTANT false 1 3) = Ok self /\
    _d self = replicate 3 0 ++ [1].
Proof.
  destruct (COLLOCATION_initialize_returns radau_points
              (Integrator_attributes (example_COLLOCATION_ode 3)
                 (example_opt no_quaternion CONSTANT false 1 3))
              (example_opt no_quaternion CONSTANT false 1 3)
              radau_supplies_3) as (self & H & _ & Hdeg & _).
  exists self. split; [exact H |].
  cbn in Hdeg. rewrite <- Hdeg.
  exact (radau_continuity_weights radau_points
           (Integrator_attributes (example_COLLOCATION_ode 3)
              (example_opt no_quaternion CONSTANT false 1 3))
           (example_opt no_quaternion CONSTANT false 1 3) self eq_refl H).
Defined.

(** ** The end state and the failures of [COLLOCATION.dxdt] *)

Section CollocationFurther.

Variable collocation_points : nat -> string -> result (list R).

Variable rootfinder :
  string -> string -> function6 -> rootfinder_options -> function6.

Lemma COLLOCATION_dxdt_body_end (self : COLLOCATION) (states : list vec)
    (controls : matrix) (params : vec) (algebraic_states : matrix)
    (j : nat) (acc acc' : vec * list vec) :
  COLLOCATION_dxdt_body collocation_points self states controls params
    algebraic_states j acc = Ok acc' ->
  exists d_j states_j,
    entry (_d self) j = Ok d_j /\
    py_index states (j + 1) = Ok states_j /\
    fst acc' = fst acc +v d_j *v states_j.
Proof.
  intros H. unfold COLLOCATION_dxdt_body in H. cbv zeta in H.
  apply bind_Ok in H as (t_j & _ & H).
  apply bind_Ok in H as (xp_j & _ & H).
  apply bind_Ok in H as (defects & _ & H).
  apply bind_Ok in H as (d_j & Hd_j & H).
  apply bind_Ok in H as (states_j & Hs_j & H).
  inversion H. exists d_j, states_j. repeat split; assumption.
Qed.

Lemma zero_column (n : nat) (s : vec) :
  length s = n -> 0 *v s = replicate n 0.
Proof.
  intros <-. unfold vscale. induction s as [|r s IH]; [reflexivity |].
  cbn [map length replicate]. f_equal; [lra | exact IH].
Qed.

Lemma zeros_plus (n : nat) (s : vec) :
  length s = n -> replicate n 0 +v s = s.
Proof.
  intros <-. unfold vadd. induction s as [|r s IH]; [reflexivity |].
  cbn [length replicate zip_with]. f_equal; [lra | exact IH].
Qed.

Lemma zeros_plus_zeros (n : nat) : replicate n 0 +v replicate n 0
                                   = replicate n 0.
Proof. apply zeros_plus. apply length_replicate. Qed.

(** The end state when the continuity weights are those of Radau. *)
Lemma COLLOCATION_dxdt_end_last (self : COLLOCATION) (states : list vec)
    (controls : matrix) (params : vec) (algebraic_states : matrix)
    (n : nat) (states_end : vec) (xall : matrix) (defects : vec) :
  _d self = replicate (degree self) 0 ++ [1] ->
  Forall (fun s => length s = n) states ->
  COLLOCATION_dxdt collocation_points self states controls params
    algebraic_states = Ok (states_end, xall, defects) ->
  py_index states (degree self + 1) = Ok states_end.
Proof.
  intros Hd Hall H. unfold COLLOCATION_dxdt in H. cbv zeta in H.
  apply bind_Ok in H as (d_0 & Hd_0 & H).
  apply bind_Ok in H as (states_1 & Hs_1 & H).
  apply bind_Ok in H as (acc & Hloop & H).
  inversion H; subst states_end xall defects; clear H.
  assert (Hlen1 : length states_1 = n).
  { apply py_index_Ok in Hs_1.
    exact (proj1 (Forall_lookup _ _) Hall _ _ Hs_1). }
  unfold range in Hloop.
  replace (degree self + 1 - 1)%nat with (degree self) in Hloop by lia.
  destruct (degree self) as [|d] eqn:Hdeg.
  - cbn [seq for_each] in Hloop. inversion Hloop; subst acc. cbn [fst].
    rewrite Hd in Hd_0. cbn in Hd_0. inversion Hd_0; subst d_0.
    now rewrite vscale_1.
  - assert (Hinv : exists last,
               py_index states (S d + 1) = Ok last /\
               fst acc = if (1 + S d <=? S d)%nat then replicate n 0
                         else last).
    { destruct (py_index_returns states (S d + 1)) as [last Hlast].
      - assert (Hlast : exists acc0, for_each [S d]
                          acc0 (COLLOCATION_dxdt_body collocation_points self
                                  states controls params algebraic_states)
                        = Ok acc).
        { replace (seq 1 (S d)) with (seq 1 d ++ [S d]) in Hloop
            by (rewrite seq_S; reflexivity).
          clear - Hloop. revert Hloop.
          generalize (d_0 *v states_1, @nil vec).
          induction (seq 1 d) as [|i l IH]; intros acc0 Hloop.
          - eauto.
          - cbn [app for_each] in Hloop.
            apply bind_Ok in Hloop as (acc1 & _ & Hloop). eauto. }
        destruct Hlast as (acc0 & Hlast). cbn [for_each] in Hlast.
        apply bind_Ok in Hlast as (acc1 & Hbody & _).
        destruct (COLLOCATION_dxdt_body_end _ _ _ _ _ _ _ _ Hbody)
          as (_ & s & _ & Hs & _).
        apply py_index_Ok in Hs. apply lookup_lt_Some in Hs. exact Hs.
      - exists last. split; [exact Hlast |].
        eapply (for_each_seq_inv
                  (fun k (acc : vec * list vec) =>
                     fst acc = if (k <=? S d)%nat then replicate n 0
                               else last)); [| | exact Hloop].
        + cbn [fst Nat.leb]. rewrite Hd in Hd_0.
          unfold entry in Hd_0. cbn in Hd_0. inversion Hd_0; subst d_0.
          now apply zero_column.
        + intros j s s' Hj Hs Hbody.
          destruct (COLLOCATION_dxdt_body_end _ _ _ _ _ _ _ _ Hbody)
            as (d_j & states_j & Hd_j & Hs_j & Hfst).
          rewrite Hfst, Hs.
          assert (Hlenj : length states_j = n).
          { apply py_index_Ok in Hs_j.
            exact (proj1 (Forall_lookup _ _) Hall _ _ Hs_j). }
          replace (j <=? S d)%nat with true
            by (symmetry; apply Nat.leb_le; lia).
          rewrite Hd in Hd_j. unfold entry in Hd_j.
          destruct (decide (j = S d)) as [->|Hne].
          * rewrite lookup_app_r in Hd_j by (rewrite length_replicate; lia).
            rewrite length_replicate, Nat.sub_diag in Hd_j.
            cbn in Hd_j. inversion Hd_j; subst d_j.
            replace (S (S d) <=? S d)%nat with false
              by (symmetry; apply Nat.leb_gt; lia).
            rewrite Hs_j in Hlast. inversion Hlast; subst last.
            rewrite vscale_1. now apply zeros_plus.
          * rewrite lookup_app_l in Hd_j by (rewrite length_replicate; lia).
            rewrite lookup_replicate_2 in Hd_j by lia.
            inversion Hd_j; subst d_j.
            replace (S j <=? S d)%nat with true
              by (symmetry; apply Nat.leb_le; lia).
            rewrite (zero_column n) by exact Hlenj.
            apply zeros_plus_zeros. }
    destruct Hinv as (last & Hlast & Hfst).
    replace (1 + S d <=? S d)%nat with false in Hfst
      by (symmetry; apply Nat.leb_gt; lia).
    cbn [fst]. rewrite Hfst. exact Hlast.
Qed.

(** X13: an object built with the method ["radau"] for states of one
    dimension returns, as its end state, the last of the
    [degree + 2] states it is given: the state of the last collocation
    point. *)
Theorem radau_end_state (ode : Ode.t (list vec)) (ode_opt : OdeOpt.t)
    (n : nat) (b : built COLLOCATION (vec * matrix * vec)) :
  OdeOpt.method ode_opt = "radau"%string ->
  Forall (fun s => length s = n) (Ode.x ode) ->
  COLLOCATION_init collocation_points ode ode_opt = Ok b ->
  py_index (Ode.x ode)
    (OdeOpt.irk_polynomial_interpolation_degree ode_opt + 1)
  = Ok (fst (fst (function b))).
Proof.
  intros Hm Hall H. unfold COLLOCATION_init in H.
  apply bind_Ok in H as (self & Hself & H).
  apply bind_Ok in H as ([[states_end xall] defects] & Hdxdt & H).
  inversion H; subst b; clear H. cbn [function fst].
  assert (Hattr : x_sym self = Ode.x ode /\
                  degree self
                  = OdeOpt.irk_polynomial_interpolation_degree ode_opt).
  { unfold COLLOCATION_initialize in Hself. cbv zeta in Hself.
    apply bind_Ok in Hself as (cd & _ & Hself).
    inversion Hself. split; reflexivity. }
  destruct Hattr as (Hx & Hdeg).
  assert (Hd : _d self = replicate (degree self) 0 ++ [1]).
  { rewrite (initialize_d_entries collocation_points
               (Integrator_attributes ode ode_opt) ode_opt
               (last_node_weight (degree self)) self); [| | exact Hself].
    - apply last_node_weights.
    - intros j _l Hj H_l. rewrite Hm, Hdeg. reflexivity. }
  rewrite <- Hx, <- Hdeg.
  apply (COLLOCATION_dxdt_end_last self (x_sym self) (u_sym self)
           (param_sym self) (a_sym self) n states_end xall defects);
    [exact Hd | | exact Hdxdt].
  rewrite Hx. exact Hall.
Qed.

End CollocationFurther.

Lemma radau_end_state_witness :
  exists b,
    COLLOCATION_init radau_points (example_COLLOCATION_ode 3)
      (example_opt no_quaternion CONSTANT false 1 3) = Ok b /\
    py_index (Ode.x (example_COLLOCATION_ode 3)) (3 + 1)
    = Ok (fst (fst (function b))).
Proof.
  destruct (example_COLLOCATION_init false) as (b & _ & _ & Hb & _).
  exists b. split; [exact Hb |].
  apply (radau_end_state radau_points (example_COLLOCATION_ode 3)
           (example_opt no_quaternion CONSTANT false 1 3) 4 b).
  - reflexivity.
  - repeat constructor.
  - exact Hb.
Defined.

(** ** The failures of [COLLOCATION.dxdt] *)

(** A loop stops on the first turn that raises. *)
Lemma for_each_seq_raises {S} (body : nat -> S -> result S) (e : exception)
    (r : nat) :
  forall (len a : nat) (acc : S),
    (a <= r < a + len)%nat ->
    (forall i s, (a <= i < r)%nat -> exists s', body i s = Ok s') ->
    (forall s, body r s = Raise e) ->
    for_each (seq a len) acc body = Raise e.
Proof.
  induction len as [|len IH]; intros a acc Hr Hbefore Hat; [lia |].
  cbn [seq for_each].
  destruct (decide (a = r)) as [->|Hne].
  - now rewrite Hat.
  - destruct (Hbefore a acc) as [s' Hs']; [lia |].
    rewrite Hs'. cbn [bind]. apply IH; [lia | | exact Hat].
    intros i s Hi. apply Hbefore. lia.
Qed.

Section CollocationFailures.

Variable collocation_points : nat -> string -> result (list R).

Variable rootfinder :
  string -> string -> function6 -> rootfinder_options -> function6.

(** The first turn of the loop of [COLLOCATION.dxdt] decides a failure. *)
Lemma COLLOCATION_dxdt_first_turn (self : COLLOCATION) (states : list vec)
    (controls : matrix) (params : vec) (algebraic_states : matrix)
    (e : exception) :
  well_formed_tables self ->
  (1 <= degree self)%nat ->
  (2 <= length states)%nat ->
  (forall acc,
      COLLOCATION_dxdt_body collocation_points self states controls params
        algebraic_states 1 acc = Raise e) ->
  COLLOCATION_dxdt collocation_points self states controls params
    algebraic_states = Raise e.
Proof.
  intros (Hd & _) Hdeg Hlen Hbody. unfold COLLOCATION_dxdt. cbv zeta.
  destruct (entry_returns (_d self) 0) as [d_0 Hd_0]; [lia |].
  rewrite Hd_0. cbn [bind].
  destruct (py_index_returns states 1) as [s_1 Hs_1]; [lia |].
  rewrite Hs_1. cbn [bind]. unfold range.
  replace (degree self + 1 - 1)%nat with (S (degree self - 1)) by lia.
  cbn [seq for_each]. apply bind_Raise. apply bind_Raise. apply Hbody.
Qed.

Lemma COLLOCATION_dxdt_unknown_defects (self : COLLOCATION)
    (states : list vec) (controls : matrix) (params : vec)
    (algebraic_states : matrix) :
  well_formed_tables self ->
  supplies_points collocation_points (degree self) (method self) ->
  (1 <= degree self)%nat ->
  (degree self + 2 <= length states)%nat ->
  defects_type self = NOT_APPLICABLE ->
  COLLOCATION_dxdt collocation_points self states controls params
    algebraic_states = Raise unknown_defects_type.
Proof.
  intros Hwf Hp Hdeg Hlen Hmode.
  apply COLLOCATION_dxdt_first_turn; [exact Hwf | exact Hdeg | lia |].
  intros acc. unfold COLLOCATION_dxdt_body. cbv zeta.
  destruct (integration_time_at_returns collocation_points _ _ 1 Hp Hdeg)
    as [t_j Ht_j].
  rewrite Ht_j. cbn [bind].
  destruct (COLLOCATION_xp_returns self states 1 Hwf Hdeg Hlen)
    as [xp_j Hxp].
  rewrite Hxp. cbn [bind]. rewrite Hmode. reflexivity.
Qed.

Lemma COLLOCATION_xp_raises (self : COLLOCATION) (states : list vec)
    (j : nat) :
  well_formed_tables self -> (j <= degree self)%nat ->
  (2 <= length states < degree self + 2)%nat ->
  COLLOCATION_xp self states j = Raise IndexError.
Proof.
  intros (_ & Hc & Hrows) Hj Hlen. rewrite COLLOCATION_xp_unroll.
  destruct (entry2_returns (_c self) _ 0 j Hc Hrows) as [c_0j Hc0];
    [lia | lia |].
  rewrite Hc0. cbn [bind].
  destruct (py_index_returns states 0) as [s0 Hs0]; [lia |].
  rewrite Hs0. cbn [bind].
  apply (for_each_seq_raises _ _ (length states)); [lia | |].
  - intros r s Hr. unfold COLLOCATION_xp_body.
    destruct (entry2_returns (_c self) _ (r - 1) j Hc Hrows) as [c Hcr];
      [lia | lia |].
    rewrite Hcr. cbn [bind].
    destruct (py_index_returns states r) as [s_r Hs_r]; [lia |].
    rewrite Hs_r. cbn [bind]. eauto.
  - intros s. unfold COLLOCATION_xp_body.
    destruct (entry2_returns (_c self) _ (length states - 1) j Hc Hrows)
      as [c Hcr]; [lia | lia |].
    rewrite Hcr. cbn [bind]. unfold py_index.
    now rewrite lookup_ge_None_2 by lia.
Qed.

Lemma COLLOCATION_dxdt_too_few_states (self : COLLOCATION)
    (states : list vec) (controls : matrix) (params : vec)
    (algebraic_states : matrix) :
  well_formed_tables self ->
  supplies_points collocation_points (degree self) (method self) ->
  (length states < degree self + 2)%nat ->
  COLLOCATION_dxdt collocation_points self states controls params
    algebraic_states = Raise IndexError.
Proof.
  intros Hwf Hp Hlen.
  destruct (decide (length states < 2)%nat) as [Hshort|Hlong].
  - unfold COLLOCATION_dxdt. cbv zeta.
    destruct (entry_returns (_d self) 0) as [d_0 Hd_0];
      [destruct Hwf as (Hd & _); lia |].
    rewrite Hd_0. cbn [bind]. unfold py_index.
    now rewrite lookup_ge_None_2 by lia.
  - apply COLLOCATION_dxdt_first_turn; [exact Hwf | lia | lia |].
    intros acc. unfold COLLOCATION_dxdt_body. cbv zeta.
    destruct (integration_time_at_returns collocation_points _ _ 1 Hp)
      as [t_j Ht_j]; [lia |].
    rewrite Ht_j. cbn [bind].
    rewrite COLLOCATION_xp_raises by (exact Hwf || lia). reflexivity.
Qed.

(** What [Integrator.__init__] raises for the two classes when [dxdt]
    raises on the symbols of a state symbol that has a first column. *)
Lemma collocation_init_raises_with (ode : Ode.t (list vec))
    (ode_opt : OdeOpt.t) (e : exception) :
  supplies_points collocation_points
    (OdeOpt.irk_polynomial_interpolation_degree ode_opt)
    (OdeOpt.method ode_opt) ->
  (0 < length (Ode.x ode))%nat ->
  (forall self,
      COLLOCATION_initialize collocation_points
        (Integrator_attributes ode ode_opt) ode_opt = Ok self ->
      COLLOCATION_dxdt collocation_points self (x_sym self) (u_sym self)
        (param_sym self) (a_sym self) = Raise e) ->
  COLLOCATION_init collocation_points ode ode_opt = Raise e /\
  IRK_init collocation_points rootfinder ode ode_opt = Raise e.
Proof.
  intros Hp Hx Hraise.
  destruct (COLLOCATION_initialize_returns collocation_points
              (Integrator_attributes ode ode_opt) ode_opt Hp)
    as (self & Hself & Hsuper & _).
  pose proof (Hraise self Hself) as H.
  assert (Hx' : (0 < length (x_sym self))%nat) by (now rewrite Hsuper).
  split.
  - unfold COLLOCATION_init. rewrite Hself. cbn [bind]. now rewrite H.
  - unfold IRK_init. rewrite Hself. cbn [bind].
    unfold IRK_x_sym_modified, IRK_dxdt.
    destruct (py_index_returns (x_sym self) 0 Hx') as [states_0 Hs0].
    rewrite Hs0. cbn [bind]. now rewrite H.
Qed.

Lemma initialized_attributes (base : Integrator (list vec))
    (ode_opt : OdeOpt.t) (self : COLLOCATION) :
  supplies_points collocation_points
    (OdeOpt.irk_polynomial_interpolation_degree ode_opt)
    (OdeOpt.method ode_opt) ->
  COLLOCATION_initialize collocation_points base ode_opt = Ok self ->
  COLLOCATION_super self = base /\
  degree self = OdeOpt.irk_polynomial_interpolation_degree ode_opt /\
  method self = OdeOpt.method ode_opt /\
  well_formed_tables self.
Proof.
  intros Hp Hself.
  destruct (COLLOCATION_initialize_returns collocation_points base ode_opt Hp)
    as (self' & Hself' & H).
  rewrite Hself in Hself'. inversion Hself'; subst self'. exact H.
Qed.

(** X14: with a defects type that is neither explicit nor implicit, the
    construction of a [COLLOCATION] and of an [IRK] of degree at least 1 on
    [degree + 2] states or more raises the [ValueError] of
    [COLLOCATION.dxdt], whatever the control policy: the defects type is
    looked at before [get_u] is called. *)
Theorem collocation_unknown_defects_type (ode : Ode.t (list vec))
    (ode_opt : OdeOpt.t) :
  supplies_points collocation_points
    (OdeOpt.irk_polynomial_interpolation_degree ode_opt)
    (OdeOpt.method ode_opt) ->
  (1 <= OdeOpt.irk_polynomial_interpolation_degree ode_opt)%nat ->
  (OdeOpt.irk_polynomial_interpolation_degree ode_opt + 2
   <= length (Ode.x ode))%nat ->
  OdeOpt.defects_type ode_opt = NOT_APPLICABLE ->
  COLLOCATION_init collocation_points ode ode_opt
  = Raise unknown_defects_type /\
  IRK_init collocation_points rootfinder ode ode_opt
  = Raise unknown_defects_type.
Proof.
  intros Hp Hdeg Hlen Hmode.
  apply collocation_init_raises_with; [exact Hp | lia |].
  intros self Hself.
  destruct (initialized_attributes _ _ _ Hp Hself)
    as (Hsuper & Hd & Hmeth & Hwf).
  apply COLLOCATION_dxdt_unknown_defects; try exact Hwf.
  - now rewrite Hd, Hmeth.
  - now rewrite Hd.
  - rewrite Hd, Hsuper. exact Hlen.
  - rewrite Hsuper. exact Hmode.
Qed.

(** X15: [COLLOCATION.dxdt] reads the states 0 to [degree + 1]: the
    construction of a [COLLOCATION] and of an [IRK] on a state symbol of
    fewer than [degree + 2] columns raises [IndexError], whatever the
    control policy and the defects type. *)
Theorem collocation_needs_all_states (ode : Ode.t (list vec))
    (ode_opt : OdeOpt.t) :
  supplies_points collocation_points
    (OdeOpt.irk_polynomial_interpolation_degree ode_opt)
    (OdeOpt.method ode_opt) ->
  (length (Ode.x ode)
   < OdeOpt.irk_polynomial_interpolation_degree ode_opt + 2)%nat ->
  COLLOCATION_init collocation_points ode ode_opt = Raise IndexError /\
  IRK_init collocation_points rootfinder ode ode_opt = Raise IndexError.
Proof.
  intros Hp Hlen.
  assert (Hdxdt : forall self,
             COLLOCATION_initialize collocation_points
               (Integrator_attributes ode ode_opt) ode_opt = Ok self ->
             COLLOCATION_dxdt collocation_points self (x_sym self)
               (u_sym self) (param_sym self) (a_sym self)
             = Raise IndexError).
  { intros self Hself.
    destruct (initialized_attributes _ _ _ Hp Hself)
      as (Hsuper & Hd & Hmeth & Hwf).
    apply COLLOCATION_dxdt_too_few_states; [exact Hwf | |].
    - now rewrite Hd, Hmeth.
    - rewrite Hd, Hsuper. unfold Integrator_attributes. cbn [x_sym]. lia. }
  destruct (decide (length (Ode.x ode) = 0)%nat) as [Hnone|Hsome].
  - destruct (COLLOCATION_initialize_returns collocation_points
                (Integrator_attributes ode ode_opt) ode_opt Hp)
      as (self & Hself & Hsuper & _).
    split.
    + unfold COLLOCATION_init. rewrite Hself. cbn [bind].
      now rewrite (Hdxdt self Hself).
    + unfold IRK_init. rewrite Hself. cbn [bind].
      unfold IRK_x_sym_modified, py_index.
      rewrite lookup_ge_None_2; [reflexivity |].
      rewrite Hsuper. unfold Integrator_attributes. cbn [x_sym]. lia.
  - apply collocation_init_raises_with; [exact Hp | lia | exact Hdxdt].
Qed.

End CollocationFailures.

Lemma collocation_unknown_defects_type_witness :
  COLLOCATION_init radau_points (example_COLLOCATION_ode 3)
    (example_opt_defects NOT_APPLICABLE LINEAR_CONTINUOUS 3)
  = Raise unknown_defects_type /\
  IRK_init radau_points no_solver (example_COLLOCATION_ode 3)
    (example_opt_defects NOT_APPLICABLE LINEAR_CONTINUOUS 3)
  = Raise unknown_defects_type.
Proof.
  apply (collocation_unknown_defects_type radau_points no_solver
           (example_COLLOCATION_ode 3)
           (example_opt_defects NOT_APPLICABLE LINEAR_CONTINUOUS 3)).
  - exact radau_supplies_3.
  - simpl. lia.
  - simpl. lia.
  - reflexivity.
Defined.

Lemma collocation_needs_all_states_witness :
  COLLOCATION_init radau_points (example_COLLOCATION_ode 1)
    (example_opt no_quaternion CONSTANT false 1 3)
  = Raise IndexError /\
  IRK_init radau_points no_solver (example_COLLOCATION_ode 1)
    (example_opt no_quaternion CONSTANT false 1 3)
  = Raise IndexError.
Proof.
  apply (collocation_needs_all_states radau_points no_solver
           (example_COLLOCATION_ode 1)
           (example_opt no_quaternion CONSTANT false 1 3)).
  - exact radau_supplies_3.
  - simpl. lia.
Defined.

(** ** The defects of the implicit mode *)

Section CollocationImplicit.

Variable collocation_points : nat -> string -> result (list R).

Lemma COLLOCATION_dxdt_body_implicit (self : COLLOCATION)
    (states : list vec) (controls : matrix) (params : vec)
    (algebraic_states : matrix) (j : nat) (acc acc' : vec * list vec) :
  defects_type self = IMPLICIT ->
  COLLOCATION_dxdt_body collocation_points self states controls params
    algebraic_states j acc = Ok acc' ->
  exists t_j xp_j x_j u_j,
    integration_time_at collocation_points (degree self) (method self) j
    = Ok t_j /\
    COLLOCATION_xp self states j = Ok xp_j /\
    py_index states (j + 1) = Ok x_j /\
    COLLOCATION_get_u self controls t_j = Ok u_j /\
    snd acc'
    = snd acc ++
      [implicit_fun self
         [fst (t_span_sym self) + t_j * snd (t_span_sym self);
          snd (t_span_sym self)]
         x_j u_j params algebraic_states
         (over xp_j (snd (t_span_sym self)))].
Proof.
  intros Hmode H. unfold COLLOCATION_dxdt_body in H. cbv zeta in H.
  rewrite Hmode in H. unfold COLLOCATION_h in H.
  apply bind_Ok in H as (t_j & Ht_j & H).
  apply bind_Ok in H as (xp_j & Hxp & H).
  apply bind_Ok in H as (defects & Hdefects & H).
  apply bind_Ok in H as (d_j & _ & H).
  apply bind_Ok in H as (x_j' & _ & H).
  inversion H; subst acc'; clear H. cbn [snd].
  apply bind_Ok in Hdefects as (x_j & Hx_j & Hdefects).
  apply bind_Ok in Hdefects as (t_j' & Ht_j' & Hdefects).
  rewrite Ht_j in Ht_j'. inversion Ht_j'; subst t_j'; clear Ht_j'.
  apply bind_Ok in Hdefects as (u_j & Hu_j & Hdefects).
  inversion Hdefects; subst defects; clear Hdefects.
  exists t_j, xp_j, x_j, u_j. repeat split; assumption.
Qed.

(** X16: in the implicit mode, the defects [COLLOCATION.dxdt] returns are
    the [vertcat] of one defect per node [j = 1 .. degree]; the defect of
    node [j] is what the implicit dynamics returns at the time, state and
    control of node [j] for the slope of the polynomial at that node, the
    sum of the node states weighted by column [j] of [_c] divided by the
    duration. *)
Theorem collocation_implicit_defects (self : COLLOCATION)
    (states : list vec) (controls : matrix) (params : vec)
    (algebraic_states : matrix) (n : nat)
    (states_end : vec) (xall : matrix) (defects : vec) :
  defects_type self = IMPLICIT ->
  Forall (fun s => length s = n) states ->
  COLLOCATION_dxdt collocation_points self states controls params
    algebraic_states = Ok (states_end, xall, defects) ->
  exists per_node : list vec,
    defects = vertcat per_node /\
    length per_node = degree self /\
    forall j, (1 <= j <= degree self)%nat ->
      exists defect,
        per_node !! (j - 1)%nat = Some defect /\
        implicit_defect_at collocation_points self states controls params
          algebraic_states n j defect.
Proof.
  intros Hmode Hall H. unfold COLLOCATION_dxdt in H. cbv zeta in H.
  apply bind_Ok in H as (d_0 & _ & H).
  apply bind_Ok in H as (states_1 & _ & H).
  apply bind_Ok in H as ([se per_node] & Hloop & H).
  inversion H; subst states_end xall defects; clear H.
  exists per_node. split; [reflexivity |].
  unfold range in Hloop.
  replace (degree self + 1 - 1)%nat with (degree self) in Hloop by lia.
  assert (Hinv : length (snd (se, per_node)) = (1 + degree self - 1)%nat /\
                 forall j, (1 <= j < 1 + degree self)%nat ->
                   exists defect,
                     snd (se, per_node) !! (j - 1)%nat = Some defect /\
                     implicit_defect_at collocation_points self states
                       controls params algebraic_states n j defect).
  { eapply (for_each_seq_inv
              (fun k (acc : vec * list vec) =>
                 length (snd acc) = (k - 1)%nat /\
                 forall j, (1 <= j < k)%nat ->
                   exists defect,
                     snd acc !! (j - 1)%nat = Some defect /\
                     implicit_defect_at collocation_points self states
                       controls params algebraic_states n j defect));
      [| | exact Hloop].
    - split; [reflexivity |]. intros j Hj. lia.
    - intros j acc acc' Hj (Hlen & Hprev) Hbody.
      destruct (COLLOCATION_dxdt_body_implicit _ _ _ _ _ _ _ _ Hmode Hbody)
        as (t_j & xp_j & x_j & u_j & Ht_j & Hxp & Hx_j & Hu_j & Hsnd).
      destruct (COLLOCATION_xp_inv _ _ _ n _ Hall Hxp)
        as (weights & nodes & Hw & Hn & ->).
      cbn [over] in Hsnd.
      split; [rewrite Hsnd, length_app; simpl; lia |].
      intros j' Hj'. destruct (decide (j' = j)) as [->|Hne].
      + eexists. rewrite Hsnd. split.
        * rewrite lookup_app_r by lia.
          replace (j - 1 - length (snd acc))%nat with 0%nat by lia.
          reflexivity.
        * exists t_j, x_j, u_j, weights, nodes.
          repeat split; assumption.
      + destruct (Hprev j') as (defect & Hd & Hdef); [lia |].
        exists defect. rewrite Hsnd. split; [| exact Hdef].
        rewrite lookup_app_l; [exact Hd | lia]. }
  cbn [snd] in Hinv. destruct Hinv as (Hlen & Hnodes).
  split; [lia |].
  intros j Hj. apply Hnodes. lia.
Qed.

End CollocationImplicit.

Lemma example_COLLOCATION_defects_well_formed (d : DefectType) :
  well_formed_tables (example_COLLOCATION_defects d).
Proof. repeat split. repeat constructor. Qed.

Lemma collocation_implicit_defects_witness :
  exists states_end xall defects,
    COLLOCATION_dxdt radau_points (example_COLLOCATION_defects IMPLICIT)
      (replicate 3 [1; 0; 0; 0]) [[0]] [] []
    = Ok (states_end, xall, defects) /\
    exists per_node,
      defects = vertcat per_node /\
      length per_node = 1%nat /\
      exists defect,
        per_node !! 0%nat = Some defect /\
        implicit_defect_at radau_points (example_COLLOCATION_defects IMPLICIT)
          (replicate 3 [1; 0; 0; 0]) [[0]] [] [] 4 1 defect.
Proof.
  destruct (COLLOCATION_dxdt_returns radau_points
              (example_COLLOCATION_defects IMPLICIT)
              (replicate 3 [1; 0; 0; 0])
              [[0]] [] [] (example_COLLOCATION_defects_well_formed _)
              radau_supplies_1)
    as (states_end & xall & defects & H).
  - simpl. lia.
  - now left.
  - intros t x u p a. apply decay_column.
  - discriminate.
  - exists states_end, xall, defects. split; [exact H |].
    destruct (collocation_implicit_defects radau_points
                (example_COLLOCATION_defects IMPLICIT)
                (replicate 3 [1; 0; 0; 0])
                [[0]] [] [] 4 states_end xall defects eq_refl)
      as (per_node & Hd & Hlen & Hnodes);
      [repeat constructor | exact H |].
    exists per_node. repeat split; try assumption.
    apply (Hnodes 1%nat). simpl. lia.
Defined.

(** ** The end state of [IRK.dxdt] *)

Lemma slice_length (v w : vec) (a b : nat) :
  slice v a b = Ok w -> length w = (b - a)%nat.
Proof.
  unfold slice. destruct (b <=? length v)%nat eqn:E; [| discriminate].
  apply Nat.leb_le in E. intros H. inversion H.
  rewrite length_take, length_drop. lia.
Qed.

Lemma IRK_node_length (z states_0 : vec) (r : nat) (x_r : vec) :
  IRK_node z states_0 r x_r -> length x_r = length states_0.
Proof.
  unfold IRK_node. destruct r as [|r]; cbn [Nat.eqb].
  - now intros ->.
  - intros H. rewrite (slice_length _ _ _ _ H).
    replace (S r - 1)%nat with r by lia. cbn [Nat.mul]. lia.
Qed.

(** The list [x] that [IRK.dxdt] builds. *)
Lemma IRK_x_loop (z states_0 : vec) :
  forall (len a : nat) (acc x : list vec),
    for_each (seq a len) acc
      (fun r x =>
         if (r =? 0)%nat then Ok (x ++ [states_0])
         else
           x_r <- slice z ((r - 1) * length states_0)
                    (r * length states_0) ;;
           Ok (x ++ [x_r])) = Ok x ->
    exists new,
      x = acc ++ new /\ Forall2 (IRK_node z states_0) (seq a len) new.
Proof.
  induction len as [|len IH]; intros a acc x H; cbn [seq for_each] in H.
  - inversion H. exists []. split; [now rewrite app_nil_r | constructor].
  - apply bind_Ok in H as (acc' & Hbody & H).
    destruct (IH _ _ _ H) as (new & -> & Hnew).
    destruct (a =? 0)%nat eqn:E.
    + inversion Hbody; subst acc'. exists (states_0 :: new).
      split; [now rewrite <- app_assoc |].
      constructor; [unfold IRK_node; now rewrite E | exact Hnew].
    + apply bind_Ok in Hbody as (x_r & Hx_r & Hbody).
      inversion Hbody; subst acc'. exists (x_r :: new).
      split; [now rewrite <- app_assoc |].
      constructor; [unfold IRK_node; now rewrite E | exact Hnew].
Qed.

Lemma IRK_partial_sum_S (n : nat) (d : list R) (x : list vec) (k : nat)
    (d_k : R) (x_k : vec) :
  d !! k = Some d_k -> x !! k = Some x_k ->
  IRK_partial_sum n d x (S k) = IRK_partial_sum n d x k +v d_k *v x_k.
Proof.
  intros Hd Hx. unfold IRK_partial_sum, weighted_sum.
  rewrite (take_S_r d k d_k Hd), (take_S_r x k x_k Hx).
  rewrite zip_with_app, fold_left_app; [reflexivity |].
  apply lookup_lt_Some in Hd. apply lookup_lt_Some in Hx.
  rewrite !length_take. lia.
Qed.

(** The loop of [IRK.dxdt] on [xf]: turn [r] reads the column before
    [r], the last column of zeros for [r = 0], and writes column [r]. *)
Lemma IRK_xf_loop (self : IRK) (x : list vec) (n : nat) (xf : matrix) :
  for_each (seq 0 (degree self + 1)) (cx_zeros n (degree self + 1))
    (IRK_dxdt_body self x) = Ok xf ->
  col_last xf = Ok (IRK_partial_sum n (_d self) x (degree self + 1)).
Proof.
  intros H.
  assert (Hinv : length xf = (degree self + 1)%nat /\
                 xf !! (if (0 + (degree self + 1) =? 0)%nat
                        then degree self
                        else (0 + (degree self + 1) - 1)%nat)
                 = Some (IRK_partial_sum n (_d self) x
                           (0 + (degree self + 1)))).
  { eapply (for_each_seq_inv
              (fun k (xf : matrix) =>
                 length xf = (degree self + 1)%nat /\
                 xf !! (if (k =? 0)%nat then degree self else (k - 1)%nat)
                 = Some (IRK_partial_sum n (_d self) x k)));
      [| | exact H].
    - unfold cx_zeros. rewrite length_replicate. split; [reflexivity |].
      cbn [Nat.eqb]. rewrite lookup_replicate_2 by lia. reflexivity.
    - intros r s s' Hr (Hlen & Hprev) Hbody.
      unfold IRK_dxdt_body in Hbody.
      apply bind_Ok in Hbody as (xf_prev & Hxf_prev & Hbody).
      apply bind_Ok in Hbody as (d_r & Hd_r & Hbody).
      apply bind_Ok in Hbody as (x_r & Hx_r & Hbody).
      inversion Hbody; subst s'; clear Hbody.
      rewrite length_insert. split; [exact Hlen |].
      cbn [Nat.eqb]. replace (S r - 1)%nat with r by lia.
      rewrite list_lookup_insert_eq by lia. f_equal.
      apply col_Ok in Hxf_prev. rewrite Hlen in Hxf_prev.
      replace (degree self + 1 - 1)%nat with (degree self)
        in Hxf_prev by lia.
      rewrite Hprev in Hxf_prev. inversion Hxf_prev; subst xf_prev.
      unfold entry in Hd_r.
      destruct (_d self !! r) as [d_r'|] eqn:Hd; [| discriminate].
      inversion Hd_r; subst d_r'.
      apply py_index_Ok in Hx_r.
      now rewrite (IRK_partial_sum_S n _ _ r d_r x_r Hd Hx_r). }
  destruct Hinv as (Hlen & Hlast). unfold col_last. apply col_Ok.
  rewrite Hlen.
  replace (0 + (degree self + 1) =? 0)%nat with false in Hlast
    by (symmetry; apply Nat.eqb_neq; lia).
  replace (0 + (degree self + 1) - 1)%nat with (degree self + 1 - 1)%nat
    in Hlast by lia.
  exact Hlast.
Qed.

Lemma slice_returns (v : vec) (a b : nat) :
  (b <= length v)%nat -> exists w, slice v a b = Ok w.
Proof.
  intros H. unfold slice.
  replace (b <=? length v)%nat with true
    by (symmetry; apply Nat.leb_le; exact H).
  eauto.
Qed.

(** With the weights 0, ..., 0, 1 the weighted sum is the last node. *)
Lemma weighted_sum_last (n : nat) :
  forall (d : nat) (x : list vec) (v : vec),
    Forall (fun s => length s = n) x ->
    x !! d = Some v -> length x = (d + 1)%nat ->
    weighted_sum n (replicate d 0 ++ [1]) x = v.
Proof.
  unfold weighted_sum.
  induction d as [|d IH]; intros [|s x] v Hall Hv Hlen;
    try discriminate Hv.
  - destruct x; [| discriminate Hlen]. inversion Hv; subst s.
    cbn [replicate app zip_with fold_left]. rewrite vscale_1.
    apply zeros_plus. now apply Forall_cons in Hall as (Hs & _).
  - cbn [replicate app zip_with fold_left].
    apply Forall_cons in Hall as (Hs & Hx).
    rewrite (zero_column n s Hs), zeros_plus_zeros.
    apply IH; [exact Hx | exact Hv | simpl in Hlen; lia].
Qed.

Section IRKScheme.

Variable collocation_points : nat -> string -> result (list R).

Variable rootfinder :
  string -> string -> function6 -> rootfinder_options -> function6.

Lemma IRK_dxdt_Ok (self : IRK) (states : list vec) (controls : matrix)
    (params : vec) (algebraic_states : matrix) (xf : vec) (xall : matrix) :
  IRK_dxdt collocation_points rootfinder self states controls params
    algebraic_states = Ok (xf, xall) ->
  exists states_0 x,
    py_index states 0 = Ok states_0 /\
    Forall2
      (IRK_node
         (IRK_x_irk_points collocation_points rootfinder self states
            states_0 controls params algebraic_states) states_0)
      (seq 0 (degree self + 1)) x /\
    xf = weighted_sum (length states_0) (_d self) x /\
    length xf = length states_0 /\
    xall = [states_0; xf].
Proof.
  intros H. unfold IRK_dxdt in H. cbv zeta in H.
  apply bind_Ok in H as (states_0 & Hs0 & H).
  apply bind_Ok in H as (out & _ & H).
  apply bind_Ok in H as (x & Hx & H).
  apply bind_Ok in H as (xf' & Hxf & H).
  apply bind_Ok in H as (xf_last & Hlast & H).
  inversion H; subst xf xall; clear H.
  unfold range in Hx, Hxf.
  replace (degree self + 1 - 0)%nat with (degree self + 1)%nat in Hx, Hxf
    by lia.
  destruct (IRK_x_loop _ _ _ _ _ _ Hx) as (new & Hnew & Hnodes).
  cbn [app] in Hnew. subst new.
  rewrite (IRK_xf_loop self x _ _ Hxf) in Hlast.
  inversion Hlast as [Hsum]; clear Hlast.
  assert (Hlen : length x = (degree self + 1)%nat)
    by (apply Forall2_length in Hnodes; now rewrite length_seq in Hnodes).
  assert (Hdim : Forall (fun s => length s = length states_0) x).
  { apply Forall_lookup. intros i s Hi.
    destruct (Forall2_lookup_r _ _ _ _ _ Hnodes Hi) as (r & _ & Hr).
    exact (IRK_node_length _ _ _ _ Hr). }
  assert (Heq : IRK_partial_sum (length states_0) (_d self) x
                  (degree self + 1)
                = weighted_sum (length states_0) (_d self) x).
  { unfold IRK_partial_sum, weighted_sum.
    rewrite (take_ge x) by lia.
    rewrite zip_with_take_l' by lia. reflexivity. }
  exists states_0, x. rewrite Heq.
  repeat split; try assumption.
  now apply weighted_sum_length.
Qed.

Lemma IRK_dxdt_returns (self : IRK) (states : list vec) (controls : matrix)
    (params : vec) (algebraic_states : matrix) (states_0 : vec) :
  well_formed_tables self ->
  supplies_points collocation_points (degree self) (method self) ->
  (degree self + 2 <= length states)%nat ->
  constant_control (control_type self) ->
  has_ode_column self ->
  defects_type self <> NOT_APPLICABLE ->
  py_index states 0 = Ok states_0 ->
  (degree self * length states_0
   <= length (IRK_x_irk_points collocation_points rootfinder self states
                states_0 controls params algebraic_states))%nat ->
  exists xf xall,
    IRK_dxdt collocation_points rootfinder self states controls params
      algebraic_states = Ok (xf, xall).
Proof.
  intros Hwf Hp Hlen Hu Hf Hmode Hs0 Hz. unfold IRK_dxdt. cbv zeta.
  rewrite Hs0. cbn [bind].
  destruct (COLLOCATION_dxdt_returns collocation_points self states controls
              params algebraic_states Hwf Hp Hlen Hu Hf Hmode)
    as (se & xall & defects & Hout).
  rewrite Hout. cbn [bind]. unfold range.
  replace (degree self + 1 - 0)%nat with (degree self + 1)%nat by lia.
  fold (IRK_x_irk_points collocation_points rootfinder self states states_0
          controls params algebraic_states).
  set (z := IRK_x_irk_points collocation_points rootfinder self states
              states_0 controls params algebraic_states) in *.
  destruct (for_each_seq_total (fun k (x : list vec) => length x = k)
              (fun r x =>
                 if (r =? 0)%nat then Ok (x ++ [states_0])
                 else
                   x_r <- slice z ((r - 1) * length states_0)
                            (r * length states_0) ;;
                   Ok (x ++ [x_r]))
              (degree self + 1) 0 []) as (x & Hx & Hxlen).
  - reflexivity.
  - intros r x Hr Hxl. destruct (r =? 0)%nat.
    + eexists. split; [reflexivity |]. rewrite length_app. simpl. lia.
    + destruct (slice_returns z ((r - 1) * length states_0)
                  (r * length states_0)) as [x_r Hx_r].
      * apply Nat.le_trans with (degree self * length states_0)%nat;
          [| exact Hz].
        apply Nat.mul_le_mono_r. lia.
      * rewrite Hx_r. cbn [bind]. eexists. split; [reflexivity |].
        rewrite length_app. simpl. lia.
  - rewrite Hx. cbn [bind].
    destruct (for_each_seq_total
                (fun _ (xf : matrix) => length xf = (degree self + 1)%nat)
                (IRK_dxdt_body self x) (degree self + 1) 0
                (cx_zeros (length states_0) (degree self + 1)))
      as (xf & Hxf & Hxflen).
    + unfold cx_zeros. apply length_replicate.
    + intros r xf Hr Hxfl. unfold IRK_dxdt_body.
      destruct (col_returns xf (if (r =? 0)%nat then (length xf - 1)%nat
                                else (r - 1)%nat)) as [xf_prev Hprev];
        [destruct (r =? 0)%nat; lia |].
      rewrite Hprev. cbn [bind].
      destruct (entry_returns (_d self) r) as [d_r Hd_r];
        [destruct Hwf as (Hd & _); lia |].
      rewrite Hd_r. cbn [bind].
      destruct (py_index_returns x r) as [x_r Hx_r]; [lia |].
      rewrite Hx_r. cbn [bind]. eexists. split; [reflexivity |].
      now rewrite length_insert.
    + rewrite Hxf. cbn [bind]. unfold col_last.
      destruct (col_returns xf (length xf - 1)) as [xf_last Hxf_last];
        [lia |].
      rewrite Hxf_last. cbn [bind]. eauto.
Qed.

(** X17: the end state [IRK.dxdt] returns is the sum, weighted by the table
    [_d], of the start state and of the [degree] blocks, each of the size
    of the start state, of what the root-finder returns; it has the size of
    the start state, and the trajectory is the start state followed by this
    end state. *)
Theorem IRK_end_state (self : IRK) (states : list vec) (controls : matrix)
    (params : vec) (algebraic_states : matrix) (xf : vec) (xall : matrix) :
  IRK_dxdt collocation_points rootfinder self states controls params
    algebraic_states = Ok (xf, xall) ->
  exists states_0 x,
    py_index states 0 = Ok states_0 /\
    Forall2
      (IRK_node
         (IRK_x_irk_points collocation_points rootfinder self states
            states_0 controls params algebraic_states) states_0)
      (seq 0 (degree self + 1)) x /\
    xf = weighted_sum (length states_0) (_d self) x /\
    length xf = length states_0 /\
    xall = horzcat [states_0; xf].
Proof. apply IRK_dxdt_Ok. Qed.

End IRKScheme.

Lemma IRK_end_state_witness :
  exists xf xall,
    IRK_dxdt radau_points constant_solver (example_COLLOCATION CONSTANT)
      (replicate 3 [1; 0; 0; 0]) [[0]] [] [] = Ok (xf, xall) /\
    exists states_0 x,
      py_index (replicate 3 [1; 0; 0; 0]) 0 = Ok states_0 /\
      Forall2
        (IRK_node
           (IRK_x_irk_points radau_points constant_solver
              (example_COLLOCATION CONSTANT) (replicate 3 [1; 0; 0; 0])
              states_0 [[0]] [] []) states_0)
        (seq 0 (1 + 1)) x /\
      xf = weighted_sum (length states_0) [0; 1] x /\
      length xf = length states_0 /\
      xall = horzcat [states_0; xf].
Proof.
  destruct (IRK_dxdt_returns radau_points constant_solver
              (example_COLLOCATION CONSTANT) (replicate 3 [1; 0; 0; 0])
              [[0]] [] [] [1; 0; 0; 0]
              (example_COLLOCATION_well_formed _) radau_supplies_1)
    as (xf & xall & H).
  - simpl. lia.
  - now left.
  - intros t x u p a. apply decay_column.
  - discriminate.
  - reflexivity.
  - simpl. lia.
  - exists xf, xall. split; [exact H |].
    exact (IRK_end_state radau_points constant_solver
             (example_COLLOCATION CONSTANT) (replicate 3 [1; 0; 0; 0])
             [[0]] [] [] xf xall H).
Defined.

Section IRKConstruction.

Variable collocation_points : nat -> string -> result (list R).

Variable rootfinder :
  string -> string -> function6 -> rootfinder_options -> function6.

Lemma IRK_init_Ok (ode : Ode.t (list vec)) (ode_opt : OdeOpt.t)
    (b : built IRK (vec * matrix)) :
  IRK_init collocation_points rootfinder ode ode_opt = Ok b ->
  COLLOCATION_initialize collocation_points
    (Integrator_attributes ode ode_opt) ode_opt = Ok (object b) /\
  x_sym (object b) = Ode.x ode /\ u_sym (object b) = Ode.u ode /\
  param_sym (object b) = Ode.param ode /\ a_sym (object b) = Ode.a ode /\
  degree (object b) = OdeOpt.irk_polynomial_interpolation_degree ode_opt /\
  IRK_dxdt collocation_points rootfinder (object b) (Ode.x ode) (Ode.u ode)
    (Ode.param ode) (Ode.a ode) = Ok (function b).
Proof.
  intros H. unfold IRK_init in H.
  apply bind_Ok in H as (self & Hself & H).
  apply bind_Ok in H as (x0 & _ & H).
  apply bind_Ok in H as (outputs & Hdxdt & H).
  inversion H; subst b; clear H. cbn [object function].
  assert (Hattr : COLLOCATION_super self = Integrator_attributes ode ode_opt
                  /\ degree self
                     = OdeOpt.irk_polynomial_interpolation_degree ode_opt).
  { unfold COLLOCATION_initialize in Hself. cbv zeta in Hself.
    apply bind_Ok in Hself as (cd & _ & Hself').
    inversion Hself'. split; reflexivity. }
  destruct Hattr as (Hsuper & Hdeg).
  split; [exact Hself |].
  rewrite Hsuper in Hdxdt |- *. repeat split; [exact Hdeg | exact Hdxdt].
Qed.

Lemma IRK_init_returns (ode : Ode.t (list vec)) (ode_opt : OdeOpt.t) :
  supplies_points collocation_points
    (OdeOpt.irk_polynomial_interpolation_degree ode_opt)
    (OdeOpt.method ode_opt) ->
  (OdeOpt.irk_polynomial_interpolation_degree ode_opt + 2
   <= length (Ode.x ode))%nat ->
  constant_control (OdeOpt.control_type ode_opt) ->
  (forall t x u p a, (OdeOpt.ode_index ode_opt
                      < length (Ode.ode ode t x u p a))%nat) ->
  OdeOpt.defects_type ode_opt <> NOT_APPLICABLE ->
  (forall f o g t x0 u p a,
      (OdeOpt.irk_polynomial_interpolation_degree ode_opt * length x0
       <= length (rootfinder "ifcn" "newton" f o g t x0 u p a))%nat) ->
  exists b, IRK_init collocation_points rootfinder ode ode_opt = Ok b.
Proof.
  intros Hp Hlen Hu Hf Hmode Hz. unfold IRK_init.
  destruct (COLLOCATION_initialize_returns collocation_points
              (Integrator_attributes ode ode_opt) ode_opt Hp)
    as (self & Hself & Hsuper & Hdeg & Hmeth & Hwf).
  rewrite Hself. cbn [bind]. unfold IRK_x_sym_modified.
  destruct (py_index_returns (x_sym self) 0) as [states_0 Hs0];
    [rewrite Hsuper; unfold Integrator_attributes; cbn [x_sym]; lia |].
  rewrite Hs0. cbn [bind].
  destruct (IRK_dxdt_returns collocation_points rootfinder self (x_sym self)
              (u_sym self) (param_sym self) (a_sym self) states_0 Hwf)
    as (xf & xall & H).
  - now rewrite Hdeg, Hmeth.
  - rewrite Hdeg, Hsuper. exact Hlen.
  - rewrite Hsuper. exact Hu.
  - rewrite Hsuper. exact Hf.
  - rewrite Hsuper. exact Hmode.
  - exact Hs0.
  - unfold IRK_x_irk_points. rewrite Hdeg. apply Hz.
  - rewrite H. cbn [bind]. eauto.
Qed.

(** X18: an [IRK] built with the method ["radau"] and a degree of at least
    1 returns as its end state the last block, of the size of the start
    state, of what the root-finder returns: the start state and the earlier
    blocks have the weight 0. *)
Theorem IRK_radau_end_state (ode : Ode.t (list vec)) (ode_opt : OdeOpt.t)
    (b : built IRK (vec * matrix)) :
  OdeOpt.method ode_opt = "radau"%string ->
  (1 <= OdeOpt.irk_polynomial_interpolation_degree ode_opt)%nat ->
  IRK_init collocation_points rootfinder ode ode_opt = Ok b ->
  exists states_0,
    py_index (Ode.x ode) 0 = Ok states_0 /\
    slice
      (IRK_x_irk_points collocation_points rootfinder (object b) (Ode.x ode)
         states_0 (Ode.u ode) (Ode.param ode) (Ode.a ode))
      ((OdeOpt.irk_polynomial_interpolation_degree ode_opt - 1)
       * length states_0)
      (OdeOpt.irk_polynomial_interpolation_degree ode_opt * length states_0)
    = Ok (fst (function b)).
Proof.
  intros Hm Hdeg1 H.
  destruct (IRK_init_Ok ode ode_opt b H)
    as (Hself & _ & _ & _ & _ & Hdeg & Hdxdt).
  destruct (function b) as [xf xall]. cbn [fst].
  assert (Hd : _d (object b) = replicate (degree (object b)) 0 ++ [1]).
  { rewrite (initialize_d_entries collocation_points
               (Integrator_attributes ode ode_opt) ode_opt
               (last_node_weight (degree (object b))) (object b));
      [| | exact Hself].
    - apply last_node_weights.
    - intros j _l Hj H_l. rewrite Hm, Hdeg. reflexivity. }
  destruct (IRK_dxdt_Ok collocation_points rootfinder _ _ _ _ _ _ _ Hdxdt)
    as (states_0 & x & Hs0 & Hnodes & Hxf & _ & _).
  exists states_0. split; [exact Hs0 |].
  assert (Hlen : length x = (degree (object b) + 1)%nat)
    by (apply Forall2_length in Hnodes; now rewrite length_seq in Hnodes).
  destruct (lookup_lt_is_Some_2 x (degree (object b))) as [v Hv]; [lia |].
  assert (Hnode : IRK_node
                    (IRK_x_irk_points collocation_points rootfinder
                       (object b) (Ode.x ode) states_0 (Ode.u ode)
                       (Ode.param ode) (Ode.a ode))
                    states_0 (degree (object b)) v).
  { destruct (Forall2_lookup_r _ _ _ _ _ Hnodes Hv) as (r & Hr & Hnode).
    apply lookup_seq in Hr as (-> & _). exact Hnode. }
  assert (Hdim : Forall (fun s => length s = length states_0) x).
  { apply Forall_lookup. intros i s Hi.
    destruct (Forall2_lookup_r _ _ _ _ _ Hnodes Hi) as (r & _ & Hr).
    exact (IRK_node_length _ _ _ _ Hr). }
  rewrite Hd, (weighted_sum_last _ _ _ v Hdim Hv Hlen) in Hxf. subst xf.
  unfold IRK_node in Hnode. rewrite Hdeg in Hnode.
  replace (OdeOpt.irk_polynomial_interpolation_degree ode_opt =? 0)%nat
    with false in Hnode by (symmetry; apply Nat.eqb_neq; lia).
  exact Hnode.
Qed.

(** X19: for a built [IRK] the shape properties describe the outputs: the
    end state has [shape_xf[0]] components, and the trajectory has
    [shape_xall[1] = 2] columns of [shape_xall[0]] components each. *)
Theorem IRK_shapes_describe_outputs (ode : Ode.t (list vec))
    (ode_opt : OdeOpt.t) (b : built IRK (vec * matrix)) :
  IRK_init collocation_points rootfinder ode ode_opt = Ok b ->
  IRK_shape_xf (object b) = Ok [length (fst (function b)); 1%nat] /\
  IRK_shape_xall (object b)
  = Ok [length (fst (function b)); length (snd (function b))] /\
  Forall (fun column => length column = length (fst (function b)))
    (snd (function b)).
Proof.
  intros H.
  destruct (IRK_init_Ok ode ode_opt b H)
    as (_ & Hx & _ & _ & _ & _ & Hdxdt).
  destruct (function b) as [xf xall]. cbn [fst snd].
  destruct (IRK_dxdt_Ok collocation_points rootfinder _ _ _ _ _ _ _ Hdxdt)
    as (states_0 & x & Hs0 & _ & _ & Hlen & ->).
  unfold IRK_shape_xf, IRK_shape_xall, IRK_x_sym_modified.
  rewrite Hx, Hs0. cbn [bind length]. rewrite Hlen.
  repeat split.
  constructor; [reflexivity |]. constructor; [exact Hlen | constructor].
Qed.

End IRKConstruction.

Lemma example_IRK_init :
  exists b,
    IRK_init radau_points constant_solver (example_COLLOCATION_ode 3)
      (example_opt no_quaternion CONSTANT false 1 3) = Ok b.
Proof.
  apply (IRK_init_returns radau_points constant_solver
           (example_COLLOCATION_ode 3)
           (example_opt no_quaternion CONSTANT false 1 3)).
  - exact radau_supplies_3.
  - simpl. lia.
  - now left.
  - intros. apply decay_column.
  - discriminate.
  - intros. unfold constant_solver. rewrite !length_app. simpl. lia.
Qed.

Lemma IRK_radau_end_state_witness :
  exists b,
    IRK_init radau_points constant_solver (example_COLLOCATION_ode 3)
      (example_opt no_quaternion CONSTANT false 1 3) = Ok b /\
    exists states_0,
      py_index (Ode.x (example_COLLOCATION_ode 3)) 0 = Ok states_0 /\
      slice
        (IRK_x_irk_points radau_points constant_solver (object b)
           (Ode.x (example_COLLOCATION_ode 3)) states_0
           (Ode.u (example_COLLOCATION_ode 3))
           (Ode.param (example_COLLOCATION_ode 3))
           (Ode.a (example_COLLOCATION_ode 3)))
        ((3 - 1) * length states_0) (3 * length states_0)
      = Ok (fst (function b)).
Proof.
  destruct example_IRK_init as (b & Hb).
  exists b. split; [exact Hb |].
  apply (IRK_radau_end_state radau_points constant_solver
           (example_COLLOCATION_ode 3)
           (example_opt no_quaternion CONSTANT false 1 3) b).
  - reflexivity.
  - simpl. lia.
  - exact Hb.
Defined.

Lemma IRK_shapes_describe_outputs_witness :
  exists b,
    IRK_init radau_points constant_solver (example_COLLOCATION_ode 3)
      (example_opt no_quaternion CONSTANT false 1 3) = Ok b /\
    IRK_shape_xf (object b) = Ok [length (fst (function b)); 1%nat] /\
    IRK_shape_xall (object b)
    = Ok [length (fst (function b)); length (snd (function b))] /\
    Forall (fun column => length column = length (fst (function b)))
      (snd (function b)).
Proof.
  destruct example_IRK_init as (b & Hb).
  exists b. split; [exact Hb |].
  exact (IRK_shapes_describe_outputs radau_points constant_solver
           (example_COLLOCATION_ode 3)
           (example_opt no_quaternion CONSTANT false 1 3) b Hb).
Defined.

(** ** The time grid of [COLLOCATION] *)

Section CollocationTimeGrid.

Variable collocation_points : nat -> string -> result (list R).

(** X20: when CasADi supplies [degree] points, the time grid of a
    [COLLOCATION] has [degree + 2] entries, the number of columns
    [shape_xall] announces, whatever the duplicate-starting-point flag; it
    starts on the start time and ends on the start time plus the duration,
    and its entry [j], for [j] up to [degree], is the time of node [j]:
    the start time plus the duration times [_integration_time[j]], at
    which [dxdt] evaluates the dynamics of that node. *)
Theorem COLLOCATION_time_grid (self : COLLOCATION) (t_span : R * R) :
  supplies_points collocation_points (degree self) (method self) ->
  exists step_time,
    COLLOCATION_time_xall_from_dt_func collocation_points self
    = Ok step_time /\
    COLLOCATION_shape_xall self
    = [fst (shape (COLLOCATION_x_sym_modified self));
       length (step_time t_span)] /\
    step_time t_span !! 0%nat = Some (fst t_span) /\
    step_time t_span !! (degree self + 1)%nat
    = Some (fst t_span + snd t_span) /\
    forall j t_j,
      integration_time_at collocation_points (degree self) (method self) j
      = Ok t_j ->
      step_time t_span !! j = Some (fst t_span + t_j * snd t_span).
Proof.
  intros (points & Hp & Hlen).
  unfold COLLOCATION_time_xall_from_dt_func, COLLOCATION_integration_time,
    integration_time, integration_time_at.
  rewrite Hp. cbn [bind]. eexists. split; [reflexivity |].
  unfold vscale_r. cbv beta. split; [| split; [| split]].
  - unfold COLLOCATION_shape_xall. rewrite !length_map, length_app.
    cbn [length]. rewrite Hlen. do 2 f_equal. lia.
  - cbn. f_equal. lra.
  - rewrite !list_lookup_fmap.
    change (0 :: points) with ([0] ++ points). rewrite <- app_assoc.
    rewrite lookup_app_r by (simpl; lia).
    rewrite lookup_app_r by (simpl; lia).
    cbn [length]. rewrite Hlen.
    replace (degree self + 1 - 1 - degree self)%nat with 0%nat by lia.
    cbn. f_equal. lra.
  - intros j t_j Hj. unfold integration_time_at, integration_time in Hj.
    rewrite Hp in Hj. cbn [bind] in Hj. apply py_index_Ok in Hj.
    rewrite !list_lookup_fmap, lookup_app_l
      by (apply lookup_lt_Some in Hj; exact Hj).
    rewrite Hj. reflexivity.
Qed.

End CollocationTimeGrid.

Lemma COLLOCATION_time_grid_witness :
  exists step_time,
    COLLOCATION_time_xall_from_dt_func radau_points
      (example_COLLOCATION CONSTANT) = Ok step_time /\
    COLLOCATION_shape_xall (example_COLLOCATION CONSTANT)
    = [fst (shape (COLLOCATION_x_sym_modified
                     (example_COLLOCATION CONSTANT)));
       length (step_time (0, 1))] /\
    step_time (0, 1) !! 0%nat = Some (fst (0, 1)) /\
    step_time (0, 1) !! (1 + 1)%nat = Some (fst (0, 1) + snd (0, 1)) /\
    forall j t_j,
      integration_time_at radau_points 1 "radau" j = Ok t_j ->
      step_time (0, 1) !! j = Some (fst (0, 1) + t_j * snd (0, 1)).
Proof.
  exact (COLLOCATION_time_grid radau_points (example_COLLOCATION CONSTANT)
           (0, 1) radau_supplies_1).
Defined.

(** ** The class [CVODES] *)

(** X21: the class [CVODES] overrides nothing of [Integrator], so that its
    construction raises for every description and every options: the
    [NotImplementedError] of the property [_time_xall_from_dt_func], read
    before [dxdt] is called, and not the [RuntimeError] of the abstract
    [dxdt]. *)
Theorem CVODES_cannot_be_built (ode : Ode.t vec) (ode_opt : OdeOpt.t) :
  CVODES_init ode ode_opt = Raise not_implemented /\
  CVODES_init ode ode_opt <> Raise is_abstract /\
  forall b, CVODES_init ode ode_opt <> Ok b.
Proof.
  unfold CVODES_init, Integrator_initialize,
    Integrator_time_xall_from_dt_func.
  cbn [bind]. repeat split; [discriminate | intros b; discriminate].
Qed.

(** ** The trapezoidal rule on linear dynamics *)

Lemma trapezoidal_linear_fixed_point (lam h : R) :
  lam * h <> 2 ->
  forall x y : vec,
    length y = length x ->
    x +v (lam *v x +v lam *v y) v* h v/ 2 = y <->
    y = trapezoidal_amplification (lam * h) *v x.
Proof.
  intros Hz. unfold trapezoidal_amplification.
  assert (Hden : 1 - lam * h / 2 <> 0) by lra.
  induction x as [|a x IH]; intros [|b y] Hlen; try discriminate Hlen.
  - split; reflexivity.
  - cbn [vadd vscale vscale_r vdiv zip_with map] in *.
    injection Hlen as Hlen. specialize (IH y Hlen).
    split; intros H; injection H as Hhead Htail.
    + f_equal.
      * apply Rmult_eq_reg_r with (1 - lam * h / 2); [| exact Hden].
        replace ((1 + lam * h / 2) / (1 - lam * h / 2) * a
                 * (1 - lam * h / 2))
          with ((1 + lam * h / 2) * a) by (field; lra).
        lra.
      * apply IH. exact Htail.
    + f_equal.
      * rewrite Hhead. field. lra.
      * apply IH. exact Htail.
Qed.

(** X22: on the dynamics [dx/dt = lam x], for a model without quaternion
    and with [lam h] other than 2, [TRAPEZOIDAL.dxdt] returns the end state
    it was given exactly when this end state is the start state times
    [(1 + lam h / 2) / (1 - lam h / 2)], the amplification of the
    trapezoidal rule. *)
Theorem TRAPEZOIDAL_linear_end_state (self : TRAPEZOIDAL) (lam : R)
    (x_start x_end u_start u_end : vec) (controls : matrix) (params : vec) :
  fun_ self = linear lam -> ode_idx self = 0%nat ->
  nb_quaternions (model self) = 0%nat ->
  lam * snd (t_span_sym self) <> 2 ->
  length x_end = length x_start ->
  exists xf,
    TRAPEZOIDAL_dxdt self [x_start; x_end] (u_start :: u_end :: controls)
      params [] = Ok (xf, [x_start; xf]) /\
    (xf = x_end <->
     x_end = trapezoidal_amplification (lam * snd (t_span_sym self))
             *v x_start).
Proof.
  intros Hf Hidx Hq Hz Hlen.
  exists (x_start +v (lam *v x_start +v lam *v x_end)
            v* snd (t_span_sym self) v/ 2).
  split; [| now apply trapezoidal_linear_fixed_point].
  unfold TRAPEZOIDAL_dxdt. cbv zeta.
  cbn [col lookup list_lookup bind].
  destruct (decide (shape [] <> (0%nat, 0%nat))) as [Hs|_];
    [exfalso; now apply Hs |].
  cbn [bind fst snd]. unfold cx_zeros.
  cbn [replicate insert list_insert col lookup list_lookup bind].
  unfold TRAPEZOIDAL_next_x, TRAPEZOIDAL_h, fun_col. cbv zeta.
  rewrite Hf, Hidx. unfold linear.
  cbn [col lookup list_lookup bind]. rewrite Hq.
  cbn [Nat.ltb Nat.leb insert list_insert col lookup list_lookup bind].
  reflexivity.
Qed.

Lemma TRAPEZOIDAL_linear_end_state_witness :
  exists xf,
    TRAPEZOIDAL_dxdt (example_TRAPEZOIDAL_linear (-1))
      [[3; 0; 0; 0]; [1; 0; 0; 0]] [[0]; [0]] [] []
    = Ok (xf, [[3; 0; 0; 0]; xf]) /\
    (xf = [1; 0; 0; 0] <->
     [1; 0; 0; 0] = trapezoidal_amplification (-1 * 1) *v [3; 0; 0; 0]).
Proof.
  apply (TRAPEZOIDAL_linear_end_state (example_TRAPEZOIDAL_linear (-1)) (-1)
           [3; 0; 0; 0] [1; 0; 0; 0] [0] [0] [] []).
  - reflexivity.
  - reflexivity.
  - reflexivity.
  - simpl. lra.
  - reflexivity.
Defined.

(** ** The tables [_c] and [_d] and the Lagrange polynomials *)

Lemma derivable_pt_lim_ext (f g : R -> R) (x l : R) :
  (forall y, f y = g y) -> derivable_pt_lim f x l -> derivable_pt_lim g x l.
Proof.
  intros Hext H eps Heps. destruct (H eps Heps) as [delta Hdelta].
  exists delta. intros h Hh Hlt. rewrite <- !Hext. now apply Hdelta.
Qed.

(** The second component of [lagrange_factor] is the derivative of the
    first. *)
Lemma lagrange_factor_derivative (t_r den tau : R) :
  derivable_pt_lim (fun t => fst (lagrange_factor t t_r den)) tau
    (snd (lagrange_factor tau t_r den)).
Proof.
  unfold lagrange_factor. cbn [fst snd].
  apply (derivable_pt_lim_ext
           (mult_real_fct (/ den) (id - fct_cte t_r)%F)).
  - intros y. unfold mult_real_fct, minus_fct, id, fct_cte, Rdiv. ring.
  - replace (1 / den) with (/ den * (1 - 0)) by (unfold Rdiv; ring).
    apply derivable_pt_lim_scal. apply derivable_pt_lim_minus.
    + apply derivable_pt_lim_id.
    + apply derivable_pt_lim_const.
Qed.

(** [dual_mul] is the product rule. *)
Lemma dual_mul_derivative (p q : R -> dual) (tau : R) :
  derivable_pt_lim (fun t => fst (p t)) tau (snd (p tau)) ->
  derivable_pt_lim (fun t => fst (q t)) tau (snd (q tau)) ->
  derivable_pt_lim (fun t => fst (dual_mul (p t) (q t))) tau
    (snd (dual_mul (p tau) (q tau))).
Proof.
  intros Hp Hq. unfold dual_mul. cbn [fst snd].
  exact (derivable_pt_lim_mult _ _ _ _ _ Hp Hq).
Qed.

Section CollocationTableValues.

Variable collocation_points : nat -> string -> result (list R).

(** The loop that builds [_l] keeps, in the second component, the
    derivative of the first. *)
Lemma lagrange_loop_derivative (d : nat) (m : string) (j : nat) :
  forall (indices : list nat) (acc res : R -> dual),
    (forall tau, derivable_pt_lim (fun t => fst (acc t)) tau
                   (snd (acc tau))) ->
    for_each indices acc
      (fun r _l =>
         if negb (r =? j)%nat then
           t_r <- integration_time_at collocation_points d m r ;;
           t_j <- integration_time_at collocation_points d m j ;;
           t_r' <- integration_time_at collocation_points d m r ;;
           Ok (fun tau =>
                 dual_mul (_l tau) (lagrange_factor tau t_r (t_j - t_r')))
         else Ok _l) = Ok res ->
    forall tau, derivable_pt_lim (fun t => fst (res t)) tau (snd (res tau)).
Proof.
  induction indices as [|r indices IH]; intros acc res Hacc H.
  - inversion H; subst res. exact Hacc.
  - cbn [for_each] in H. apply bind_Ok in H as (acc' & Hbody & H).
    apply (IH acc' res); [| exact H].
    destruct (r =? j)%nat; cbn [negb] in Hbody.
    + inversion Hbody; subst acc'. exact Hacc.
    + apply bind_Ok in Hbody as (t_r & _ & Hbody).
      apply bind_Ok in Hbody as (t_j & _ & Hbody).
      apply bind_Ok in Hbody as (t_r' & _ & Hbody).
      inversion Hbody; subst acc'; clear Hbody.
      intros tau.
      apply (dual_mul_derivative acc
               (fun t => lagrange_factor t t_r (t_j - t_r')) tau).
      * apply Hacc.
      * apply lagrange_factor_derivative.
Qed.

(** What [_initialize] gets from [tangent(_l, time_control_interval)]: the
    derivative of the Lagrange polynomial of node [j]. *)
Lemma lagrange_derivative (d : nat) (m : string) (times : list R) (j : nat)
    (_l : R -> dual) :
  integration_time collocation_points d m = Ok times ->
  length times = (d + 1)%nat ->
  lagrange collocation_points d m j = Ok _l ->
  forall tau,
    derivable_pt_lim (lagrange_polynomial times j) tau (snd (_l tau)).
Proof.
  intros Htimes Hlen H tau.
  apply (derivable_pt_lim_ext (fun t => fst (_l t))).
  - intros y. unfold lagrange_polynomial. rewrite Hlen.
    exact (lagrange_fst collocation_points d m times j _l Htimes H y).
  - unfold lagrange in H.
    apply (lagrange_loop_derivative d m j (range 0 (d + 1))
             (fun _ : R => (1, 0)) _l); [| exact H].
    intros tau'. cbn [fst snd]. exact (derivable_pt_lim_const 1 tau').
Qed.

End CollocationTableValues.

Lemma entry2_set_entry2_eq (m : list (list R)) (n i j : nat) (c : R) :
  length m = n -> Forall (fun row => length row = n) m ->
  (i < n)%nat -> (j < n)%nat ->
  entry2 (set_entry2 m i j c) i j = Ok c.
Proof.
  intros Hlen Hrows Hi Hj. unfold entry2, set_entry2, entry.
  destruct (lookup_lt_is_Some_2 m i) as [row Hrow]; [lia |].
  rewrite Hrow.
  pose proof (proj1 (Forall_lookup _ _) Hrows _ _ Hrow) as Hr.
  cbv beta in Hr.
  rewrite list_lookup_insert_eq by lia.
  rewrite list_lookup_insert_eq by lia. reflexivity.
Qed.

Lemma entry2_set_entry2_ne (m : list (list R)) (i j i' j' : nat) (c : R) :
  i' <> i \/ j' <> j ->
  entry2 (set_entry2 m i j c) i' j' = entry2 m i' j'.
Proof.
  intros Hne. unfold entry2, set_entry2, entry.
  destruct (m !! i) as [row|] eqn:Hrow; [| reflexivity].
  destruct (decide (i' = i)) as [->|Hi].
  - rewrite list_lookup_insert_eq by (apply lookup_lt_Some in Hrow; lia).
    rewrite Hrow. destruct Hne as [Hne|Hne]; [congruence |].
    now rewrite list_lookup_insert_ne by congruence.
  - now rewrite list_lookup_insert_ne by congruence.
Qed.

Section CollocationTableC.

Variable collocation_points : nat -> string -> result (list R).

(** The inner loop of [_initialize] that fills row [j] of [_c]. *)
Lemma initialize_c_row (d : nat) (m : string) (times : list R) (j : nat)
    (_l : R -> dual) (c c' : list (list R)) :
  integration_time collocation_points d m = Ok times ->
  length c = (d + 1)%nat ->
  Forall (fun row => length row = (d + 1)%nat) c ->
  (j <= d)%nat ->
  for_each (seq 0 (d + 1)) c
    (fun r _c =>
       t_r <- integration_time_at collocation_points d m r ;;
       Ok (set_entry2 _c j r (snd (_l t_r)))) = Ok c' ->
  length c' = (d + 1)%nat /\
  Forall (fun row => length row = (d + 1)%nat) c' /\
  (forall r, (r <= d)%nat ->
             entry2 c' j r = Ok (snd (_l (nth r times 0)))) /\
  (forall i r, i <> j -> entry2 c' i r = entry2 c i r).
Proof.
  intros Htimes Hlen Hrows Hj H.
  assert (Hinv : length c' = (d + 1)%nat /\
                 Forall (fun row => length row = (d + 1)%nat) c' /\
                 (forall r, (r < 0 + (d + 1))%nat ->
                            entry2 c' j r = Ok (snd (_l (nth r times 0)))) /\
                 (forall i r, i <> j -> entry2 c' i r = entry2 c i r)).
  { eapply (for_each_seq_inv
              (fun k (c' : list (list R)) =>
                 length c' = (d + 1)%nat /\
                 Forall (fun row => length row = (d + 1)%nat) c' /\
                 (forall r, (r < k)%nat ->
                            entry2 c' j r = Ok (snd (_l (nth r times 0)))) /\
                 (forall i r, i <> j -> entry2 c' i r = entry2 c i r)));
      [| | exact H].
    - repeat split; [exact Hlen | exact Hrows | intros r Hr; lia].
    - intros r s s' Hr (Hl & Hrw & Hrow & Hother) Hbody.
      apply bind_Ok in Hbody as (t_r & Ht_r & Hbody).
      inversion Hbody; subst s'; clear Hbody.
      rewrite (integration_time_at_nth collocation_points d m times r t_r
                 Htimes Ht_r).
      split; [now rewrite set_entry2_length |].
      split; [now apply set_entry2_rows |]. split.
      + intros r' Hr'. destruct (decide (r' = r)) as [->|Hne].
        * apply (entry2_set_entry2_eq s (d + 1)); [exact Hl | exact Hrw | |];
            lia.
        * rewrite entry2_set_entry2_ne by (right; exact Hne).
          apply Hrow. lia.
      + intros i r' Hi.
        rewrite entry2_set_entry2_ne by (left; exact Hi).
        now apply Hother. }
  destruct Hinv as (Hl & Hrw & Hrow & Hother).
  repeat split; [exact Hl | exact Hrw | | exact Hother].
  intros r Hr. apply Hrow. lia.
Qed.

(** What one turn of the outer loop of [_initialize] writes in [_c]. *)
Lemma initialize_body_c (d : nat) (m : string) (times : list R) (j : nat)
    (cd cd' : list (list R) * list R) :
  integration_time collocation_points d m = Ok times ->
  length (fst cd) = (d + 1)%nat ->
  Forall (fun row => length row = (d + 1)%nat) (fst cd) ->
  (j <= d)%nat ->
  initialize_body collocation_points d m j cd = Ok cd' ->
  exists _l,
    lagrange collocation_points d m j = Ok _l /\
    length (fst cd') = (d + 1)%nat /\
    Forall (fun row => length row = (d + 1)%nat) (fst cd') /\
    (forall r, (r <= d)%nat ->
               entry2 (fst cd') j r = Ok (snd (_l (nth r times 0)))) /\
    (forall i r, i <> j -> entry2 (fst cd') i r = entry2 (fst cd) i r).
Proof.
  intros Htimes Hlen Hrows Hj H. unfold initialize_body in H. cbv zeta in H.
  apply bind_Ok in H as (_l0 & _ & H).
  apply bind_Ok in H as (_l & H_l & H).
  apply bind_Ok in H as (c' & Hc' & H).
  inversion H; subst cd'; clear H. cbn [fst].
  exists _l. split; [exact H_l |].
  unfold range in Hc'.
  replace (d + 1 - 0)%nat with (d + 1)%nat in Hc' by lia.
  exact (initialize_c_row d m times j _l (fst cd) c' Htimes Hlen Hrows Hj
           Hc').
Qed.

(** The table [_c] that [_initialize] builds: entry [(j, r)] is what
    [tangent] gives for the Lagrange polynomial of node [j] at the time of
    node [r]. *)
Lemma initialize_c_entries (base : Integrator (list vec))
    (ode_opt : OdeOpt.t) (times : list R) (self : COLLOCATION) :
  integration_time collocation_points
    (OdeOpt.irk_polynomial_interpolation_degree ode_opt)
    (OdeOpt.method ode_opt) = Ok times ->
  COLLOCATION_initialize collocation_points base ode_opt = Ok self ->
  forall j r, (j <= degree self)%nat -> (r <= degree self)%nat ->
    exists _l,
      lagrange collocation_points (degree self) (method self) j = Ok _l /\
      entry2 (_c self) j r = Ok (snd (_l (nth r times 0))).
Proof.
  intros Htimes H. unfold COLLOCATION_initialize in H. cbv zeta in H.
  set (d := OdeOpt.irk_polynomial_interpolation_degree ode_opt) in *.
  set (m := OdeOpt.method ode_opt) in *.
  apply bind_Ok in H as (cd & Hloop & H).
  inversion H; subst self; clear H. cbn [_c degree method].
  unfold range in Hloop.
  replace (d + 1 - 0)%nat with (d + 1)%nat in Hloop by lia.
  assert (Hinv : length (fst cd) = (d + 1)%nat /\
                 Forall (fun row => length row = (d + 1)%nat) (fst cd) /\
                 forall j r, (j < 0 + (d + 1))%nat -> (r <= d)%nat ->
                   exists _l,
                     lagrange collocation_points d m j = Ok _l /\
                     entry2 (fst cd) j r = Ok (snd (_l (nth r times 0)))).
  { eapply (for_each_seq_inv
              (fun k (cd : list (list R) * list R) =>
                 length (fst cd) = (d + 1)%nat /\
                 Forall (fun row => length row = (d + 1)%nat) (fst cd) /\
                 forall j r, (j < k)%nat -> (r <= d)%nat ->
                   exists _l,
                     lagrange collocation_points d m j = Ok _l /\
                     entry2 (fst cd) j r
                     = Ok (snd (_l (nth r times 0)))));
      [| | exact Hloop].
    - cbn [fst]. rewrite length_replicate. repeat split.
      + apply Forall_replicate. apply length_replicate.
      + intros j r Hj. lia.
    - intros j s s' Hj (Hl & Hrw & Hdone) Hbody.
      destruct (initialize_body_c d m times j s s' Htimes Hl Hrw)
        as (_l & H_l & Hl' & Hrw' & Hrow & Hother); [lia | exact Hbody |].
      repeat split; [exact Hl' | exact Hrw' |].
      intros j' r Hj' Hr. destruct (decide (j' = j)) as [->|Hne].
      + exists _l. split; [exact H_l | now apply Hrow].
      + destruct (Hdone j' r) as (_l' & H_l' & He); [lia | exact Hr |].
        exists _l'. split; [exact H_l' |].
        now rewrite Hother.
  }
  destruct Hinv as (_ & _ & Hdone).
  intros j r Hj Hr. apply Hdone; [lia | exact Hr].
Qed.

(** The entries of [_c] are the derivatives of the Lagrange polynomials at
    the node times. *)
Lemma initialize_c_derivatives (base : Integrator (list vec))
    (ode_opt : OdeOpt.t) (points : list R) (self : COLLOCATION) :
  collocation_points (OdeOpt.irk_polynomial_interpolation_degree ode_opt)
    (OdeOpt.method ode_opt) = Ok points ->
  length points = OdeOpt.irk_polynomial_interpolation_degree ode_opt ->
  COLLOCATION_initialize collocation_points base ode_opt = Ok self ->
  forall k j w, (k <= degree self)%nat -> (j <= degree self)%nat ->
    entry2 (_c self) k j = Ok w ->
    derivable_pt_lim (lagrange_polynomial (0 :: points) k)
      (nth j (0 :: points) 0) w.
Proof.
  intros Hp Hlen H k j w Hk Hj Hw.
  assert (Htimes : integration_time collocation_points
                     (OdeOpt.irk_polynomial_interpolation_degree ode_opt)
                     (OdeOpt.method ode_opt) = Ok (0 :: points))
    by (unfold integration_time; now rewrite Hp).
  assert (Hattr : degree self
                  = OdeOpt.irk_polynomial_interpolation_degree ode_opt /\
                  method self = OdeOpt.method ode_opt).
  { unfold COLLOCATION_initialize in H. cbv zeta in H.
    apply bind_Ok in H as (cd & _ & H). inversion H. split; reflexivity. }
  destruct Hattr as (Hdeg & Hmeth).
  destruct (initialize_c_entries base ode_opt (0 :: points) self Htimes H
              k j Hk Hj) as (_l & H_l & He).
  rewrite Hw in He. inversion He; subst w.
  rewrite Hdeg, Hmeth in H_l.
  apply (lagrange_derivative collocation_points _ _ (0 :: points) k _l
           Htimes); [simpl; lia | exact H_l].
Qed.

End CollocationTableC.

(** A Lagrange polynomial is 1 at the time of its node and 0 at the times
    of the other nodes. *)
Lemma lagrange_polynomial_cardinal (times : list R) (k i : nat) :
  NoDup times -> (k < length times)%nat -> (i < length times)%nat ->
  lagrange_polynomial times k (nth i times 0)
  = if (k =? i)%nat then 1 else 0.
Proof.
  intros Hnd Hk Hi. unfold lagrange_polynomial.
  destruct (k =? i)%nat eqn:E.
  - apply Nat.eqb_eq in E. subst i. apply lagrange_value_own.
    intros r Hr Hrk. apply elem_of_seq in Hr.
    apply distinct_times; [exact Hnd | lia | exact Hk | exact Hrk].
  - apply Nat.eqb_neq in E. apply lagrange_value_other.
    + apply elem_of_seq. lia.
    + congruence.
Qed.

Lemma entry2_Ok_row (m : list (list R)) (i j : nat) (c : R) :
  entry2 m i j = Ok c -> (i < length m)%nat.
Proof.
  unfold entry2. destruct (m !! i) as [row|] eqn:Hrow; [| discriminate].
  intros _. now apply lookup_lt_Some in Hrow.
Qed.

Section CollocationDefects.

Variable collocation_points : nat -> string -> result (list R).

(** C6: for a [COLLOCATION] object that [_initialize] built on the points
    CasADi supplies, distinct and other than 0, in the explicit mode and
    for states of [n] components, the defects [COLLOCATION.dxdt] returns
    are the [vertcat] of one defect per node [j = 1 .. degree]; the defect
    of node [j] is the Lagrange-polynomial derivative estimate at node [j],
    the sum of the node states weighted by the entries of column [j] of
    [_c], which are the derivatives at the time of node [j] of the
    Lagrange polynomials of the nodes (the polynomials that are 1 at their
    node and 0 at the others), minus the duration times the dynamics at
    the time, state and control of node [j]; their concatenation has
    [degree * n] components. *)
Theorem collocation_explicit_defects (base : Integrator (list vec))
    (ode_opt : OdeOpt.t) (points : list R) (self : COLLOCATION)
    (states : list vec) (controls : matrix) (params : vec)
    (algebraic_states : matrix) (n : nat)
    (states_end : vec) (xall : matrix) (defects : vec) :
  collocation_points (OdeOpt.irk_polynomial_interpolation_degree ode_opt)
    (OdeOpt.method ode_opt) = Ok points ->
  length points = OdeOpt.irk_polynomial_interpolation_degree ode_opt ->
  NoDup (0 :: points) ->
  COLLOCATION_initialize collocation_points base ode_opt = Ok self ->
  defects_type self = EXPLICIT ->
  Forall (fun s => length s = n) states ->
  dynamics_dimension self n ->
  COLLOCATION_dxdt collocation_points self states controls params
    algebraic_states = Ok (states_end, xall, defects) ->
  (forall k i, (k <= degree self)%nat -> (i <= degree self)%nat ->
     lagrange_polynomial (0 :: points) k (nth i (0 :: points) 0)
     = if (k =? i)%nat then 1 else 0) /\
  exists per_node : list vec,
    defects = vertcat per_node /\
    length per_node = degree self /\
    length defects = (degree self * n)%nat /\
    forall j, (1 <= j <= degree self)%nat ->
      exists defect,
        per_node !! (j - 1)%nat = Some defect /\
        lagrange_defect_at self (0 :: points) states controls params
          algebraic_states n j defect.
Proof.
  intros Hp Hlen Hnd Hself Hmode Hall Hdim H.
  assert (Hsupplies : supplies_points collocation_points
                        (OdeOpt.irk_polynomial_interpolation_degree ode_opt)
                        (OdeOpt.method ode_opt))
    by (exists points; split; assumption).
  destruct (COLLOCATION_initialize_returns collocation_points base ode_opt
              Hsupplies) as (self' & Hself' & _ & Hdeg & Hmeth & Hwf).
  rewrite Hself in Hself'. inversion Hself'; subst self'; clear Hself'.
  assert (Htimes : integration_time collocation_points (degree self)
                     (method self) = Ok (0 :: points))
    by (unfold integration_time; now rewrite Hdeg, Hmeth, Hp).
  split.
  - intros k i Hk Hi.
    apply lagrange_polynomial_cardinal; [exact Hnd | |]; simpl; lia.
  - destruct (COLLOCATION_dxdt_explicit_defects collocation_points self
                states controls params algebraic_states n states_end xall
                defects Hmode Hall Hdim H)
      as (per_node & Hdefects & Hlen' & Hsize & Hnodes).
    exists per_node. repeat split; [exact Hdefects | exact Hlen' | exact Hsize |].
    intros j Hj. destruct (Hnodes j Hj) as (defect & Hdefect & Hat).
    exists defect. split; [exact Hdefect |].
    destruct Hat as (t_j & x_j & u_j & f_j & weights & nodes & Ht_j & Hx_j
                     & Hu_j & Hf_j & Hw & Hn & Hd).
    rewrite (integration_time_at_nth collocation_points _ _ _ _ _ Htimes
               Ht_j) in Hu_j, Hf_j.
    exists x_j, u_j, f_j, weights, nodes.
    repeat split; try assumption.
    eapply Forall2_impl; [exact Hw |].
    intros k w Hkw. cbv beta in Hkw. split; [exact Hkw |].
    apply (initialize_c_derivatives collocation_points base ode_opt points
             self Hp Hlen Hself k j w); [| lia | exact Hkw].
    apply entry2_Ok_row in Hkw. destruct Hwf as (_ & Hc & _). lia.
Qed.

End CollocationDefects.

Lemma radau_supplies_2 : supplies_points radau_points 2 "radau".
Proof. eexists. split; reflexivity. Qed.

Lemma collocation_explicit_defects_witness :
  exists self states_end xall defects,
    COLLOCATION_initialize radau_points
      (Integrator_attributes example_nodes_ode
         (example_opt no_quaternion CONSTANT false 1 2))
      (example_opt no_quaternion CONSTANT false 1 2) = Ok self /\
    COLLOCATION_dxdt radau_points self (Ode.x example_nodes_ode) [[0]] [] []
    = Ok (states_end, xall, defects) /\
    (forall k i, (k <= degree self)%nat -> (i <= degree self)%nat ->
       lagrange_polynomial [0; 1 / 3; 1] k (nth i [0; 1 / 3; 1] 0)
       = if (k =? i)%nat then 1 else 0) /\
    exists per_node : list vec,
      defects = vertcat per_node /\
      length per_node = degree self /\
      length defects = (degree self * 2)%nat /\
      forall j, (1 <= j <= degree self)%nat ->
        exists defect,
          per_node !! (j - 1)%nat = Some defect /\
          lagrange_defect_at self [0; 1 / 3; 1] (Ode.x example_nodes_ode)
            [[0]] [] [] 2 j defect.
Proof.
  destruct (COLLOCATION_initialize_returns radau_points
              (Integrator_attributes example_nodes_ode
                 (example_opt no_quaternion CONSTANT false 1 2))
              (example_opt no_quaternion CONSTANT false 1 2)
              radau_supplies_2)
    as (self & Hself & Hsuper & Hdeg & Hmeth & Hwf).
  assert (Hdim : dynamics_dimension self 2).
  { intros t x u p a k Hx Hk. unfold fun_col in Hk. rewrite Hsuper in Hk.
    inversion Hk. unfold vscale. now rewrite length_map. }
  destruct (COLLOCATION_dxdt_returns radau_points self
              (Ode.x example_nodes_ode) [[0]] [] [] Hwf)
    as (states_end & xall & defects & H).
  - rewrite Hdeg, Hmeth. exact radau_supplies_2.
  - rewrite Hdeg. simpl. lia.
  - rewrite Hsuper. now left.
  - rewrite Hsuper. intros t x u p a. apply decay_column.
  - rewrite Hsuper. discriminate.
  - exists self, states_end, xall, defects.
    split; [exact Hself |]. split; [exact H |].
    apply (collocation_explicit_defects radau_points
             (Integrator_attributes example_nodes_ode
                (example_opt no_quaternion CONSTANT false 1 2))
             (example_opt no_quaternion CONSTANT false 1 2)
             [1 / 3; 1] self (Ode.x example_nodes_ode) [[0]] [] [] 2
             states_end xall defects).
    + reflexivity.
    + reflexivity.
    + repeat constructor.
      * intros Hin. apply elem_of_cons in Hin as [Hin|Hin]; [lra |].
        apply elem_of_cons in Hin as [Hin|Hin]; [lra |].
        now apply elem_of_nil in Hin.
      * intros Hin. apply elem_of_cons in Hin as [Hin|Hin]; [lra |].
        now apply elem_of_nil in Hin.
      * intros Hin. now apply elem_of_nil in Hin.
    + exact Hself.
    + rewrite Hsuper. reflexivity.
    + repeat constructor.
    + exact Hdim.
    + exact H.
Defined.

(** ** The continuity weights of the methods other than Radau *)

Section CollocationContinuity.

Variable collocation_points : nat -> string -> result (list R).

(** X12: for a method other than ["radau"], on the points CasADi supplies,
    distinct and other than 0, entry [j] of the table [_d] that
    [_initialize] builds is the value at time 1, the end of the interval,
    of the Lagrange polynomial of node [j], the polynomial that is 1 at
    the time of node [j] and 0 at the times of the other nodes. *)
Theorem continuity_weights_are_lagrange_values
    (base : Integrator (list vec)) (ode_opt : OdeOpt.t)
    (points : list R) (self : COLLOCATION) :
  collocation_points (OdeOpt.irk_polynomial_interpolation_degree ode_opt)
    (OdeOpt.method ode_opt) = Ok points ->
  length points = OdeOpt.irk_polynomial_interpolation_degree ode_opt ->
  NoDup (0 :: points) ->
  String.eqb (OdeOpt.method ode_opt) "radau" = false ->
  COLLOCATION_initialize collocation_points base ode_opt = Ok self ->
  _d self = map (fun j => lagrange_polynomial (0 :: points) j 1)
              (seq 0 (degree self + 1)) /\
  forall k i, (k <= degree self)%nat -> (i <= degree self)%nat ->
    lagrange_polynomial (0 :: points) k (nth i (0 :: points) 0)
    = if (k =? i)%nat then 1 else 0.
Proof.
  intros Hp Hlen Hnd Hm H.
  set (d := OdeOpt.irk_polynomial_interpolation_degree ode_opt) in *.
  assert (Hdeg : degree self = d).
  { unfold COLLOCATION_initialize in H. cbv zeta in H.
    apply bind_Ok in H as (cd & _ & H). inversion H. reflexivity. }
  assert (Htimes : integration_time collocation_points d
                     (OdeOpt.method ode_opt) = Ok (0 :: points))
    by (unfold integration_time; now rewrite Hp).
  split.
  - apply (initialize_d_entries collocation_points base ode_opt); [| exact H].
    intros j _l Hj H_l. fold d. rewrite Hm.
    rewrite (lagrange_fst collocation_points _ _ _ _ _ Htimes H_l 1).
    unfold lagrange_polynomial. cbn [length]. rewrite Hlen.
    now replace (S d) with (d + 1)%nat by lia.
  - intros k i Hk Hi.
    apply lagrange_polynomial_cardinal; [exact Hnd | |]; simpl; lia.
Qed.

End CollocationContinuity.

Lemma continuity_weights_are_lagrange_values_witness :
  exists self,
    COLLOCATION_initialize legendre_points
      (Integrator_attributes (example_COLLOCATION_ode 1)
         (example_opt_method "legendre" 1))
      (example_opt_method "legendre" 1) = Ok self /\
    _d self = map (fun j => lagrange_polynomial [0; 1 / 2] j 1)
                (seq 0 (degree self + 1)) /\
    _d self = [-1; 2].
Proof.
  assert (Hp : supplies_points legendre_points 1 "legendre")
    by (eexists; split; reflexivity).
  destruct (COLLOCATION_initialize_returns legendre_points
              (Integrator_attributes (example_COLLOCATION_ode 1)
                 (example_opt_method "legendre" 1))
              (example_opt_method "legendre" 1) Hp)
    as (self & H & _ & Hdeg & _).
  exists self. split; [exact H |].
  destruct (continuity_weights_are_lagrange_values legendre_points
              (Integrator_attributes (example_COLLOCATION_ode 1)
                 (example_opt_method "legendre" 1))
              (example_opt_method "legendre" 1) [1 / 2] self) as (Hd & _).
  - reflexivity.
  - reflexivity.
  - repeat constructor.
    + intros Hin. apply elem_of_cons in Hin as [Hin|Hin]; [lra |].
      now apply elem_of_nil in Hin.
    + intros Hin. now apply elem_of_nil in Hin.
  - reflexivity.
  - exact H.
  - split; [exact Hd |]. rewrite Hd, Hdeg.
    cbn [example_opt_method OdeOpt.irk_polynomial_interpolation_degree
           Nat.add seq map].
    unfold lagrange_polynomial, lagrange_value.
    cbn [length seq foldr Nat.eqb nth].
    repeat f_equal; field.
Defined.

(** ** The root-finder of [IRK] at evaluation time *)

Section IRKEvaluation.

Variable collocation_points : nat -> string -> result (list R).

Variable plugin : string -> iteration.

(** With [error_on_fail] unset a call of the root-finder returns. *)
Lemma rootfinder_call_returns (name solver : string) (f : function6)
    (guess : vec) (t : R * R) (x0 : vec) (u : matrix) (p : vec)
    (a : matrix) :
  rootfinder_call plugin name solver f {| error_on_fail := false |}
    guess t x0 u p a
  = Ok (values (plugin solver f guess t x0 u p a),
        valid (plugin solver f guess t x0 u p a)).
Proof.
  unfold rootfinder_call. cbv zeta. cbn [error_on_fail].
  now rewrite andb_false_r.
Qed.

(** With [error_on_fail] set a call raises on non-convergence. *)
Lemma rootfinder_call_raises (name solver : string) (f : function6)
    (guess : vec) (t : R * R) (x0 : vec) (u : matrix) (p : vec)
    (a : matrix) :
  valid (plugin solver f guess t x0 u p a) = false ->
  rootfinder_call plugin name solver f {| error_on_fail := true |}
    guess t x0 u p a
  = Raise CasadiError.
Proof.
  intros H. unfold rootfinder_call. cbv zeta. cbn [error_on_fail].
  now rewrite H.
Qed.

(** [IRK.dxdt] with the root-finder of the specification returns what
    [IRK.dxdt] computes from the values the iteration ends on, and their
    validity flag. *)
Lemma IRK_dxdt_checked_eq (self : IRK) (states : list vec)
    (controls : matrix) (params : vec) (algebraic_states : matrix)
    (states_0 : vec) :
  py_index states 0 = Ok states_0 ->
  IRK_dxdt_checked collocation_points plugin self states controls params
    algebraic_states
  = (out <- IRK_dxdt collocation_points (rootfinder_values plugin) self
              states controls params algebraic_states ;;
     Ok (fst out, snd out,
         valid (plugin "newton" (vfcn collocation_points self states) []
                  (t_span_sym self) states_0 controls params
                  algebraic_states))).
Proof.
  intros Hs0. unfold IRK_dxdt_checked, IRK_dxdt. cbv zeta.
  rewrite Hs0. cbn [bind].
  destruct (COLLOCATION_dxdt collocation_points self states controls params
              algebraic_states) as [out|e]; [| reflexivity].
  cbn [bind]. rewrite rootfinder_call_returns. cbn [bind fst snd].
  unfold rootfinder_values.
  match goal with
  | |- context [for_each ?l ?acc ?body] =>
      destruct (for_each l acc body) as [x|e]; [| reflexivity]
  end.
  cbn [bind].
  destruct (for_each (range 0 (degree self + 1))
              (cx_zeros (length states_0) (degree self + 1))
              (IRK_dxdt_body self x)) as [xf|e]; [| reflexivity].
  cbn [bind]. destruct (col_last xf) as [xf_last|e]; reflexivity.
Qed.

(** C8: [IRK.dxdt] calls the root-finder in one way only, as the solver
    ["newton"] with the option [error_on_fail] unset.  With the
    root-finder of the specification, for an object with the tables of
    [_initialize], without the duplicated starting point, on [degree + 2]
    states or more of one dimension, with a constant control policy and
    the explicit or the implicit defects, the evaluation raises for no
    value of the inputs and no iteration, convergent or not, that returns
    as many values as there are unknowns: it returns the outputs computed
    from the values the iteration ended on, with the validity flag of
    these values, which is unset exactly when the iteration did not
    converge; with the option set, the same call would raise. *)
Theorem IRK_evaluation_does_not_raise (self : IRK) (states : list vec)
    (controls : matrix) (params : vec) (algebraic_states : matrix)
    (n : nat) :
  well_formed_tables self ->
  supplies_points collocation_points (degree self) (method self) ->
  duplicate_starting_point self = false ->
  (degree self + 2 <= length states)%nat ->
  Forall (fun s => length s = n) states ->
  constant_control (control_type self) ->
  has_ode_column self ->
  defects_type self <> NOT_APPLICABLE ->
  (forall guess t x0 u p a,
      length (values (plugin "newton" (vfcn collocation_points self states)
                        guess t x0 u p a))
      = length (vertcat (drop 2 states))) ->
  (forall rootfinder,
      IRK_dxdt collocation_points rootfinder self states controls params
        algebraic_states
      = IRK_dxdt collocation_points
          (fun _ _ f _ =>
             rootfinder "ifcn"%string "newton"%string f
               {| error_on_fail := false |})
          self states controls params algebraic_states) /\
  exists states_0 xf xall,
    py_index states 0 = Ok states_0 /\
    IRK_dxdt_checked collocation_points plugin self states controls params
      algebraic_states
    = Ok (xf, xall,
          valid (plugin "newton" (vfcn collocation_points self states) []
                   (t_span_sym self) states_0 controls params
                   algebraic_states)) /\
    IRK_dxdt collocation_points (rootfinder_values plugin) self states
      controls params algebraic_states = Ok (xf, xall) /\
    (valid (plugin "newton" (vfcn collocation_points self states) []
              (t_span_sym self) states_0 controls params algebraic_states)
     = false ->
     rootfinder_call plugin "ifcn" "newton"
       (vfcn collocation_points self states) {| error_on_fail := true |}
       [] (t_span_sym self) states_0 controls params algebraic_states
     = Raise CasadiError).
Proof.
  intros Hwf Hp Hdup Hlen Hall Hu Hf Hmode Hshape.
  split; [reflexivity |].
  destruct (py_index_returns states 0) as [states_0 Hs0]; [lia |].
  assert (Hn : length states_0 = n).
  { apply py_index_Ok in Hs0.
    exact (proj1 (Forall_lookup _ _) Hall _ _ Hs0). }
  destruct (IRK_dxdt_returns collocation_points (rootfinder_values plugin)
              self states controls params algebraic_states states_0
              Hwf Hp Hlen Hu Hf Hmode Hs0) as (xf & xall & H).
  - unfold IRK_x_irk_points, rootfinder_values. rewrite Hshape.
    unfold vertcat. rewrite (concat_length n).
    + rewrite length_drop, Hn. apply Nat.mul_le_mono_r. lia.
    + apply Forall_drop. exact Hall.
  - exists states_0, xf, xall. split; [exact Hs0 |].
    rewrite (IRK_dxdt_checked_eq self states controls params
               algebraic_states states_0 Hs0), H.
    cbn [bind fst snd]. repeat split.
    apply rootfinder_call_raises.
Qed.

End IRKEvaluation.

Lemma IRK_evaluation_does_not_raise_witness :
  exists self states_0 xf xall,
    COLLOCATION_initialize radau_points
      (Integrator_attributes example_nodes_ode
         (example_opt no_quaternion CONSTANT false 1 2))
      (example_opt no_quaternion CONSTANT false 1 2) = Ok self /\
    py_index (Ode.x example_nodes_ode) 0 = Ok states_0 /\
    IRK_dxdt_checked radau_points stalled self (Ode.x example_nodes_ode)
      [[0]] [] []
    = Ok (xf, xall, false) /\
    IRK_dxdt radau_points (rootfinder_values stalled) self
      (Ode.x example_nodes_ode) [[0]] [] [] = Ok (xf, xall) /\
    rootfinder_call stalled "ifcn" "newton"
      (vfcn radau_points self (Ode.x example_nodes_ode))
      {| error_on_fail := true |} [] (t_span_sym self) states_0 [[0]] [] []
    = Raise CasadiError.
Proof.
  destruct (COLLOCATION_initialize_returns radau_points
              (Integrator_attributes example_nodes_ode
                 (example_opt no_quaternion CONSTANT false 1 2))
              (example_opt no_quaternion CONSTANT false 1 2)
              radau_supplies_2)
    as (self & Hself & Hsuper & Hdeg & Hmeth & Hwf).
  destruct (IRK_evaluation_does_not_raise radau_points stalled self
              (Ode.x example_nodes_ode) [[0]] [] [] 2 Hwf)
    as (_ & states_0 & xf & xall & Hs0 & Hchecked & Hvalues & Hraise).
  - rewrite Hdeg, Hmeth. exact radau_supplies_2.
  - rewrite Hsuper. reflexivity.
  - rewrite Hdeg. simpl. lia.
  - repeat constructor.
  - rewrite Hsuper. now left.
  - rewrite Hsuper. intros t x u p a. apply decay_column.
  - rewrite Hsuper. discriminate.
  - intros guess t x0 u p a. reflexivity.
  - exists self, states_0, xf, xall.
    split; [exact Hself |]. split; [exact Hs0 |].
    split; [exact Hchecked |]. split; [exact Hvalues |].
    apply Hraise. reflexivity.
Defined.
